(** * The image-enrichment pipeline of yaml-to-imgdb

    A shallow embedding of the four pipeline scripts
    ([1-find-images.py], [2-process-pngs.py], [3-upload-to-ibb.py],
    [run-all.py]) and the properties their specification states.

    Conventions.
    - A Python [str] is a Rocq [string]; its characters are the code
      points below 256 (Latin-1), which is what [ascii] can hold.
    - A value read by [yaml.safe_load] (or decoded from JSON) is a
      [value]; a Python [dict] keeps its insertion order and is an
      association list updated the way Python updates it.
    - The file system, the environment variables and the remote services
      are explicit arguments; what a function does to the outside world is
      the list of [event]s it returns.
    - The file system lists files by path; a directory is there when a
      file lies below it.
    - The tasks of a worker pool do not depend on one another.  The pool
      of the discovery stage, whose results are not read, is run task by
      task.  The pool of the upload stage hands its results over as the
      tasks finish: the order is the scheduler's and is part of what a
      script is run with. *)

From Stdlib Require Import List String Ascii ZArith NArith Bool Lia.
From Stdlib Require Import DecimalString.
Import ListNotations.
Local Open Scope string_scope.
Local Open Scope list_scope.

Set Implicit Arguments.
Set Warnings "-register-all".

(** ** Python values and built-ins *)

Module Py.

(** What [yaml.safe_load] and [response.json()] produce.  A float is
    kept as its bit pattern: no function of the pipeline computes
    with one. *)
Inductive value : Type :=
| VNone
| VBool (b : bool)
| VInt (z : Z)
| VFloat (bits : Z)
| VStr (s : string)
| VList (l : list value)
| VDict (d : list (string * value)).

(** A [dict] with [str] keys. *)
Abbreviation dict := (list (string * value)) (only parsing).

Definition isinstance_dict (v : value) : bool :=
  match v with VDict _ => true | _ => false end.

(** [bool] is a subclass of [int]. *)
Definition isinstance_int (v : value) : bool :=
  match v with VInt _ | VBool _ => true | _ => false end.

Definition isinstance_str (v : value) : bool :=
  match v with VStr _ => true | _ => false end.

(** Truth value of an object, as [x or y] and [if not x] test it. *)
Definition truthy (v : value) : bool :=
  match v with
  | VNone => false
  | VBool b => b
  | VInt z => negb (Z.eqb z 0)
  | VFloat bits => negb (Z.eqb (Z.land bits (Z.ones 63)) 0)
  | VStr s => negb (String.eqb s "")
  | VList l => match l with [] => false | _ => true end
  | VDict d => match d with [] => false | _ => true end
  end.

(** *** Dictionaries *)

Section Dict.
Variable V : Type.

(** [d.get(k)] / [k in d]. *)
Fixpoint get (k : string) (d : list (string * V)) : option V :=
  match d with
  | [] => None
  | (k', v) :: d' => if String.eqb k k' then Some v else get k d'
  end.

Definition contains (k : string) (d : list (string * V)) : bool :=
  match get k d with Some _ => true | None => false end.

(** [d[k] = v]: an existing key keeps its place, a new one goes last. *)
Fixpoint set (k : string) (v : V) (d : list (string * V))
  : list (string * V) :=
  match d with
  | [] => [(k, v)]
  | (k', v') :: d' =>
      if String.eqb k k' then (k, v) :: d' else (k', v') :: set k v d'
  end.

(** [d.setdefault(k, v)], for its effect on [d]. *)
Definition setdefault (k : string) (v : V) (d : list (string * V))
  : list (string * V) :=
  if contains k d then d else set k v d.

(** [d.update(items)]. *)
Definition update (items : list (string * V)) (d : list (string * V))
  : list (string * V) :=
  fold_left (fun acc kv => set (fst kv) (snd kv) acc) items d.

Definition keys (d : list (string * V)) : list string := map fst d.
End Dict.

(** *** Strings *)

Definition code (c : ascii) : N := N_of_ascii c.

Definition in_range (lo hi : N) (c : ascii) : bool :=
  (N.leb lo (code c) && N.leb (code c) hi)%bool.

(** [str.lower] on one character below U+0100: [A-Z], and the Latin-1
    capitals U+00C0..U+00DE (the multiplication sign U+00D7 is not a
    letter).  In this range a character lowers to an ASCII letter only
    if it is one of [A-Z]; further up it is not so (the Kelvin sign
    U+212A lowers to [k]), and the strings of this development stay
    below. *)
Definition lower_char (c : ascii) : ascii :=
  if (in_range 65 90 c
      || (in_range 192 222 c && negb (N.eqb (code c) 215)))%bool
  then ascii_of_N (code c + 32)
  else c.

Fixpoint lower (s : string) : string :=
  match s with
  | EmptyString => EmptyString
  | String c t => String (lower_char c) (lower t)
  end.

(** The character class [[a-z0-9]]. *)
Definition is_az09 (c : ascii) : bool :=
  (in_range 97 122 c || in_range 48 57 c)%bool.

(** [re.sub(r'[^a-z0-9]+', repl, s)]: the scan copies a character of
    the class and replaces a maximal run of the others by [repl];
    [in_run] tells that the run under the cursor was replaced
    already. *)
Fixpoint re_sub_not_az09 (repl : string) (in_run : bool) (s : string)
  : string :=
  match s with
  | EmptyString => EmptyString
  | String c t =>
      if is_az09 c then String c (re_sub_not_az09 repl false t)
      else if in_run then re_sub_not_az09 repl true t
      else (repl ++ re_sub_not_az09 repl true t)%string
  end.

Fixpoint mem_char (c : ascii) (chars : string) : bool :=
  match chars with
  | EmptyString => false
  | String c' t => (Ascii.eqb c c' || mem_char c t)%bool
  end.

(** [s.lstrip(chars)], [s.rstrip(chars)], [s.strip(chars)]. *)
Fixpoint lstrip (chars : string) (s : string) : string :=
  match s with
  | EmptyString => EmptyString
  | String c t => if mem_char c chars then lstrip chars t else s
  end.

Fixpoint rstrip (chars : string) (s : string) : string :=
  match s with
  | EmptyString => EmptyString
  | String c t =>
      match rstrip chars t with
      | EmptyString => if mem_char c chars then EmptyString
                       else String c EmptyString
      | t' => String c t'
      end
  end.

Definition strip (chars : string) (s : string) : string :=
  rstrip chars (lstrip chars s).

(** [s.startswith(p)]. *)
Definition startswith (p s : string) : bool := String.prefix p s.

(** [s.replace(a, b)] for one-character [a] and [b]. *)
Fixpoint replace_char (a b : ascii) (s : string) : string :=
  match s with
  | EmptyString => EmptyString
  | String c t =>
      String (if Ascii.eqb c a then b else c) (replace_char a b t)
  end.

(** [sub in s] for strings. *)
Fixpoint str_contains (sub s : string) : bool :=
  (String.prefix sub s
   || match s with
      | EmptyString => false
      | String _ t => str_contains sub t
      end)%bool.

(** Outcome of an expression that may raise. *)
Inductive exn : Type :=
| TypeError
| AttributeError
| IndexError
| KeyError
| ValueError
| OSError
| HTTPError (status : Z)
| RetryError
| ConnectionError
| JSONDecodeError.

Inductive result (A : Type) : Type :=
| Ok (a : A)
| Raise (e : exn).
Arguments Ok {A} a.
Arguments Raise {A} e.

Definition bind {A B : Type} (m : result A) (f : A -> result B)
  : result B :=
  match m with
  | Ok a => f a
  | Raise e => Raise e
  end.

(** [x in v]: substring test on a [str], membership in a [list], key
    test on a [dict]; the other types are not containers. *)
Definition str_in (x : string) (v : value) : result bool :=
  match v with
  | VStr s => Ok (str_contains x s)
  | VList l =>
      Ok (existsb (fun e => match e with
                            | VStr s => String.eqb s x
                            | _ => false
                            end) l)
  | VDict d => Ok (contains x d)
  | VNone | VBool _ | VInt _ | VFloat _ => Raise TypeError
  end.

(** [v.get(k, default)]: only a [dict] has the method. *)
Definition get_or (v : value) (k : string) (default : value)
  : result value :=
  match v with
  | VDict d => Ok (match get k d with Some x => x | None => default end)
  | _ => Raise AttributeError
  end.

(** [v[0]]. *)
Definition index0 (v : value) : result value :=
  match v with
  | VList (x :: _) => Ok x
  | VList [] => Raise IndexError
  | VStr (String c _) => Ok (VStr (String c EmptyString))
  | VStr EmptyString => Raise IndexError
  | VDict _ => Raise KeyError
  | VNone | VBool _ | VInt _ | VFloat _ => Raise TypeError
  end.

(** The double quote, as a one-character string. *)
Definition dquote : string := String (ascii_of_nat 34) EmptyString.

(** A catalog in memory: design house to product map. *)
Abbreviation catalog := (list (string * dict)) (only parsing).

Definition catalog_value (c : catalog) : value :=
  VDict (map (fun hp : string * dict => (fst hp, VDict (snd hp))) c).

End Py.

Export Py.

Notation "x <- m ;; k" := (Py.bind m (fun x => k))
  (at level 61, m at next level, right associativity).

(** ** The outside world *)

Module World.

(** A path, component by component, as [pathlib]'s [/] builds it. *)
Definition path : Type := list string.

Definition path_eqb (p q : path) : bool :=
  if list_eq_dec String.string_dec p q then true else false.

(** [name.split("/")]. *)
Fixpoint split_slash (name : string) : list string :=
  match name with
  | EmptyString => [EmptyString]
  | String c t =>
      if Ascii.eqb c "/" then EmptyString :: split_slash t
      else
        match split_slash t with
        | w :: ws => String c w :: ws
        | [] => [String c EmptyString]
        end
  end.

(** The components a name adds to a path: [pathlib] splits it at the
    slashes and drops the empty components and the single dots; it
    keeps [..], which is not resolved against the store. *)
Definition parts (name : string) : list string :=
  filter (fun c => negb (String.eqb c "" || String.eqb c ".")%bool)
         (split_slash name).

(** [p / name], for a name that does not start with a slash: no name
    the scripts join does, a slug has no slash and the name of an image
    starts with a slug or a dash. *)
Definition joinpath (p : path) (name : string) : path := p ++ parts name.

(** [p.parent], for a path of at least one component. *)
Definition parent (p : path) : path := removelast p.

(** What [yaml.safe_load] makes of a file: a value, or a syntax error. *)
Inductive loaded : Type :=
| Parsed (v : value)
| Unparsable.

(** A file: image bytes, a YAML document (kept as what loading it
    gives; [yaml.dump] writes a document that loads back as the value
    dumped), or a file that cannot be opened. *)
Inductive file : Type :=
| Image (bytes : string)
| Yaml (doc : loaded)
| Unreadable.

(** The files of the working directory, in directory-listing order. *)
Definition file_system : Type := list (path * file).

Fixpoint lookup (p : path) (fs : file_system) : option file :=
  match fs with
  | [] => None
  | (q, f) :: fs' => if path_eqb p q then Some f else lookup p fs'
  end.

Definition is_file (p : path) (fs : file_system) : bool :=
  match lookup p fs with Some _ => true | None => false end.

(** [q] lies below the directory [dir]. *)
Fixpoint below (dir q : path) : bool :=
  match dir, q with
  | [], _ :: _ => true
  | d :: dir', c :: q' => (String.eqb d c && below dir' q')%bool
  | _, [] => false
  end.

(** A directory is there when a file of the store lies below it. *)
Definition is_dir (p : path) (fs : file_system) : bool :=
  existsb (fun qf : path * file => below p (fst qf)) fs.

(** [p.exists()], [os.path.exists(p)]: a file or a directory. *)
Definition exists_ (p : path) (fs : file_system) : bool :=
  (is_file p fs || is_dir p fs)%bool.

(** Writing replaces a file where it stands and lists a new one last. *)
Fixpoint write (p : path) (f : file) (fs : file_system) : file_system :=
  match fs with
  | [] => [(p, f)]
  | (q, g) :: fs' =>
      if path_eqb p q then (p, f) :: fs' else (q, g) :: write p f fs'
  end.

Definition read_bytes (p : path) (fs : file_system) : result string :=
  match lookup p fs with
  | Some (Image b) => Ok b
  | _ => Raise OSError
  end.

Definition read_yaml (p : path) (fs : file_system) : loaded :=
  match lookup p fs with
  | Some (Yaml doc) => doc
  | _ => Unparsable
  end.

Fixpoint ends_with (suffix s : string) : bool :=
  (String.eqb s suffix
   || match s with
      | EmptyString => false
      | String _ t => ends_with suffix t
      end)%bool.

(** [dir.glob("*.yaml")]: the files directly in [dir] named [*.yaml]. *)
Definition glob_yaml (dir : string) (fs : file_system) : list string :=
  flat_map (fun pf : path * file =>
              match fst pf with
              | [d; name] =>
                  if (String.eqb d dir && ends_with ".yaml" name)%bool
                  then [name] else []
              | _ => []
              end) fs.

(** What a run does beyond the file system. *)
Inductive event : Type :=
| Search (query : string)
| HttpSend (method url : string)
| Sleep (seconds : Z)
| RemoveBackground (source : path).

(** The calls that reach a remote service. *)
Definition is_network (e : event) : bool :=
  match e with
  | Search _ | HttpSend _ _ | RemoveBackground _ => true
  | Sleep _ => false
  end.

Definition network_calls (t : list event) : list event :=
  filter is_network t.

End World.

Export World.

(** ** [requests] and [urllib3]

    The two libraries are not part of the repository.  The retry loop
    below follows urllib3's [Retry] and [HTTPConnectionPool.urlopen]:
    [total] counts the retries allowed after the first attempt, a
    status of [status_forcelist] is retried only for a method of
    [allowed_methods], and the wait before a retry is
    [backoff_factor * 2 ** (errors - 1)], nothing before the first.  A
    response is its status, its body and what decoding the body as JSON
    gives; it is taken without a [Retry-After] header, which would set
    the wait in place of the backoff. *)

Module Http.

Record response : Type := {
  status : Z;
  content : string;
  json : result value
}.

(** What one attempt on the wire gives: a response, or no connection. *)
Inductive reply : Type :=
| Reply (r : response)
| Dropped.

Record Retry : Type := {
  total : nat;
  backoff_factor : Z;
  status_forcelist : list Z;
  allowed_methods : list string
}.

Definition DEFAULT_ALLOWED_METHODS : list string :=
  ["HEAD"; "GET"; "PUT"; "DELETE"; "OPTIONS"; "TRACE"].

Definition DEFAULT_BACKOFF_MAX : Z := 120.

Definition is_retry (r : Retry) (method : string) (st : Z) : bool :=
  (existsb (String.eqb method) (allowed_methods r)
   && existsb (Z.eqb st) (status_forcelist r))%bool.

Definition get_backoff_time (r : Retry) (consecutive_errors : nat) : Z :=
  if Nat.leb consecutive_errors 1 then 0%Z
  else Z.min DEFAULT_BACKOFF_MAX
         (backoff_factor r * 2 ^ (Z.of_nat consecutive_errors - 1))%Z.

Definition sleep (r : Retry) (consecutive_errors : nat) : list event :=
  let d := get_backoff_time r consecutive_errors in
  if (0 <? d)%Z then [Sleep d] else [].

(** [urlopen]: [remaining] is the retry budget left, [errors] the
    number of failed attempts so far; [server n] answers the attempt
    number [n], counted from 0. *)
Fixpoint urlopen (r : Retry) (remaining errors : nat)
    (method url : string) (server : nat -> reply)
  : result response * list event :=
  match server errors with
  | Dropped =>
      match remaining with
      | O => (Raise ConnectionError, [HttpSend method url])
      | S remaining' =>
          let (res, evs) :=
            urlopen r remaining' (S errors) method url server in
          (res, HttpSend method url :: sleep r (S errors) ++ evs)
      end
  | Reply resp =>
      if is_retry r method (status resp) then
        match remaining with
        | O => (Raise RetryError, [HttpSend method url])
        | S remaining' =>
            let (res, evs) :=
              urlopen r remaining' (S errors) method url server in
            (res, HttpSend method url :: sleep r (S errors) ++ evs)
        end
      else (Ok resp, [HttpSend method url])
  end.

(** A request through an adapter mounted with [max_retries = r]. *)
Definition send (r : Retry) (method url : string) (server : nat -> reply)
  : result response * list event :=
  urlopen r (total r) 0 method url server.

(** [requests.get] and friends outside any session: the adapter's
    default, [Retry(0, read=False)]. *)
Definition no_retries : Retry := {|
  total := 0;
  backoff_factor := 0;
  status_forcelist := [];
  allowed_methods := DEFAULT_ALLOWED_METHODS
|}.

(** [response.raise_for_status()]. *)
Definition raise_for_status (resp : response) : result unit :=
  if ((400 <=? status resp) && (status resp <? 600))%Z
  then Raise (HTTPError (status resp))
  else Ok tt.

(** The reply carries a status the pipeline's retry strategy names. *)
Definition transient (rep : reply) : bool :=
  match rep with
  | Reply r => existsb (Z.eqb (status r)) [429; 500; 502; 503; 504]%Z
  | Dropped => false
  end.



End Http.

(** ** What a script is run with *)

Module Env.

Record env : Type := {
  (** The environment variables a script finds: [os.environ], which
      the first and the third script fill from the [.env] file before
      they read it. *)
  environ : list (string * string);
  (** [GoogleSearch({... "q": q, "api_key": key ...}).get_dict()]. *)
  serp_search : string -> option string -> result value;
  (** The server side of one HTTP attempt: method, URL, body, number
      of the attempt. *)
  http : string -> string -> string -> nat -> Http.reply;
  (** [client.run(model_version, input={"image": data_url})] for the
      image at a path with the given bytes: the URL of the output. *)
  replicate_run : path -> string -> result string;
  (** [f"{v}"]. *)
  format : value -> string;
  (** The time at which the upload task of a product of a design house
      finishes. *)
  finished : string -> string -> nat
}.

Definition getenv (e : env) (name : string) : option string :=
  get name (environ e).

(** [concurrent.futures.as_completed]: what was submitted, in the order
    in which the tasks finish; tasks that finish together are taken in
    submission order. *)
Section AsCompleted.
Variable A : Type.
Variable time : A -> nat.

(** [x] was submitted before [done], which is in finishing order. *)
Fixpoint place (x : A) (done : list A) : list A :=
  match done with
  | [] => [x]
  | y :: rest =>
      if Nat.leb (time x) (time y) then x :: done else y :: place x rest
  end.

Definition by_completion (submitted : list A) : list A :=
  fold_right place [] submitted.

End AsCompleted.

End Env.

Export Env.

(** ** [1-find-images.py] *)

Module FindImages.

Definition DATA_DIR : string := "data-store".

Definition sanitize_name (name : string) : string :=
  let name := lower name in
  let name := re_sub_not_az09 "-" false name in
  strip "-" name.

Definition retry_strategy : Http.Retry := {|
  Http.total := 3;
  Http.backoff_factor := 1;
  Http.status_forcelist := [429; 500; 502; 503; 504]%Z;
  Http.allowed_methods := Http.DEFAULT_ALLOWED_METHODS
|}.

(** [SESSION.get(url, timeout=5)]. *)
Definition SESSION_get (e : env) (url : string)
  : result Http.response * list event :=
  Http.send retry_strategy "GET" url (http e "GET" url "").

(** The body of the loop over [content.items()]. *)
Definition load_house (products : catalog) (entry : string * value)
  : catalog :=
  let (design_house, items) := entry in
  let products :=
    if contains design_house products then products
    else set design_house [] products in
  match items, get design_house products with
  | VDict d, Some current => set design_house (update d current) products
  | _, _ => products
  end.

(** One fragment: a syntax error, and a document that is not a
    mapping ([content.items()] raises), are caught and the fragment is
    skipped. *)
Definition load_fragment (products : catalog) (doc : loaded) : catalog :=
  match doc with
  | Unparsable => products
  | Parsed v =>
      match (if truthy v then v else VDict []) with
      | VDict content => fold_left load_house content products
      | _ => products
      end
  end.

Definition load_products (fragments : list loaded) : catalog :=
  fold_left load_fragment fragments [].

(** [DATA_DIR / dh_sanitized]. *)
Definition save_dir (design_house : string) : path :=
  joinpath [DATA_DIR] (sanitize_name design_house).

(** [save_dir / f"{product_sanitized}-{year}.jpg"]. *)
Definition save_path (e : env) (design_house product : string)
    (year : value) : path :=
  joinpath (save_dir design_house)
    (sanitize_name product ++ "-" ++ format e year ++ ".jpg")%string.

Definition query (design_house product : string) : string :=
  (design_house ++ " " ++ dquote ++ product ++ dquote
   ++ " large photo with white background")%string.

(** [result.get("images_results", [{}])[0].get("original")]. *)
Definition first_original (res : value) : result value :=
  imgs <- get_or res "images_results" (VList [VDict []]) ;;
  first <- index0 imgs ;;
  get_or first "original" VNone.

(** The [try] block of [download_image], up to the bytes to save, if
    any. *)
Definition find_image (e : env) (design_house product : string)
  : result (option string) * list event :=
  let q := query design_house product in
  match (res <- serp_search e q (getenv e "SERP_API_KEY") ;;
         first_original res) with
  | Raise x => (Raise x, [Search q])
  | Ok img_url =>
      if negb (truthy img_url) then (Ok None, [Search q])
      else
        match img_url with
        | VStr url =>
            let (r, evs) := SESSION_get e url in
            (resp <- r ;; Ok (Some (Http.content resp)), Search q :: evs)
        | _ => (Raise TypeError, [Search q])
        end
  end.

(** [save_path.write_bytes(data)], after [save_dir.mkdir(parents=True,
    exist_ok=True)]: the file is opened in the directory it goes in,
    which has to be there, be it the one just made or one of the
    store. *)
Definition write_bytes (design_house : string) (p : path) (data : string)
    (fs : file_system) : result file_system :=
  if (path_eqb (parent p) (save_dir design_house)
      || is_dir (parent p) fs)%bool
  then Ok (write p (Image data) fs)
  else Raise OSError.

(** What is raised in the [try] block, by the search, the download or
    the writing of the file, is caught: the task ends and nothing is
    saved. *)
Definition download_image (e : env) (fs : file_system)
    (design_house product : string) (year : value)
  : file_system * list event :=
  let p := save_path e design_house product year in
  if exists_ p fs then (fs, [])
  else
    let (r, evs) := find_image e design_house product in
    match r with
    | Ok (Some bytes) =>
        match write_bytes design_house p bytes fs with
        | Ok fs' => (fs', evs)
        | Raise _ => (fs, evs)
        end
    | Ok None => (fs, evs)
    | Raise _ => (fs, evs)
    end.

Definition tasks (products_dict : catalog)
  : list (string * string * value) :=
  flat_map (fun hp : string * dict =>
              map (fun py : string * value => (fst hp, fst py, snd py))
                  (snd hp))
           products_dict.

Definition run_task (e : env) (st : file_system * list event)
    (t : string * string * value) : file_system * list event :=
  let '(dh, product, year) := t in
  let (fs', evs) := download_image e (fst st) dh product year in
  (fs', snd st ++ evs).

Definition fragments (fs : file_system) : list loaded :=
  map (fun name => read_yaml [DATA_DIR; name] fs) (glob_yaml DATA_DIR fs).

Definition main (e : env) (fs : file_system) : file_system * list event :=
  fold_left (run_task e) (tasks (load_products (fragments fs))) (fs, []).

End FindImages.

(** ** [2-process-pngs.py] *)

Module ProcessPngs.

Definition is_image_name (file : string) : bool :=
  let f := lower file in
  (ends_with ".jpg" f || ends_with ".jpeg" f || ends_with ".png" f)%bool.

(** [os.path.splitext(name)[0]]: the name up to its last dot, when a
    character other than a dot stands before that dot. *)
Fixpoint splitext_root (seen_other : bool) (name : string) : string :=
  match name with
  | EmptyString => EmptyString
  | String c t =>
      if (Ascii.eqb c "." && seen_other
          && negb (mem_char "." t))%bool
      then EmptyString
      else String c (splitext_root (seen_other || negb (Ascii.eqb c "."))%bool
                       t)
  end.

Fixpoint dest_relative (rel : path) : path :=
  match rel with
  | [] => []
  | [file] => [(splitext_root false file ++ ".png")%string]
  | d :: rest => d :: dest_relative rest
  end.

(** The body of the loop, for the file at [source] = [data-store/rel]. *)
Definition process_file (e : env) (st : file_system * list event)
    (rel : path) : file_system * list event :=
  let (fs, evs) := st in
  if negb (is_image_name (last rel "")) then st
  else
    let source_path := "data-store" :: rel in
    let dest_path := "data-store-processed" :: dest_relative rel in
    if exists_ dest_path fs then st
    else
      match read_bytes source_path fs with
      | Raise _ => st
      | Ok image_data =>
          match replicate_run e source_path image_data with
          | Raise _ => (fs, evs ++ [RemoveBackground source_path])
          | Ok output_url =>
              let (r, sent) :=
                Http.send Http.no_retries "GET" output_url
                  (http e "GET" output_url "") in
              let evs' := evs ++ RemoveBackground source_path :: sent in
              match (resp <- r ;;
                     _ <- Http.raise_for_status resp ;; Ok resp) with
              | Raise _ => (fs, evs')
              | Ok resp =>
                  (write dest_path (Image (Http.content resp)) fs, evs')
              end
          end
      end.

(** [os.walk('data-store')]: the files below the directory, by their
    path relative to it. *)
Definition walk (fs : file_system) : list path :=
  flat_map (fun pf : path * file =>
              match fst pf with
              | d :: rel =>
                  if String.eqb d "data-store" then
                    match rel with [] => [] | _ => [rel] end
                  else []
              | [] => []
              end) fs.

Definition main (e : env) (fs : file_system)
  : result unit * file_system * list event :=
  match getenv e "REPLICATE_API_TOKEN" with
  | None => (Raise ValueError, fs, [])
  | Some _ =>
      let (fs', evs) := fold_left (process_file e) (walk fs) (fs, []) in
      (Ok tt, fs', evs)
  end.

End ProcessPngs.

(** ** [3-upload-to-ibb.py] *)

Module UploadToIbb.

Definition DATA_DIR : string := "data-store".
Definition PROCESSED_DIR : string := "data-store-processed".

Definition IBB_API_KEY (e : env) : option string := getenv e "IBB_API_KEY".

(** [not IBB_API_KEY]: the variable is missing or empty. *)
Definition not_IBB_API_KEY (e : env) : bool :=
  match IBB_API_KEY e with
  | Some k => String.eqb k ""
  | None => true
  end.

Definition sanitize_name (name : string) : string :=
  let name := lower name in
  let name := re_sub_not_az09 "-" false name in
  strip "-" name.

Definition retry_strategy : Http.Retry := {|
  Http.total := 3;
  Http.backoff_factor := 1;
  Http.status_forcelist := [429; 500; 502; 503; 504]%Z;
  Http.allowed_methods := Http.DEFAULT_ALLOWED_METHODS
|}.

Definition upload_url : string := "https://api.imgbb.com/1/upload".

(** [SESSION.post(upload_url, data={"key": ..., "image": ...})]; the
    body stands for the Base64 text of the image. *)
Definition SESSION_post (e : env) (image : string)
  : result Http.response * list event :=
  Http.send retry_strategy "POST" upload_url
    (http e "POST" upload_url image).

Definition unify_details (details : value) : value :=
  match details with
  | VDict _ => details
  | VInt _ | VBool _ => VDict [("year", details)]
  | VStr _ => VDict [("year", details)]
  | VNone | VFloat _ | VList _ => VDict [("year", VStr "")]
  end.

(** The loop of [fix_yaml_structure]: the state is [new_content] and
    [current_design_house]. *)
Definition fix_key (st : catalog * option string) (entry : string * value)
  : catalog * option string :=
  let (new_content, current_design_house) := st in
  let (key, val) := entry in
  if negb (startswith "__" key) then
    (set key (match val with VDict d => d | _ => [] end) new_content,
     Some key)
  else
    let (new_content, house) :=
      match current_design_house with
      | None => (setdefault "unknown" [] new_content, "unknown")
      | Some h => (new_content, h)
      end in
    let clean_product := replace_char "_" " " (lstrip "_" key) in
    (match get house new_content with
     | Some products =>
         set house (set clean_product val products) new_content
     | None => new_content
     end,
     Some house).

Definition fix_yaml_structure (content : dict) : catalog :=
  fst (fold_left fix_key content ([], None)).

(** ["image" in details and "ibb.co" in details["image"]]. *)
Definition already_updated (details : value) : result bool :=
  match details with
  | VDict d =>
      match get "image" d with
      | Some image => str_in "ibb.co" image
      | None => Ok false
      end
  | _ => Raise TypeError
  end.

Definition png_path (e : env) (design_house product : string)
    (details : value) : result path :=
  year <- get_or details "year" (VStr "") ;;
  Ok (joinpath (joinpath [PROCESSED_DIR] (sanitize_name design_house))
        (sanitize_name product ++ "-" ++ format e year ++ ".png")%string).

(** The [try] block of [upload_entry], up to the value that is stored
    under ["image"]. *)
Definition try_upload (e : env) (fs : file_system) (p : path)
  : result value * list event :=
  match read_bytes p fs with
  | Raise x => (Raise x, [])
  | Ok image_bytes =>
      let (r, evs) := SESSION_post e image_bytes in
      (response <- r ;;
       _ <- Http.raise_for_status response ;;
       body <- Http.json response ;;
       data <- get_or body "data" (VDict []) ;;
       get_or data "url" (VStr ""),
       evs)
  end.

(** [details["image"] = url]. *)
Definition set_image (details url : value) : value :=
  match details with
  | VDict d => VDict (set "image" url d)
  | _ => details
  end.

Definition upload_entry (e : env) (fs : file_system)
    (design_house product : string) (details : value)
  : result (value * bool) * list event :=
  if not_IBB_API_KEY e then (Ok (details, false), [])
  else
    let details := unify_details details in
    match already_updated details with
    | Raise x => (Raise x, [])
    | Ok true => (Ok (details, false), [])
    | Ok false =>
        match png_path e design_house product details with
        | Raise x => (Raise x, [])
        | Ok p =>
            if negb (exists_ p fs) then (Ok (details, false), [])
            else
              let (r, evs) := try_upload e fs p in
              match r with
              | Ok url => (Ok (set_image details url, true), evs)
              | Raise _ => (Ok (details, false), evs)
              end
        end
    end.

(** [as_completed(future_map)]: the products, in the order in which
    their tasks finish. *)
Definition as_completed (e : env) (design_house : string) (products : dict)
  : dict :=
  by_completion (fun pd : string * value => finished e design_house (fst pd))
    products.

(** The pool of one design house: every submitted task runs; the
    results are put into [updated_products] by product name as the
    tasks finish, and [future.result()] raises what a task raised.  The
    trace lists what the tasks send in the same order. *)
Definition run_pool (e : env) (fs : file_system) (design_house : string)
    (products : dict) : result dict * list event :=
  fold_left
    (fun (acc : result dict * list event) (pd : string * value) =>
       let (updated_products, evs) := acc in
       let (r, evs') := upload_entry e fs design_house (fst pd) (snd pd) in
       (updated <- updated_products ;;
        res <- r ;;
        Ok (set (fst pd) (fst res) updated),
        evs ++ evs'))
    (as_completed e design_house products) (Ok [], []).

(** The loop over [content.items()]; [content[design_house]] is
    assigned once the pool of the house is done. *)
Definition upload_houses (e : env) (fs : file_system) (content : catalog)
  : result catalog * list event :=
  fold_left
    (fun (acc : result catalog * list event) (hp : string * dict) =>
       let (cur, evs) := acc in
       match cur with
       | Raise x => (Raise x, evs)
       | Ok c =>
           let (r, evs') := run_pool e fs (fst hp) (snd hp) in
           (updated <- r ;; Ok (set (fst hp) updated c), evs ++ evs')
       end)
    content (Ok content, []).

Definition process_yaml_file (e : env) (fs : file_system) (name : string)
  : result unit * file_system * list event :=
  match read_yaml [DATA_DIR; name] fs with
  | Unparsable => (Ok tt, fs, [])
  | Parsed v =>
      match (if truthy v then v else VDict []) with
      | VDict content =>
          let (r, evs) := upload_houses e fs (fix_yaml_structure content) in
          match r with
          | Raise x => (Raise x, fs, evs)
          | Ok content' =>
              (Ok tt,
               write [PROCESSED_DIR; name]
                 (Yaml (Parsed (catalog_value content'))) fs,
               evs)
          end
      | _ => (Raise AttributeError, fs, [])
      end
  end.

(** [datatable[design_house][product] = details]. *)
Definition put_product (design_house : string) (datatable : catalog)
    (pd : string * value) : catalog :=
  match get design_house datatable with
  | Some cur => set design_house (set (fst pd) (snd pd) cur) datatable
  | None => datatable
  end.

(** The body of the loop over [content.items()] in [create_datatable]. *)
Definition merge_house (datatable : catalog) (entry : string * value)
  : catalog :=
  let (design_house, products) := entry in
  match products with
  | VDict ps =>
      let datatable :=
        if contains design_house datatable then datatable
        else set design_house [] datatable in
      fold_left (put_product design_house) ps datatable
  | _ => datatable
  end.

(** One fragment of [PROCESSED_DIR]: a syntax error is caught and the
    fragment skipped; [content.items()] is outside the [try]. *)
Definition merge_fragment (acc : result catalog) (doc : loaded)
  : result catalog :=
  datatable <- acc ;;
  match doc with
  | Unparsable => Ok datatable
  | Parsed v =>
      match (if truthy v then v else VDict []) with
      | VDict content => Ok (fold_left merge_house content datatable)
      | _ => Raise AttributeError
      end
  end.

Definition merge_fragments (fragments : list loaded) : result catalog :=
  fold_left merge_fragment fragments (Ok []).

Definition create_datatable (fs : file_system)
  : result unit * file_system :=
  let fragments :=
    map (fun name => read_yaml [PROCESSED_DIR; name] fs)
        (glob_yaml PROCESSED_DIR fs) in
  match merge_fragments fragments with
  | Raise x => (Raise x, fs)
  | Ok datatable =>
      (Ok tt,
       write [PROCESSED_DIR; "datatable.yaml"]
         (Yaml (Parsed (catalog_value datatable))) fs)
  end.

Definition main (e : env) (fs : file_system)
  : result unit * file_system * list event :=
  let '(r, fs', evs) :=
    fold_left
      (fun (acc : result unit * file_system * list event) name =>
         let '(r, fs1, evs) := acc in
         match r with
         | Raise x => acc
         | Ok _ =>
             let '(r', fs2, evs') := process_yaml_file e fs1 name in
             (r', fs2, evs ++ evs')
         end)
      (glob_yaml DATA_DIR fs) (Ok tt, fs, []) in
  match r with
  | Raise x => (Raise x, fs', evs)
  | Ok _ => let (r', fs'') := create_datatable fs' in (r', fs'', evs)
  end.

End UploadToIbb.

(** ** [run-all.py]

    The scripts run in order and the first one that fails stops the
    run.  The fourth script reads and writes other directories and
    calls no service; it is left out. *)

Module RunAll.

Definition run (e : env) (fs : file_system)
  : result unit * file_system * list event :=
  let (fs1, evs1) := FindImages.main e fs in
  let '(r2, fs2, evs2) := ProcessPngs.main e fs1 in
  match r2 with
  | Raise x => (Raise x, fs2, evs1 ++ evs2)
  | Ok _ =>
      let '(r3, fs3, evs3) := UploadToIbb.main e fs2 in
      (r3, fs3, evs1 ++ evs2 ++ evs3)
  end.

End RunAll.

(** ** The specification's NameNormalizer, read from its words *)

Module NameNormalizer.

(** An alphanumeric character: a letter of either case or a digit. *)
Definition is_alnum (c : ascii) : bool :=
  (in_range 97 122 c || in_range 65 90 c || in_range 48 57 c)%bool.

(** The maximal runs of a string, each tagged alphanumeric or not. *)
Fixpoint runs (s : string) : list (bool * string) :=
  match s with
  | EmptyString => []
  | String c t =>
      match runs t with
      | (b, r) :: rest =>
          if Bool.eqb b (is_alnum c) then (b, String c r) :: rest
          else (is_alnum c, String c EmptyString) :: (b, r) :: rest
      | [] => [(is_alnum c, String c EmptyString)]
      end
  end.

(** Every run of non-alphanumeric characters becomes one dash. *)
Fixpoint dash_runs (rs : list (bool * string)) : string :=
  match rs with
  | [] => EmptyString
  | (true, r) :: rest => (r ++ dash_runs rest)%string
  | (false, _) :: rest => ("-" ++ dash_runs rest)%string
  end.

Definition normalize (s : string) : string :=
  strip "-" (dash_runs (runs (lower s))).

(** What two names have in common when they differ only by case or by
    the separator used: the lowercased words, and where separators
    stand. *)
Inductive token : Type :=
| Word (w : string)
| Sep.

Definition tokens (s : string) : list token :=
  map (fun br : bool * string =>
         if fst br then Word (lower (snd br)) else Sep)
      (runs s).

(** The runs that a scan already inside a replaced run still has to
    write. *)
Definition after_run (rs : list (bool * string)) : list (bool * string) :=
  match rs with
  | (false, _) :: rest => rest
  | _ => rs
  end.

(** A slug is written from the tokens of the name alone. *)
Fixpoint render (ts : list token) : string :=
  match ts with
  | [] => EmptyString
  | Word w :: rest => (w ++ render rest)%string
  | Sep :: rest => ("-" ++ render rest)%string
  end.

(** What makes [runs] the maximal runs: put back together they give
    the string, none is empty, each holds characters of one kind, and
    two neighbours are of different kinds. *)
Fixpoint concat_runs (rs : list (bool * string)) : string :=
  match rs with
  | [] => EmptyString
  | (_, r) :: rest => (r ++ concat_runs rest)%string
  end.

Fixpoint all_chars (p : ascii -> bool) (s : string) : bool :=
  match s with
  | EmptyString => true
  | String c t => (p c && all_chars p t)%bool
  end.

Fixpoint alternate (rs : list (bool * string)) : bool :=
  match rs with
  | (b, _) :: (((b', _) :: _) as rest) =>
      (negb (Bool.eqb b b') && alternate rest)%bool
  | _ => true
  end.

(** Two names that differ only by case or by the separator used,
    character by character: letters and digits agree up to case, and a
    separator stands against a separator. *)
Inductive same_name : string -> string -> Prop :=
| same_nil : same_name EmptyString EmptyString
| same_alnum (c1 c2 : ascii) (s1 s2 : string) :
    is_alnum c1 = true -> lower_char c1 = lower_char c2 ->
    same_name s1 s2 -> same_name (String c1 s1) (String c2 s2)
| same_separator (c1 c2 : ascii) (s1 s2 : string) :
    is_alnum c1 = false -> is_alnum c2 = false ->
    same_name s1 s2 -> same_name (String c1 s1) (String c2 s2).

(** The tokens of [String c t] from those of [t]. *)
Definition push_token (c : ascii) (ts : list token) : list token :=
  match ts with
  | Word w :: rest =>
      if is_alnum c then Word (String (lower_char c) w) :: rest
      else Sep :: ts
  | Sep :: rest =>
      if is_alnum c then Word (String (lower_char c) EmptyString) :: ts
      else ts
  | [] =>
      if is_alnum c then [Word (String (lower_char c) EmptyString)]
      else [Sep]
  end.

End NameNormalizer.

(** ** The specification's malformed-fragment repair, read from its words *)

Module MalformedRepair.

Definition marker : string := "__".

(** The key without its prefix, underscores turned into spaces. *)
Definition product_name (key : string) : string :=
  replace_char "_" " "
    (String.substring (String.length marker)
       (String.length key - String.length marker) key).

Definition scan (st : catalog * option string) (entry : string * value)
  : catalog * option string :=
  let (repaired, current) := st in
  let (key, val) := entry in
  if String.prefix marker key then
    let house := match current with Some h => h | None => "unknown" end in
    let products :=
      match get house repaired with Some ps => ps | None => [] end in
    (set house (set (product_name key) val products) repaired, Some house)
  else
    (set key (match val with VDict d => d | _ => [] end) repaired, Some key).

Definition repair (fragment : dict) : catalog :=
  fst (fold_left scan fragment ([], None)).

End MalformedRepair.

(** ** Vocabulary for the repair pass *)

Module RepairFacts.

(** The product name the repair gives a prefixed key. *)
Definition clean_product (key : string) : string :=
  replace_char "_" " " (lstrip "_" key).

(** The product map a design-house key is seeded with. *)
Definition seed (v : value) : dict :=
  match v with VDict d => d | _ => [] end.

(** Products attached, in order, to a product map. *)
Definition attach (prods : dict) (m : dict) : dict :=
  fold_left (fun acc kv => set (clean_product (fst kv)) (snd kv) acc) prods m.

Definition all_prefixed (prods : dict) : bool :=
  forallb (fun kv : string * value => startswith "__" (fst kv)) prods.

(** The rest of a fragment opens a new design house, or is empty. *)
Definition opens_house (rest : dict) : bool :=
  match rest with
  | [] => true
  | (k, _) :: _ => negb (startswith "__" k)
  end.

(** The malformed fragment of the specification. *)
Definition jasper_morrison : dict :=
  [("Jasper Morrison", VNone);
   ("__Chair_One", VInt 1999);
   ("__Glo_Ball", VInt 2005)].

End RepairFacts.

(** ** Vocabulary for loading and merging catalogs *)

Module CatalogFacts.

(** A Python [dict] holds a key once. *)
Fixpoint unique_keys {V : Type} (d : list (string * V)) : bool :=
  match d with
  | [] => true
  | (k, _) :: d' => (negb (contains k d') && unique_keys d')%bool
  end.

(** A fragment as it is loaded: a mapping, and the mappings it holds
    for its design houses; each holds a key once. *)
Definition is_fragment (f : dict) : bool :=
  (unique_keys f
   && forallb (fun hv : string * value =>
                 match snd hv with
                 | VDict ps => unique_keys ps
                 | _ => true
                 end) f)%bool.

(** The record a fragment holds for a product of a design house, when
    the value of the design house is a product map. *)
Definition entry (f : dict) (design_house product : string)
  : option value :=
  match get design_house f with
  | Some (VDict ps) => get product ps
  | _ => None
  end.

Definition has_house (f : dict) (design_house : string) : bool :=
  match get design_house f with
  | Some (VDict _) => true
  | _ => false
  end.

(** The record of the last fragment of the list that holds one. *)
Definition last_entry (fs : list dict) (design_house product : string)
  : option value :=
  fold_left (fun acc f =>
               match entry f design_house product with
               | Some r => Some r
               | None => acc
               end) fs None.

Definition lookup (c : catalog) (design_house product : string)
  : option value :=
  match get design_house c with
  | Some ps => get product ps
  | None => None
  end.

(** The two fragments of the specification's merge example. *)
Definition fragment_A : dict :=
  [("Vitra", VDict [("Eames_Chair", VDict [("year", VInt 1956)])])].

Definition fragment_B : dict :=
  [("Vitra",
    VDict [("Eames_Chair",
            VDict [("year", VInt 1956);
                   ("image", VStr "https://ibb.co/x")])])].

End CatalogFacts.

(** ** Concrete worlds to run the scripts in *)

Module Scenario.

(** [repr(v)], for strings without quotes, backslashes or control
    characters; a float is not written. *)
Fixpoint repr (v : value) : string :=
  match v with
  | VNone => "None"
  | VBool true => "True"
  | VBool false => "False"
  | VInt z => NilEmpty.string_of_int (Z.to_int z)
  | VFloat _ => ""
  | VStr s => "'" ++ s ++ "'"
  | VList l =>
      "["
      ++ (fix items (l : list value) : string :=
            match l with
            | [] => ""
            | [x] => repr x
            | x :: rest => repr x ++ ", " ++ items rest
            end) l
      ++ "]"
  | VDict d =>
      "{"
      ++ (fix items (d : list (string * value)) : string :=
            match d with
            | [] => ""
            | [(k, x)] => "'" ++ k ++ "': " ++ repr x
            | (k, x) :: rest => "'" ++ k ++ "': " ++ repr x ++ ", " ++ items rest
            end) d
      ++ "}"
  end%string.

(** [f"{v}"]: a string is written as it is, another value as its
    [repr]. *)
Definition format_value (v : value) : string :=
  match v with
  | VStr s => s
  | _ => repr v
  end.

Definition hosted_url : string := "https://i.ibb.co/abc/chair-1956.png".

Definition reply_with (st : Z) (bytes : string) (body : result value)
  : Http.reply :=
  Http.Reply {| Http.status := st; Http.content := bytes; Http.json := body |}.

(** Services that work: the search finds an image, every download
    succeeds, the upload answers with a hosted URL. *)
Definition working_http (method url body : string) (attempt : nat)
  : Http.reply :=
  if String.eqb method "POST"
  then reply_with 200 ""
         (Ok (VDict [("data", VDict [("url", VStr hosted_url)])]))
  else reply_with 200 "image-bytes" (Raise JSONDecodeError).

(** A server that answers every attempt with the same status. *)
Definition always (st : Z) (method url body : string) (attempt : nat)
  : Http.reply :=
  reply_with st "" (Raise JSONDecodeError).

Definition found_image : value :=
  VDict [("images_results",
          VList [VDict [("original", VStr "https://img.example/chair.jpg")]])].

Definition with_services (vars : list (string * string))
    (server : string -> string -> string -> nat -> Http.reply) : env := {|
  environ := vars;
  serp_search := fun _ _ => Ok found_image;
  http := server;
  replicate_run := fun _ _ => Ok "https://replicate.example/out.png";
  format := format_value;
  finished := fun _ _ => 0
|}.

Definition all_credentials : list (string * string) :=
  [("SERP_API_KEY", "serp-key");
   ("REPLICATE_API_TOKEN", "replicate-token");
   ("IBB_API_KEY", "ibb-key")].

Definition working : env := with_services all_credentials working_http.


(** The same world, in which the task of the product "Chair" is the
    last of its pool to finish. *)
Definition chair_last (e : env) : env := {|
  environ := environ e;
  serp_search := serp_search e;
  http := http e;
  replicate_run := replicate_run e;
  format := format e;
  finished := fun _ product => if String.eqb product "Chair" then 1 else 0
|}.

(** One source fragment with one product given by its bare year. *)
Definition vitra : value := VDict [("Vitra", VDict [("Chair", VInt 1956)])].

(** A store in which the first two stages have nothing left to do: the
    discovery file and the processed file of the product are there. *)
Definition discovered_and_processed : file_system :=
  [(["data-store"; "vitra.yaml"], Yaml (Parsed vitra));
   (["data-store"; "vitra"; "chair-1956.jpg"], Image "jpg-bytes");
   (["data-store-processed"; "vitra"; "chair-1956.png"], Image "png-bytes")].

(** A store with the source fragment alone. *)
Definition fragment_only : file_system :=
  [(["data-store"; "vitra.yaml"], Yaml (Parsed vitra))].


(** A record whose image is null, as [image:] with nothing after it
    loads; and a store whose fragment lists it beside a product with its
    processed image on disk. *)
Definition lamp : value := VDict [("year", VInt 1960); ("image", VNone)].

Definition chair_and_lamp : file_system :=
  [(["data-store"; "vitra.yaml"],
    Yaml (Parsed (VDict [("Vitra",
                          VDict [("Chair", VInt 1956); ("Lamp", lamp)])])));
   (["data-store-processed"; "vitra"; "chair-1956.png"], Image "png-bytes")].

End Scenario.

(** ** Vocabulary for whole runs *)

Module RunFacts.

(** The mapping a script iterates over after [yaml.safe_load(...) or {}],
    when the document is one. *)
Definition content_of (doc : loaded) : option dict :=
  match doc with
  | Parsed v =>
      match (if truthy v then v else VDict []) with
      | VDict content => Some content
      | _ => None
      end
  | Unparsable => None
  end.

(** The upload tasks of a source document: design house, product,
    value. *)
Definition upload_tasks (doc : loaded) : list (string * string * value) :=
  match content_of doc with
  | Some content =>
      flat_map (fun hp : string * dict =>
                  map (fun pd : string * value => (fst hp, fst pd, snd pd))
                      (snd hp))
               (UploadToIbb.fix_yaml_structure content)
  | None => []
  end.

(** The hosting check hits: the record carries the marker. *)
Definition enriched (details : value) : bool :=
  match UploadToIbb.already_updated (UploadToIbb.unify_details details) with
  | Ok true => true
  | _ => false
  end.

(** The existence checks of the three stages hit in this store. *)
Definition discovery_hits (e : env) (fs : file_system) : bool :=
  forallb (fun t : string * string * value =>
             let '(dh, product, year) := t in
             exists_ (FindImages.save_path e dh product year) fs)
          (FindImages.tasks
             (FindImages.load_products (FindImages.fragments fs))).

Definition removal_hits (fs : file_system) : bool :=
  forallb (fun rel : path =>
             (negb (ProcessPngs.is_image_name (last rel ""))
              || exists_ ("data-store-processed"
                            :: ProcessPngs.dest_relative rel) fs)%bool)
          (ProcessPngs.walk fs).

Definition hosting_hits (fs : file_system) : bool :=
  forallb (fun name =>
             forallb (fun t : string * string * value => enriched (snd t))
                     (upload_tasks
                        (read_yaml [UploadToIbb.DATA_DIR; name] fs)))
          (glob_yaml UploadToIbb.DATA_DIR fs).

(** Where the datatable goes. *)
Definition datatable_path : path :=
  [UploadToIbb.PROCESSED_DIR; "datatable.yaml"].

(** The assignments [datatable[h][p] = v] that merging a mapping
    makes, in order. *)
Definition puts_of (f : dict) : list (string * string * value) :=
  flat_map (fun hv : string * value =>
              match snd hv with
              | VDict ps =>
                  map (fun pd : string * value => (fst hv, fst pd, snd pd)) ps
              | _ => []
              end) f.

Definition puts (doc : loaded) : list (string * string * value) :=
  match content_of doc with
  | Some f => puts_of f
  | None => []
  end.

(** The value the last assignment to [(h, p)] leaves, [acc] when
    there is none. *)
Definition last_put (h p : string) (ts : list (string * string * value))
    (acc : option value) : option value :=
  fold_left (fun a (t : string * string * value) =>
               if (String.eqb h (fst (fst t))
                   && String.eqb p (snd (fst t)))%bool
               then Some (snd t) else a)
            ts acc.

(** The record a document gives a product, the last one it assigns. *)
Definition doc_entry (h p : string) (doc : loaded) : option value :=
  last_put h p (puts doc) None.

(** The design houses a document gives a product map. *)
Definition houses_of (f : dict) : list string :=
  flat_map (fun hv : string * value =>
              match snd hv with
              | VDict _ => [fst hv]
              | _ => []
              end) f.

Definition doc_has_house (h : string) (doc : loaded) : bool :=
  match content_of doc with
  | Some f => existsb (String.eqb h) (houses_of f)
  | None => false
  end.

(** A document the merge accepts: one that does not load is skipped,
    one that loads has to be a mapping. *)
Definition mergeable (doc : loaded) : bool :=
  match doc with
  | Unparsable => true
  | Parsed _ => match content_of doc with Some _ => true | None => false end
  end.

(** The merge of documents that are all accepted. *)
Definition merge_docs (docs : list loaded) (acc : catalog) : catalog :=
  fold_left (fun dt doc =>
               match content_of doc with
               | Some f => fold_left UploadToIbb.merge_house f dt
               | None => dt
               end) docs acc.

(** The later of two optional records. *)
Definition later (acc x : option value) : option value :=
  match x with Some r => Some r | None => acc end.

(** A catalog as Python holds it: a design house once, and a product
    once in a product map. *)
Definition catalog_wf (c : catalog) : bool :=
  (CatalogFacts.unique_keys c
   && forallb (fun hp : string * dict => CatalogFacts.unique_keys (snd hp)) c)%bool.

(** The documents [create_datatable] merges, in directory order. *)
Definition processed_docs (s : file_system) : list loaded :=
  map (fun name => read_yaml [UploadToIbb.PROCESSED_DIR; name] s)
      (glob_yaml UploadToIbb.PROCESSED_DIR s).

(** Two catalogs that hold the same records under the same design
    houses and products, whatever the order of their keys. *)
Definition same_catalog (c1 c2 : catalog) : Prop :=
  (forall h p, CatalogFacts.lookup c1 h p = CatalogFacts.lookup c2 h p)
  /\ (forall h, contains h c1 = contains h c2).

End RunFacts.

(** * Further vocabulary *)

(** ** The shape of a slug *)

Module SlugFacts.

Definition is_dash (c : ascii) : bool := Ascii.eqb c "-".

(** The characters a slug is written with. *)
Definition slug_char (c : ascii) : bool := (is_az09 c || is_dash c)%bool.

Definition starts_with_dash (s : string) : bool :=
  match s with
  | String c _ => is_dash c
  | EmptyString => false
  end.

Fixpoint ends_with_dash (s : string) : bool :=
  match s with
  | EmptyString => false
  | String c EmptyString => is_dash c
  | String _ t => ends_with_dash t
  end.

(** Two dashes side by side. *)
Fixpoint double_dash (s : string) : bool :=
  match s with
  | String c t => ((is_dash c && starts_with_dash t) || double_dash t)%bool
  | EmptyString => false
  end.

(** Words of lowercase letters and digits, one dash between two of
    them and none at either end. *)
Definition is_slug (s : string) : bool :=
  (NameNormalizer.all_chars slug_char s
   && negb (starts_with_dash s)
   && negb (ends_with_dash s)
   && negb (double_dash s))%bool.

Fixpoint any_char (p : ascii -> bool) (s : string) : bool :=
  match s with
  | EmptyString => false
  | String c t => (p c || any_char p t)%bool
  end.

End SlugFacts.

(** ** Vocabulary for the loader of the discovery stage *)

Module LoadFacts.

(** Every design house of the document has a product map. *)
Definition houses_are_maps (doc : loaded) : bool :=
  match RunFacts.content_of doc with
  | Some f => forallb (fun hv : string * value => isinstance_dict (snd hv)) f
  | None => true
  end.

(** The document is a mapping with this top-level key. *)
Definition names_house (h : string) (doc : loaded) : bool :=
  match RunFacts.content_of doc with
  | Some f => contains h f
  | None => false
  end.

End LoadFacts.

(** ** Services that answer, but not with what was asked for *)

Module Outage.

Definition error_page : string := "<html>404 Not Found</html>".

(** Every request is answered with an error page. *)
Definition not_found (method url body : string) (attempt : nat)
  : Http.reply :=
  Scenario.reply_with 404 error_page (Raise JSONDecodeError).

Definition broken_links : env :=
  Scenario.with_services Scenario.all_credentials not_found.

(** The server is overloaded at every attempt. *)
Definition overloaded : env :=
  Scenario.with_services Scenario.all_credentials (Scenario.always 503).

(** The search answers, with an empty list of images. *)
Definition no_image : value := VDict [("images_results", VList [])].

Definition nothing_found : env := {|
  environ := Scenario.all_credentials;
  serp_search := fun _ _ => Ok no_image;
  http := Scenario.working_http;
  replicate_run := fun _ _ => Ok "https://replicate.example/out.png";
  format := Scenario.format_value;
  finished := fun _ _ => 0
|}.

(** The upload answers with a body that has no link in it. *)
Definition no_link_http (method url body : string) (attempt : nat)
  : Http.reply :=
  Scenario.reply_with 200 "" (Ok (VDict [("success", VBool true)])).

Definition no_link : env :=
  Scenario.with_services Scenario.all_credentials no_link_http.

End Outage.

(** ** Vocabulary for the loops of the upload stage *)

Module UploadFacts.

(** The steps of the three loops of the upload stage, by name. *)
Definition pool_step (e : env) (fs : file_system) (design_house : string)
    (acc : result dict * list event) (pd : string * value)
  : result dict * list event :=
  let (updated_products, evs) := acc in
  let (r, evs') :=
    UploadToIbb.upload_entry e fs design_house (fst pd) (snd pd) in
  (updated <- updated_products ;;
   res <- r ;;
   Ok (set (fst pd) (fst res) updated),
   evs ++ evs').

Definition house_step (e : env) (fs : file_system)
    (acc : result catalog * list event) (hp : string * dict)
  : result catalog * list event :=
  let (cur, evs) := acc in
  match cur with
  | Raise x => (Raise x, evs)
  | Ok c =>
      let (r, evs') := UploadToIbb.run_pool e fs (fst hp) (snd hp) in
      (updated <- r ;; Ok (set (fst hp) updated c), evs ++ evs')
  end.

Definition file_step (e : env)
    (acc : result unit * file_system * list event) (name : string)
  : result unit * file_system * list event :=
  let '(r, fs1, evs) := acc in
  match r with
  | Raise x => acc
  | Ok _ =>
      let '(r', fs2, evs') := UploadToIbb.process_yaml_file e fs1 name in
      (r', fs2, evs ++ evs')
  end.

(** The record a task returns for a product, when it returns. *)
Definition task_record (e : env) (fs : file_system)
    (design_house product : string) (details : value) : option value :=
  match fst (UploadToIbb.upload_entry e fs design_house product details) with
  | Ok res => Some (fst res)
  | Raise _ => None
  end.

(** The records the tasks of one design house return, by product. *)
Definition records (e : env) (fs : file_system) (design_house : string)
    (products : dict) : dict :=
  map (fun pd : string * value =>
         (fst pd,
          match task_record e fs design_house (fst pd) (snd pd) with
          | Some v => v
          | None => snd pd
          end))
      products.

(** The design-house keys of a fragment that needs no repair. *)
Definition no_prefixed_key (content : dict) : bool :=
  forallb (fun kv : string * value => negb (startswith "__" (fst kv)))
          content.

(** A fragment whose only product has a null image. *)
Definition null_image : value :=
  VDict [("Vitra", VDict [("Chair", VDict [("year", VInt 1956);
                                           ("image", VNone)])])].

End UploadFacts.

(** ** [4-generate-and-deploy.py]

    The script reads the documents of [data-yaml] and writes one
    TypeScript module for each that is a list; what it writes is
    returned as the list of the files written, in order, each with its
    text. *)

Module GenerateAndDeploy.

Definition INPUT_DIR : string := "data-yaml".
Definition OUTPUT_DIR : string := "ts-data".

(** The line feed, as a one-character string. *)
Definition nl : string := String (ascii_of_nat 10) EmptyString.

(** [glob.glob(os.path.join(INPUT_DIR, "*.yaml"))]: unlike
    [Path.glob], the pattern does not match a name that starts with a
    dot. *)
Definition glob_visible (dir : string) (fs : file_system) : list string :=
  filter (fun name => negb (startswith "." name)) (glob_yaml dir fs).

Definition required : list string := ["id"; "year"; "imageUrl"; "name"].

(** [all(key in item for key in keys)]: the tests run in order and
    stop at the first that fails. *)
Fixpoint all_in (keys : list string) (item : value) : result bool :=
  match keys with
  | [] => Ok true
  | k :: rest =>
      b <- str_in k item ;;
      if b then all_in rest item else Ok false
  end.

(** [item[key]] for a [str] key: only a [dict] can be indexed by
    one. *)
Definition getitem (item : value) (key : string) : result value :=
  match item with
  | VDict d =>
      match get key d with
      | Some v => Ok v
      | None => Raise KeyError
      end
  | _ => Raise TypeError
  end.

(** The lines one item adds to [ts_lines]. *)
Definition item_lines (e : env) (item : value) : result (list string) :=
  ok <- all_in required item ;;
  if negb ok then Ok []
  else
    id <- getitem item "id" ;;
    year <- getitem item "year" ;;
    imageUrl <- getitem item "imageUrl" ;;
    name <- getitem item "name" ;;
    Ok [("  {" ++ nl)%string;
        ("    id: " ++ format e id ++ "," ++ nl)%string;
        ("    year: " ++ format e year ++ "," ++ nl)%string;
        ("    imageUrl: " ++ dquote ++ format e imageUrl ++ dquote
         ++ "," ++ nl)%string;
        ("    name: " ++ dquote ++ format e name ++ dquote ++ nl)%string;
        ("  }," ++ nl)%string].

Definition header (base_name : string) : list string :=
  [("import type { TimelineItem } from " ++ dquote ++ "./types" ++ dquote
    ++ ";" ++ nl ++ nl)%string;
   ("export const " ++ base_name ++ "Data: TimelineItem[] = [" ++ nl)%string].

Definition footer : string := ("];" ++ nl)%string.

Definition ts_lines (e : env) (base_name : string) (data : list value)
  : result (list string) :=
  body <- fold_left
            (fun (acc : result (list string)) (item : value) =>
               ts_lines <- acc ;;
               more <- item_lines e item ;;
               Ok (ts_lines ++ more))
            data (Ok (header base_name)) ;;
  Ok (body ++ [footer]).

(** The body of the loop over the files: the file written, if any.
    Opening the file is outside the [try]; a document that does not
    load, or is not a list, is skipped. *)
Definition generate (e : env) (name : string) (f : option file)
  : result (option (path * string)) :=
  match f with
  | None | Some Unreadable => Raise OSError
  | Some (Image _) | Some (Yaml Unparsable) => Ok None
  | Some (Yaml (Parsed (VList data))) =>
      let base_name := ProcessPngs.splitext_root false name in
      lines <- ts_lines e base_name data ;;
      Ok (Some ([OUTPUT_DIR; (base_name ++ ".ts")%string],
                String.concat "" lines))
  | Some (Yaml (Parsed _)) => Ok None
  end.

Definition file_step (e : env) (fs : file_system)
    (acc : result unit * list (path * string)) (name : string)
  : result unit * list (path * string) :=
  let (r, written) := acc in
  match r with
  | Raise _ => acc
  | Ok _ =>
      match generate e name (World.lookup [INPUT_DIR; name] fs) with
      | Raise x => (Raise x, written)
      | Ok None => (Ok tt, written)
      | Ok (Some out) => (Ok tt, written ++ [out])
      end
  end.

Definition main (e : env) (fs : file_system)
  : result unit * list (path * string) :=
  fold_left (file_step e fs) (glob_visible INPUT_DIR fs) (Ok tt, []).

End GenerateAndDeploy.

(** ** Vocabulary for the generated modules *)

Module GenerateFacts.
Import GenerateAndDeploy.

(** The mapping has the four keys of a timeline item. *)
Definition complete (d : dict) : bool :=
  forallb (fun k => contains k d) required.

Definition field (d : dict) (k : string) : value :=
  match get k d with
  | Some v => v
  | None => VNone
  end.

(** The block of an item: six lines for a complete mapping, nothing
    for another item. *)
Definition block (e : env) (item : value) : list string :=
  match item with
  | VDict d =>
      if complete d then
        [("  {" ++ nl)%string;
         ("    id: " ++ format e (field d "id") ++ "," ++ nl)%string;
         ("    year: " ++ format e (field d "year") ++ "," ++ nl)%string;
         ("    imageUrl: " ++ dquote ++ format e (field d "imageUrl")
          ++ dquote ++ "," ++ nl)%string;
         ("    name: " ++ dquote ++ format e (field d "name") ++ dquote
          ++ nl)%string;
         ("  }," ++ nl)%string]
      else []
  | _ => []
  end.

(** The items that stop the script: a value that is no container, and
    a string or a list in which the four names are found. *)
Definition breaks (item : value) : bool :=
  match item with
  | VDict _ => false
  | VStr s => forallb (fun k => str_contains k s) required
  | VList l =>
      forallb (fun k =>
                 existsb (fun x => match x with
                                   | VStr s => String.eqb s k
                                   | _ => false
                                   end) l)
              required
  | VNone | VBool _ | VInt _ | VFloat _ => true
  end.

(** The document is a list. *)
Definition list_document (f : option file) : option (list value) :=
  match f with
  | Some (Yaml (Parsed (VList data))) => Some data
  | _ => None
  end.

Definition readable (f : option file) : bool :=
  match f with
  | None | Some Unreadable => false
  | _ => true
  end.

(** The module written for a name, when its document is a list. *)
Definition module_of (e : env) (fs : file_system) (name : string)
  : list (path * string) :=
  match list_document (World.lookup [INPUT_DIR; name] fs) with
  | Some data =>
      [([OUTPUT_DIR;
         (ProcessPngs.splitext_root false name ++ ".ts")%string],
        String.concat ""
          (header (ProcessPngs.splitext_root false name)
           ++ flat_map (block e) data ++ [footer]))]
  | None => []
  end.

(** A timeline of two items, the second without its image. *)
Definition timeline : value :=
  VList [VDict [("id", VInt 1); ("year", VInt 1956);
                ("imageUrl", VStr "https://i.ibb.co/abc/chair-1956.png");
                ("name", VStr "Chair")];
         VDict [("id", VInt 2); ("year", VInt 1960); ("name", VStr "Table")]].

End GenerateFacts.

(** ** Vocabulary for what a stage leaves alone *)

Module DirectoryFacts.

(** The path is not below the directory. *)
Definition elsewhere (dir : string) (p : path) : bool :=
  match p with
  | d :: _ => negb (String.eqb d dir)
  | [] => true
  end.

(** The files directly in the directory are the same in both stores:
    the same names in the same order, each with the same content. *)
Definition same_directory (dir : string) (fs fs' : file_system) : Prop :=
  glob_yaml dir fs' = glob_yaml dir fs
  /\ forall n, World.lookup [dir; n] fs' = World.lookup [dir; n] fs.

End DirectoryFacts.
(** * Properties *)

Unset Implicit Arguments.

(** ** Names and slugs *)

Section NameProperties.
Import NameNormalizer.

Lemma lower_char_az09 (c : ascii) : is_az09 (lower_char c) = is_alnum c.
Proof.
  destruct c as [b0 b1 b2 b3 b4 b5 b6 b7].
  destruct b0, b1, b2, b3, b4, b5, b6, b7; reflexivity.
Qed.

Lemma lower_char_alnum (c : ascii) : is_alnum (lower_char c) = is_alnum c.
Proof.
  destruct c as [b0 b1 b2 b3 b4 b5 b6 b7].
  destruct b0, b1, b2, b3, b4, b5, b6, b7; reflexivity.
Qed.

(** Lowercasing keeps the runs where they are. *)
Lemma runs_lower (s : string) :
  runs (lower s)
  = map (fun br : bool * string => (fst br, lower (snd br))) (runs s).
Proof.
  induction s as [|c t IH]; simpl; [reflexivity|].
  rewrite IH, lower_char_alnum.
  destruct (runs t) as [|[b r] rest]; simpl; [reflexivity|].
  destruct (Bool.eqb b (is_alnum c)); reflexivity.
Qed.

Lemma re_sub_runs (s : string) :
  re_sub_not_az09 "-" false (lower s) = dash_runs (runs (lower s))
  /\ re_sub_not_az09 "-" true (lower s)
     = dash_runs (after_run (runs (lower s))).
Proof.
  induction s as [|c t [IHf IHt]]; simpl; [split; reflexivity|].
  rewrite lower_char_az09, lower_char_alnum, IHf, IHt.
  destruct (is_alnum c) eqn:Hc;
    destruct (runs (lower t)) as [|[[] r] rest]; simpl; split; reflexivity.
Qed.

Lemma sanitize_name_runs (s : string) :
  FindImages.sanitize_name s = strip "-" (dash_runs (runs (lower s))).
Proof.
  unfold FindImages.sanitize_name. now rewrite (proj1 (re_sub_runs s)).
Qed.

Lemma dash_runs_tokens (s : string) :
  dash_runs (runs (lower s)) = render (tokens s).
Proof.
  rewrite runs_lower. unfold tokens.
  induction (runs s) as [|[[] r] rest IH]; simpl; congruence.
Qed.

Lemma sanitize_name_tokens (s : string) :
  FindImages.sanitize_name s = strip "-" (render (tokens s)).
Proof. now rewrite sanitize_name_runs, dash_runs_tokens. Qed.

Lemma runs_concat (s : string) : concat_runs (runs s) = s.
Proof.
  induction s as [|c t IH]; simpl; [reflexivity|].
  destruct (runs t) as [|[b r] rest]; simpl in *.
  - now rewrite <- IH.
  - destruct (Bool.eqb b (is_alnum c)); simpl; now rewrite IH.
Qed.

Lemma runs_homogeneous (s : string) :
  forallb (fun br : bool * string =>
             (negb (String.eqb (snd br) "")
              && all_chars (fun c => Bool.eqb (is_alnum c) (fst br)) (snd br))%bool)
          (runs s) = true.
Proof.
  induction s as [|c t IH]; simpl; [reflexivity|].
  destruct (runs t) as [|[b r] rest]; simpl in *.
  - now rewrite Bool.eqb_reflx.
  - destruct (Bool.eqb b (is_alnum c)) eqn:E; simpl.
    + apply Bool.eqb_prop in E. subst b.
      rewrite Bool.eqb_reflx. simpl.
      apply andb_true_iff in IH. destruct IH as [H1 H2].
      apply andb_true_iff in H1. destruct H1 as [_ H1].
      now rewrite H1, H2.
    + now rewrite Bool.eqb_reflx, IH.
Qed.

Lemma runs_alternate (s : string) : alternate (runs s) = true.
Proof.
  induction s as [|c t IH]; simpl; [reflexivity|].
  destruct (runs t) as [|[b r] rest] eqn:E; simpl; [reflexivity|].
  destruct (Bool.eqb b (is_alnum c)) eqn:Eb; simpl.
  - exact IH.
  - destruct b, (is_alnum c); simpl in *; try discriminate; exact IH.
Qed.

Lemma tokens_cons (c : ascii) (t : string) :
  tokens (String c t) = push_token c (tokens t).
Proof.
  unfold tokens. simpl.
  destruct (runs t) as [|[[] r] rest]; simpl;
    destruct (is_alnum c); reflexivity.
Qed.

Lemma same_name_tokens (s1 s2 : string) :
  same_name s1 s2 -> tokens s1 = tokens s2.
Proof.
  induction 1 as [|c1 c2 s1 s2 Ha Hl _ IH|c1 c2 s1 s2 H1 H2 _ IH].
  - reflexivity.
  - rewrite !tokens_cons, IH. unfold push_token.
    rewrite <- Hl.
    replace (is_alnum c2) with (is_alnum c1); [reflexivity|].
    now rewrite <- (lower_char_alnum c1), Hl, lower_char_alnum.
  - rewrite !tokens_cons, IH. unfold push_token.
    now rewrite H1, H2.
Qed.

Lemma same_case_tokens (s1 s2 : string) :
  lower s1 = lower s2 -> tokens s1 = tokens s2.
Proof.
  intros H.
  assert (T : forall s,
             tokens s
             = map (fun br : bool * string =>
                      if fst br then Word (snd br) else Sep)
                   (runs (lower s))).
  { intros s. rewrite runs_lower, map_map. reflexivity. }
  now rewrite !T, H.
Qed.

(** C9.  On every string the slug function of the scripts lowercases,
    replaces each maximal run of non-alphanumeric characters by one
    dash and strips the dashes at both ends; the two scripts that
    define it define the same function; two names that differ only by
    case or by the separator used (character by character, or more
    generally names with the same tokens) get the same slug; and the
    slug of "Jean-Paul Gaultier!!" is "jean-paul-gaultier". *)
Theorem sanitize_name_normalize :
  (forall s, FindImages.sanitize_name s = normalize s)
  /\ (forall s, UploadToIbb.sanitize_name s = FindImages.sanitize_name s)
  /\ (forall s1 s2, same_name s1 s2 ->
        FindImages.sanitize_name s1 = FindImages.sanitize_name s2)
  /\ (forall s1 s2, lower s1 = lower s2 ->
        FindImages.sanitize_name s1 = FindImages.sanitize_name s2)
  /\ (forall s1 s2, tokens s1 = tokens s2 ->
        FindImages.sanitize_name s1 = FindImages.sanitize_name s2)
  /\ FindImages.sanitize_name "Jean-Paul Gaultier!!" = "jean-paul-gaultier".
Proof.
  assert (T : forall s1 s2, tokens s1 = tokens s2 ->
                FindImages.sanitize_name s1 = FindImages.sanitize_name s2).
  { intros s1 s2 H. now rewrite !sanitize_name_tokens, H. }
  repeat split.
  - intros s. apply sanitize_name_runs.
  - intros s1 s2 H. apply T, same_name_tokens, H.
  - intros s1 s2 H. apply T, same_case_tokens, H.
  - exact T.
Qed.

(** "Jean-Paul Gaultier" against "JEAN_PAUL  gaultier": same tokens. *)
Lemma sanitize_name_normalize_witness :
  same_name "Jean Paul" "jEAN_pAUL"
  /\ lower "Vitra" = lower "VITRA"
  /\ tokens "Jean-Paul Gaultier" = tokens "JEAN_PAUL  gaultier"
  /\ FindImages.sanitize_name "Jean Paul" = FindImages.sanitize_name "jEAN_pAUL"
  /\ FindImages.sanitize_name "Vitra" = FindImages.sanitize_name "VITRA"
  /\ FindImages.sanitize_name "Jean-Paul Gaultier"
     = FindImages.sanitize_name "JEAN_PAUL  gaultier".
Proof.
  assert (S : same_name "Jean Paul" "jEAN_pAUL").
  { repeat (first [ apply same_nil
                  | apply same_alnum; [reflexivity | reflexivity |]
                  | apply same_separator; [reflexivity | reflexivity |] ]). }
  destruct sanitize_name_normalize as (_ & _ & H1 & H2 & H3 & _).
  split; [exact S|].
  split; [reflexivity|].
  split; [reflexivity|].
  split; [apply (H1 _ _ S)|].
  split; [apply H2; reflexivity | apply H3; reflexivity].
Defined.

End NameProperties.

(** ** Dictionaries *)

Section DictFacts.
Variable V : Type.
Implicit Types (d : list (string * V)) (k : string) (v : V).

Lemma get_set_eq k v d : get k (set k v d) = Some v.
Proof.
  induction d as [|[k' v'] d IH]; simpl.
  - now rewrite String.eqb_refl.
  - destruct (String.eqb k k') eqn:E; simpl.
    + now rewrite String.eqb_refl.
    + now rewrite E.
Qed.

Lemma get_set_ne k k' v d : k <> k' -> get k' (set k v d) = get k' d.
Proof.
  intros N. induction d as [|[k0 v0] d IH]; simpl.
  - destruct (String.eqb k' k) eqn:E; [|reflexivity].
    apply String.eqb_eq in E. congruence.
  - destruct (String.eqb k k0) eqn:E; simpl.
    + apply String.eqb_eq in E. subst k0.
      destruct (String.eqb k' k) eqn:E'; [|reflexivity].
      apply String.eqb_eq in E'. congruence.
    + now rewrite IH.
Qed.

Lemma get_set k k' v d :
  get k' (set k v d) = if String.eqb k' k then Some v else get k' d.
Proof.
  destruct (String.eqb k' k) eqn:E.
  - apply String.eqb_eq in E. subst. apply get_set_eq.
  - apply get_set_ne. intros ->. now rewrite String.eqb_refl in E.
Qed.

Lemma contains_set k k' v d :
  contains k' (set k v d) = (String.eqb k' k || contains k' d)%bool.
Proof.
  unfold contains. rewrite get_set. now destruct (String.eqb k' k).
Qed.

Lemma get_setdefault_ne k k' v d :
  k <> k' -> get k' (setdefault k v d) = get k' d.
Proof.
  intros N. unfold setdefault.
  destruct (contains k d); [reflexivity|]. now apply get_set_ne.
Qed.

Lemma get_In k d : contains k d = true <-> In k (keys d).
Proof.
  unfold contains. induction d as [|[k' v'] d IH]; simpl.
  - split; [discriminate | tauto].
  - destruct (String.eqb k k') eqn:E.
    + apply String.eqb_eq in E. subst. split; auto.
    + rewrite IH. split; [auto|].
      intros [->|H]; [|exact H]. now rewrite String.eqb_refl in E.
Qed.

(** The keys after an assignment: the same, or one more at the end. *)
Lemma keys_set k v d :
  keys (set k v d) = if contains k d then keys d else keys d ++ [k].
Proof.
  unfold contains. induction d as [|[k' v'] d IH]; simpl; [reflexivity|].
  destruct (String.eqb k k') eqn:E; simpl.
  - apply String.eqb_eq in E. now subst.
  - rewrite IH. now destruct (get k d).
Qed.

Lemma In_keys_set k k' v d :
  In k' (keys (set k v d)) <-> k' = k \/ In k' (keys d).
Proof.
  rewrite <- !get_In, contains_set, orb_true_iff, String.eqb_eq. tauto.
Qed.

End DictFacts.

(** ** Record normalisation *)

Section UnifyProperties.
Import UploadToIbb.

(** What [unify_details] does on each kind of raw value. *)
Lemma unify_details_cases (v : value) :
  match v with
  | VDict _ => unify_details v = v
  | VInt _ | VBool _ | VStr _ => unify_details v = VDict [("year", v)]
  | VNone | VFloat _ | VList _ => unify_details v = VDict [("year", VStr "")]
  end.
Proof. destruct v; reflexivity. Qed.

Lemma unify_details_is_dict (v : value) :
  isinstance_dict (unify_details v) = true.
Proof. destruct v; reflexivity. Qed.

(** C1.  A mapping without a year is a raw product value, and
    [unify_details] returns it as it is: the result has no ['year']
    key. *)
Theorem unify_details_dict_without_year :
  let v := VDict [("image", VStr "https://example.com/chair.png")] in
  unify_details v = v
  /\ get_or (unify_details v) "year" VNone = Ok VNone
  /\ match unify_details v with
     | VDict d => contains "year" d = false
     | _ => False
     end.
Proof. repeat split. Qed.

End UnifyProperties.

(** ** The repair of malformed fragments *)

Section RepairProperties.
Import UploadToIbb RepairFacts.

Example fix_jasper_morrison :
  fix_yaml_structure jasper_morrison
  = [("Jasper Morrison",
      [("Chair One", VInt 1999); ("Glo Ball", VInt 2005)])].
Proof. reflexivity. Qed.

Lemma fix_yaml_structure_app (a b : dict) (st : catalog * option string) :
  fold_left fix_key (a ++ b) st = fold_left fix_key b (fold_left fix_key a st).
Proof. apply fold_left_app. Qed.

(** A design-house key seeds its product map and becomes current. *)
Lemma fix_key_house (nc : catalog) (cur : option string) (h : string)
    (v : value) :
  startswith "__" h = false ->
  fix_key (nc, cur) (h, v) = (set h (seed v) nc, Some h).
Proof. intros H. unfold fix_key. now rewrite H. Qed.

(** A prefixed key goes into the product map of the current house. *)
Lemma fix_key_product (nc : catalog) (h k : string) (v : value) (m : dict) :
  startswith "__" k = true -> get h nc = Some m ->
  fix_key (nc, Some h) (k, v)
  = (set h (set (clean_product k) v m) nc, Some h).
Proof. intros H G. unfold fix_key. now rewrite H, G. Qed.

(** A prefixed key that opens the fragment founds the "unknown" house. *)
Lemma fix_key_unknown (k : string) (v : value) :
  startswith "__" k = true ->
  fix_key ([], None) (k, v)
  = ([("unknown", [(clean_product k, v)])], Some "unknown").
Proof. intros H. unfold fix_key. now rewrite H. Qed.

Lemma fix_products (prods : dict) :
  forall (nc : catalog) (h : string) (m : dict),
    all_prefixed prods = true -> get h nc = Some m ->
    exists nc',
      fold_left fix_key prods (nc, Some h) = (nc', Some h)
      /\ get h nc' = Some (attach prods m).
Proof.
  induction prods as [|[k v] prods IH]; intros nc h m A G;
    cbn [fold_left].
  - exists nc. now split.
  - simpl in A. apply andb_true_iff in A. destruct A as [Hk A].
    rewrite (@fix_key_product nc h k v m Hk G).
    apply IH; [exact A | apply get_set_eq].
Qed.

(** Keys that cannot reach the house [h]: no key of the list is [h],
    and the house current at the start is another one. *)
Lemma fix_keeps_house (h : string) (rest : dict) :
  forall (nc : catalog) (cur : option string),
    contains h rest = false ->
    match cur with Some c => c <> h | None => h <> "unknown" end ->
    get h (fst (fold_left fix_key rest (nc, cur))) = get h nc.
Proof.
  induction rest as [|[k v] rest IH]; intros nc cur C N; cbn [fold_left];
    [reflexivity|].
  unfold contains in C. simpl in C.
  destruct (String.eqb h k) eqn:E; [discriminate|].
  assert (Hk : k <> h) by (intros ->; now rewrite String.eqb_refl in E).
  fold (contains h rest) in C.
  unfold fix_key.
  destruct (startswith "__" k) eqn:P; cbn [negb].
  - destruct cur as [c|].
    + rewrite IH; [|exact C | exact N].
      match goal with
      | |- context [match ?x with Some _ => _ | None => _ end] =>
          destruct x as [m|]
      end; [|reflexivity].
      now apply get_set_ne.
    + rewrite IH; [|exact C | congruence].
      match goal with
      | |- context [match ?x with Some _ => _ | None => _ end] =>
          destruct x as [m|]
      end.
      * rewrite get_set_ne by congruence.
        apply get_setdefault_ne. congruence.
      * apply get_setdefault_ne. congruence.
  - rewrite IH; [now apply get_set_ne | exact C | exact Hk].
Qed.

Lemma fix_after_segment (h : string) (rest : dict) (nc : catalog) :
  opens_house rest = true -> contains h rest = false ->
  get h (fst (fold_left fix_key rest (nc, Some h))) = get h nc.
Proof.
  destruct rest as [|[k v] rest]; intros O C; [reflexivity|].
  simpl in O. apply negb_true_iff in O.
  unfold contains in C. simpl in C.
  destruct (String.eqb h k) eqn:E; [discriminate|].
  assert (Hk : k <> h) by (intros ->; now rewrite String.eqb_refl in E).
  cbn [fold_left]. rewrite (@fix_key_house nc (Some h) k v O).
  rewrite fix_keeps_house; [now apply get_set_ne | exact C | exact Hk].
Qed.

(** The keys of a repaired fragment are design-house keys of the
    fragment, or the sentinel. *)
Lemma fix_keys (content : dict) :
  forall (nc : catalog) (cur : option string) (k : string),
    In k (keys (fst (fold_left fix_key content (nc, cur)))) ->
    In k (keys nc)
    \/ k = "unknown"
    \/ (In k (keys content) /\ startswith "__" k = false).
Proof.
  induction content as [|[k0 v0] content IH]; intros nc cur k H;
    cbn [fold_left] in H; [now left|].
  destruct (fix_key (nc, cur) (k0, v0)) as [nc1 cur1] eqn:F.
  apply IH in H.
  destruct H as [H|[H|[H1 H2]]];
    [|tauto | right; right; split; [right; exact H1 | exact H2]].
  unfold fix_key in F.
  destruct (startswith "__" k0) eqn:P; cbn [negb] in F.
  - destruct cur as [c|].
    + match type of F with
      | context [match ?x with Some _ => _ | None => _ end] =>
          destruct x as [m|] eqn:G
      end; inversion F; subst; [|tauto].
      apply In_keys_set in H. destruct H as [->|H]; [|tauto].
      left. apply get_In. unfold contains. now rewrite G.
    + assert (S : In k (keys (setdefault "unknown" [] nc)) ->
                  In k (keys nc) \/ k = "unknown").
      { unfold setdefault.
        match goal with
        | |- context [if ?b then _ else _] => destruct b
        end; [tauto|].
        intros I. apply In_keys_set in I. tauto. }
      match type of F with
      | context [match ?x with Some _ => _ | None => _ end] =>
          destruct x as [m|]
      end; inversion F; subst.
      * apply In_keys_set in H. destruct H as [->|H]; [now right; left|].
        apply S in H. tauto.
      * apply S in H. tauto.
  - inversion F; subst.
    apply In_keys_set in H. destruct H as [->|H]; [|tauto].
    right. right. split; [now left | exact P].
Qed.

Lemma fix_no_prefixed_key (content : dict) (k : string) :
  In k (keys (fix_yaml_structure content)) -> startswith "__" k = false.
Proof.
  intros H. apply fix_keys in H. simpl in H.
  destruct H as [[]|[->|[_ H]]]; [reflexivity | exact H].
Qed.

(** C2, as the code has it.  In the repaired fragment, a design-house
    key followed by prefixed keys maps to the product map it was seeded
    with (its value when that is a map, the empty map otherwise) to
    which those keys were attached in order, each under its name with
    every leading underscore stripped and the other underscores turned
    into spaces; prefixed keys that open the fragment are attached the
    same way to the "unknown" house; no prefixed key is a key of the
    result; and the Jasper Morrison fragment is repaired as the
    specification says. *)
Theorem fix_yaml_structure_attaches :
  (forall (pre : dict) (h : string) (v : value) (prods rest : dict),
      startswith "__" h = false ->
      all_prefixed prods = true ->
      opens_house rest = true ->
      contains h rest = false ->
      get h (fix_yaml_structure (pre ++ (h, v) :: prods ++ rest))
      = Some (attach prods (seed v)))
  /\ (forall (p : string * value) (prods rest : dict),
        all_prefixed (p :: prods) = true ->
        opens_house rest = true ->
        contains "unknown" rest = false ->
        get "unknown" (fix_yaml_structure (p :: prods ++ rest))
        = Some (attach (p :: prods) []))
  /\ (forall (content : dict) (k : string),
        In k (keys (fix_yaml_structure content)) ->
        startswith "__" k = false)
  /\ fix_yaml_structure jasper_morrison
     = [("Jasper Morrison",
         [("Chair One", VInt 1999); ("Glo Ball", VInt 2005)])].
Proof.
  split; [|split; [|split; [exact fix_no_prefixed_key | reflexivity]]].
  - intros pre h v prods rest Hh A O C.
    unfold fix_yaml_structure.
    rewrite fix_yaml_structure_app. cbn [fold_left].
    destruct (fold_left fix_key pre ([], None)) as [nc cur].
    rewrite (@fix_key_house nc cur h v Hh), fix_yaml_structure_app.
    destruct (@fix_products prods (set h (seed v) nc) h (seed v) A
                (get_set_eq _ h (seed v) nc))
      as (nc' & -> & G).
    now rewrite fix_after_segment.
  - intros [k v] prods rest A O C.
    unfold fix_yaml_structure.
    change (fold_left fix_key ((k, v) :: prods ++ rest) ([], None))
      with (fold_left fix_key (prods ++ rest) (fix_key ([], None) (k, v))).
    simpl in A. apply andb_true_iff in A. destruct A as [Hk A].
    rewrite (fix_key_unknown k v Hk), fix_yaml_structure_app.
    destruct (@fix_products prods
                [("unknown", [(clean_product k, v)])] "unknown"
                [(clean_product k, v)] A eq_refl)
      as (nc' & -> & G).
    now rewrite fix_after_segment.
Qed.

Lemma fix_yaml_structure_attaches_witness :
  get "Jasper Morrison" (fix_yaml_structure jasper_morrison)
  = Some [("Chair One", VInt 1999); ("Glo Ball", VInt 2005)]
  /\ get "unknown"
       (fix_yaml_structure [("__Chair_One", VInt 1999); ("Vitra", VNone)])
     = Some [("Chair One", VInt 1999)]
  /\ startswith "__" "Jasper Morrison" = false.
Proof.
  destruct fix_yaml_structure_attaches as (H1 & H2 & H3 & _).
  split; [|split].
  - apply (H1 [] "Jasper Morrison" VNone
              [("__Chair_One", VInt 1999); ("__Glo_Ball", VInt 2005)] []);
      reflexivity.
  - apply (H2 ("__Chair_One", VInt 1999) [] [("Vitra", VNone)]); reflexivity.
  - apply (H3 jasper_morrison). simpl. now left.
Defined.

(** C2, as the specification words it: stripping the two-character
    prefix leaves the third underscore of ["___Chair_One"], which the
    translation turns into a leading space; the code strips it. *)
Lemma fix_yaml_structure_strips_every_underscore :
  let fragment := [("Jasper Morrison", VNone); ("___Chair_One", VInt 1999)] in
  MalformedRepair.repair fragment
  = [("Jasper Morrison", [(" Chair One", VInt 1999)])]
  /\ fix_yaml_structure fragment
     = [("Jasper Morrison", [("Chair One", VInt 1999)])]
  /\ fix_yaml_structure fragment <> MalformedRepair.repair fragment.
Proof. repeat split. discriminate. Qed.

End RepairProperties.

(** ** Merging fragments into the datatable *)

Section MergeProperties.
Import UploadToIbb CatalogFacts.

Lemma get_update {V : Type} (items d : list (string * V)) (k : string) :
  unique_keys items = true ->
  get k (update items d)
  = match get k items with Some v => Some v | None => get k d end.
Proof.
  unfold update. revert d.
  induction items as [|[k0 v0] items IH]; intros d U; simpl in *;
    [reflexivity|].
  apply andb_true_iff in U. destruct U as [N U].
  apply negb_true_iff in N.
  rewrite (IH _ U), get_set.
  destruct (String.eqb k k0) eqn:E; [|reflexivity].
  apply String.eqb_eq in E. subst k0.
  unfold contains in N. now destruct (get k items).
Qed.

(** The loop over the products of one design house. *)
Lemma put_products (h : string) (ps : list (string * value)) :
  forall (dt : list (string * list (string * value)))
         (cur : list (string * value)),
    get h dt = Some cur ->
    get h (fold_left (put_product h) ps dt) = Some (update ps cur)
    /\ forall h', h' <> h ->
         get h' (fold_left (put_product h) ps dt) = get h' dt.
Proof.
  induction ps as [|[p v] ps IH]; intros dt cur G; cbn [fold_left].
  - split; [exact G | reflexivity].
  - unfold put_product at 2 4. rewrite G. cbn [fst snd].
    destruct (IH (set h (set p v cur) dt) (set p v cur)
                (get_set_eq _ h _ dt)) as [I1 I2].
    split; [exact I1|].
    intros h' N. rewrite (I2 h' N). apply get_set_ne. congruence.
Qed.

(** One design house of a fragment, merged into the datatable. *)
Lemma merge_house_lookup (dt : list (string * list (string * value)))
    (h0 : string) (v0 : value) (h p : string) :
  match v0 with VDict ps => unique_keys ps = true | _ => True end ->
  lookup (merge_house dt (h0, v0)) h p
  = match (if String.eqb h h0
           then match v0 with VDict ps => get p ps | _ => None end
           else None) with
    | Some r => Some r
    | None => lookup dt h p
    end.
Proof.
  intros U. unfold merge_house.
  destruct v0 as [| | | | |l|ps];
    try (now destruct (String.eqb h h0)).
  set (dt1 := if contains h0 dt then dt else set h0 [] dt).
  assert (G1 : exists cur, get h0 dt1 = Some cur
                           /\ forall q, get q cur = lookup dt h0 q).
  { unfold dt1, contains, lookup.
    destruct (get h0 dt) as [cur|] eqn:G.
    - exists cur. now rewrite G.
    - exists []. now rewrite get_set_eq. }
  assert (G2 : forall h', h' <> h0 -> get h' dt1 = get h' dt).
  { intros h' N. unfold dt1.
    destruct (contains h0 dt); [reflexivity|].
    apply get_set_ne. congruence. }
  destruct G1 as (cur & G1 & Gc).
  destruct (put_products h0 ps dt1 cur G1) as [I1 I2].
  unfold lookup at 1.
  destruct (String.eqb h h0) eqn:E.
  - apply String.eqb_eq in E. subst h0.
    rewrite I1, (get_update ps cur p U), Gc.
    now destruct (get p ps).
  - assert (N : h <> h0) by (intros ->; now rewrite String.eqb_refl in E).
    rewrite (I2 h N), (G2 h N). reflexivity.
Qed.

Lemma merge_house_contains (dt : list (string * list (string * value)))
    (h0 : string) (v0 : value) (h : string) :
  contains h (merge_house dt (h0, v0))
  = (contains h dt
     || (String.eqb h h0 && isinstance_dict v0))%bool.
Proof.
  unfold merge_house.
  destruct v0 as [| | | | |l|ps];
    try (now rewrite andb_false_r, orb_false_r).
  set (dt1 := if contains h0 dt then dt else set h0 [] dt).
  assert (C1 : contains h dt1 = (contains h dt || String.eqb h h0)%bool).
  { unfold dt1. destruct (contains h0 dt) eqn:C.
    - destruct (String.eqb h h0) eqn:E; [|now rewrite orb_false_r].
      apply String.eqb_eq in E. subst. now rewrite C.
    - rewrite contains_set. apply orb_comm. }
  assert (G1 : exists cur, get h0 dt1 = Some cur).
  { unfold dt1, contains.
    destruct (get h0 dt) as [cur|] eqn:G.
    - now exists cur.
    - exists []. now rewrite get_set_eq. }
  destruct G1 as (cur & G1).
  destruct (put_products h0 ps dt1 cur G1) as [I1 I2].
  cbn [isinstance_dict]. rewrite andb_true_r, <- C1.
  unfold contains at 1 2.
  destruct (String.eqb h h0) eqn:E.
  - apply String.eqb_eq in E. subst h0. now rewrite I1, G1.
  - assert (N : h <> h0) by (intros ->; now rewrite String.eqb_refl in E).
    now rewrite (I2 h N).
Qed.

(** One fragment merged into the datatable. *)
Lemma merge_content_lookup (f : list (string * value)) :
  forall (dt : list (string * list (string * value))) (h p : string),
    is_fragment f = true ->
    lookup (fold_left merge_house f dt) h p
    = match entry f h p with
      | Some r => Some r
      | None => lookup dt h p
      end.
Proof.
  induction f as [|[h0 v0] f IH]; intros dt h p W; cbn [fold_left];
    [reflexivity|].
  unfold is_fragment in W. simpl in W.
  apply andb_true_iff in W. destruct W as [W1 W2].
  apply andb_true_iff in W1. destruct W1 as [N U].
  apply andb_true_iff in W2. destruct W2 as [U0 W2].
  apply negb_true_iff in N.
  rewrite IH by (unfold is_fragment; now rewrite U, W2).
  rewrite merge_house_lookup
    by (destruct v0; try exact I; exact U0).
  unfold entry. simpl.
  destruct (String.eqb h h0) eqn:E; [|reflexivity].
  apply String.eqb_eq in E. subst h0.
  unfold contains in N. destruct (get h f); [discriminate|].
  destruct v0; reflexivity.
Qed.

Lemma merge_content_contains (f : list (string * value)) :
  forall (dt : list (string * list (string * value))) (h : string),
    unique_keys f = true ->
    contains h (fold_left merge_house f dt)
    = (contains h dt || has_house f h)%bool.
Proof.
  induction f as [|[h0 v0] f IH]; intros dt h U; cbn [fold_left].
  - unfold has_house. simpl. now rewrite orb_false_r.
  - simpl in U. apply andb_true_iff in U. destruct U as [N U].
    apply negb_true_iff in N.
    rewrite (IH _ _ U), merge_house_contains, <- orb_assoc. f_equal.
    unfold has_house. simpl.
    destruct (String.eqb h h0) eqn:E; simpl; [|reflexivity].
    apply String.eqb_eq in E. subst h0.
    unfold contains in N. destruct (get h f); [discriminate|].
    destruct v0; reflexivity.
Qed.

(** Fragments that are mappings never make the merge raise. *)
Lemma merge_fragments_ok (fs : list (list (string * value))) :
  forall acc,
    fold_left merge_fragment (map (fun f => Parsed (VDict f)) fs) (Ok acc)
    = Ok (fold_left (fun dt f => fold_left merge_house f dt) fs acc).
Proof.
  induction fs as [|f fs IH]; intros acc; cbn [fold_left map];
    [reflexivity|].
  rewrite <- IH. f_equal.
  unfold merge_fragment. cbn [bind truthy].
  now destruct f.
Qed.

Lemma merge_all_lookup (fs : list (list (string * value))) :
  forallb is_fragment fs = true ->
  forall acc h p,
    lookup (fold_left (fun dt f => fold_left merge_house f dt) fs acc) h p
    = fold_left (fun a f => match entry f h p with
                            | Some r => Some r
                            | None => a
                            end) fs (lookup acc h p).
Proof.
  induction fs as [|f fs IH]; intros W acc h p; cbn [fold_left];
    [reflexivity|].
  simpl in W. apply andb_true_iff in W. destruct W as [Wf W].
  now rewrite (IH W), (merge_content_lookup f acc h p Wf).
Qed.

Lemma merge_all_contains (fs : list (list (string * value))) :
  forallb is_fragment fs = true ->
  forall acc h,
    contains h (fold_left (fun dt f => fold_left merge_house f dt) fs acc)
    = (contains h acc || existsb (fun f => has_house f h) fs)%bool.
Proof.
  induction fs as [|f fs IH]; intros W acc h; cbn [fold_left existsb].
  - now rewrite orb_false_r.
  - simpl in W. apply andb_true_iff in W. destruct W as [Wf W].
    unfold is_fragment in Wf. apply andb_true_iff in Wf.
    destruct Wf as [U _].
    now rewrite (IH W), (merge_content_contains f acc h U), orb_assoc.
Qed.

(** C8.  Merging fragments that are mappings never raises; the merged
    datatable holds, for each design house and product, the record of
    the last fragment in which the design house is a product map that
    holds the product; a design house is in the datatable exactly when
    some fragment gives it a product map, so a value that is not a map
    is skipped; and with fragment A merged before fragment B the entry
    of Vitra's Eames_Chair is B's. *)
Theorem create_datatable_last_write_wins :
  (forall fs : list (list (string * value)),
      forallb is_fragment fs = true ->
      exists dt,
        merge_fragments (map (fun f => Parsed (VDict f)) fs) = Ok dt
        /\ (forall h p, lookup dt h p = last_entry fs h p)
        /\ (forall h, contains h dt = existsb (fun f => has_house f h) fs))
  /\ (exists dt,
        merge_fragments [Parsed (VDict fragment_A); Parsed (VDict fragment_B)]
        = Ok dt
        /\ lookup dt "Vitra" "Eames_Chair"
           = Some (VDict [("year", VInt 1956);
                          ("image", VStr "https://ibb.co/x")])
        /\ lookup dt "Vitra" "Eames_Chair"
           = entry fragment_B "Vitra" "Eames_Chair").
Proof.
  split.
  - intros fs W. unfold merge_fragments. rewrite merge_fragments_ok.
    eexists. split; [reflexivity|]. split.
    + intros h p. now rewrite (merge_all_lookup fs W).
    + intros h. now rewrite (merge_all_contains fs W).
  - eexists. split; [reflexivity|]. split; reflexivity.
Qed.

Lemma create_datatable_last_write_wins_witness :
  forallb is_fragment [fragment_A; fragment_B] = true
  /\ exists dt,
       merge_fragments [Parsed (VDict fragment_A); Parsed (VDict fragment_B)]
       = Ok dt
       /\ (forall h p, lookup dt h p = last_entry [fragment_A; fragment_B] h p)
       /\ (forall h, contains h dt
                     = existsb (fun f => has_house f h)
                         [fragment_A; fragment_B]).
Proof.
  split; [reflexivity|].
  apply (proj1 create_datatable_last_write_wins [fragment_A; fragment_B]).
  reflexivity.
Defined.

End MergeProperties.

(** ** Loading the catalog in the discovery stage *)

Section LoadProperties.
Import FindImages RepairFacts.

(** C7.  [load_products] merges a fragment as it is read: the prefixed
    product keys of the Jasper Morrison fragment become design houses
    of the loaded catalog, each with an empty product map, and no task
    is made for them; the upload stage repairs the same fragment before
    it uses it. *)
Theorem load_products_keeps_prefixed_keys :
  load_products [Parsed (VDict jasper_morrison)]
  = [("Jasper Morrison", []); ("__Chair_One", []); ("__Glo_Ball", [])]
  /\ contains "__Chair_One" (load_products [Parsed (VDict jasper_morrison)])
     = true
  /\ startswith "__" "__Chair_One" = true
  /\ tasks (load_products [Parsed (VDict jasper_morrison)]) = []
  /\ keys (UploadToIbb.fix_yaml_structure jasper_morrison)
     = ["Jasper Morrison"].
Proof. repeat split. Qed.

End LoadProperties.

(** ** One upload task *)

Section UploadProperties.
Import UploadToIbb.

Lemma unify_details_dict (d : list (string * value)) :
  unify_details (VDict d) = VDict d.
Proof. reflexivity. Qed.

(** C3.  A record whose ['image'] is set and contains "ibb.co" is
    returned as it is, with [changed = False], and nothing is sent:
    whatever the environment, the files and the names. *)
Theorem upload_entry_skips_enriched
    (e : env) (fs : file_system) (design_house product : string)
    (d : list (string * value)) (image : value) :
  get "image" d = Some image ->
  str_in "ibb.co" image = Ok true ->
  upload_entry e fs design_house product (VDict d)
  = (Ok (VDict d, false), []).
Proof.
  intros G M. unfold upload_entry.
  destruct (not_IBB_API_KEY e); [reflexivity|].
  rewrite unify_details_dict. unfold already_updated. now rewrite G, M.
Qed.

Lemma upload_entry_skips_enriched_witness :
  upload_entry Scenario.working Scenario.discovered_and_processed
    "Vitra" "Chair"
    (VDict [("year", VInt 1956); ("image", VStr Scenario.hosted_url)])
  = (Ok (VDict [("year", VInt 1956); ("image", VStr Scenario.hosted_url)],
         false), []).
Proof.
  apply (upload_entry_skips_enriched Scenario.working
           Scenario.discovered_and_processed "Vitra" "Chair"
           [("year", VInt 1956); ("image", VStr Scenario.hosted_url)]
           (VStr Scenario.hosted_url)); reflexivity.
Defined.

(** What makes the [try] block fail. *)
Lemma try_upload_unreadable (e : env) (fs : file_system) (p : path) (x : exn) :
  read_bytes p fs = Raise x -> try_upload e fs p = (Raise x, []).
Proof. intros R. unfold try_upload. now rewrite R. Qed.

Lemma post_is_sent_once (e : env) (image : string) (r : Http.response) :
  http e "POST" upload_url image 0 = Http.Reply r ->
  SESSION_post e image = (Ok r, [HttpSend "POST" upload_url]).
Proof.
  intros H. unfold SESSION_post, Http.send. simpl. now rewrite H.
Qed.

Lemma try_upload_http_error (e : env) (fs : file_system) (p : path)
    (image : string) (r : Http.response) :
  read_bytes p fs = Ok image ->
  http e "POST" upload_url image 0 = Http.Reply r ->
  (400 <= Http.status r < 600)%Z ->
  fst (try_upload e fs p) = Raise (HTTPError (Http.status r)).
Proof.
  intros R H S. unfold try_upload. rewrite R, (post_is_sent_once e image r H).
  cbn [fst bind]. unfold Http.raise_for_status.
  replace ((400 <=? Http.status r)%Z && (Http.status r <? 600)%Z)%bool
    with true; [reflexivity|].
  symmetry. apply andb_true_iff. split; [apply Z.leb_le | apply Z.ltb_lt]; lia.
Qed.

Lemma png_path_unified (e : env) (design_house product : string)
    (details : value) :
  exists p, png_path e design_house product (unify_details details) = Ok p.
Proof. destruct details; eexists; reflexivity. Qed.

(** A task raises only what the membership test of the marker raises. *)
Lemma upload_entry_raises (e : env) (fs : file_system)
    (design_house product : string) (details : value) (x : exn) :
  fst (upload_entry e fs design_house product details) = Raise x ->
  already_updated (unify_details details) = Raise x.
Proof.
  unfold upload_entry.
  destruct (not_IBB_API_KEY e); [discriminate|].
  destruct (already_updated (unify_details details)) as [[]|y];
    [discriminate| |now intros [= ->]].
  destruct (png_path_unified e design_house product details) as [p ->].
  destruct (exists_ p fs); cbn [negb]; [|discriminate].
  destruct (try_upload e fs p) as [[url|y] evs]; discriminate.
Qed.

(** *** The order in which a pool hands over its results *)

Lemma place_In {A : Type} (time : A -> nat) (x y : A) (l : list A) :
  In y (place time x l) <-> y = x \/ In y l.
Proof.
  induction l as [|z l IH]; cbn [place].
  - split; [intros [<-|[]]; now left | intros [->|[]]; now left].
  - destruct (Nat.leb (time x) (time z)).
    + split; [intros [<-|I]; [now left | now right]
             | intros [->|I]; [now left | now right]].
    + cbn [In]. rewrite IH. tauto.
Qed.

Lemma by_completion_In {A : Type} (time : A -> nat) (y : A) (l : list A) :
  In y (by_completion time l) <-> In y l.
Proof.
  induction l as [|x l IH]; cbn [by_completion fold_right]; [tauto|].
  fold (by_completion time l). rewrite place_In, IH. cbn [In].
  split; intros [H|H]; auto.
Qed.

Lemma as_completed_In (e : env) (h : string) (ps : list (string * value))
    (pd : string * value) :
  In pd (as_completed e h ps) <-> In pd ps.
Proof. apply by_completion_In. Qed.

(** A map in which every key stands once holds the same entries
    whatever the order they were put in. *)
Lemma contains_cons {V : Type} (k : string) (x : string * V)
    (l : list (string * V)) :
  contains k (x :: l) = (String.eqb k (fst x) || contains k l)%bool.
Proof.
  destruct x as [k' v]. unfold contains. cbn [get fst].
  now destruct (String.eqb k k').
Qed.

Lemma contains_place {V : Type} (time : string * V -> nat) (x : string * V)
    (k : string) (l : list (string * V)) :
  contains k (place time x l) = (String.eqb k (fst x) || contains k l)%bool.
Proof.
  induction l as [|y l IH]; cbn [place]; [apply contains_cons|].
  destruct (Nat.leb (time x) (time y)); [apply contains_cons|].
  rewrite !contains_cons, IH.
  destruct (String.eqb k (fst x)), (String.eqb k (fst y)); reflexivity.
Qed.

Lemma get_place {V : Type} (time : string * V -> nat) (x : string * V)
    (k : string) (l : list (string * V)) :
  contains (fst x) l = false ->
  get k (place time x l) = get k (x :: l).
Proof.
  induction l as [|y l IH]; intros N; cbn [place]; [reflexivity|].
  destruct (Nat.leb (time x) (time y)); [reflexivity|].
  rewrite contains_cons in N. apply orb_false_iff in N.
  destruct N as [Ny N]. specialize (IH N).
  destruct x as [kx vx], y as [ky vy]. cbn [get fst] in *.
  rewrite IH.
  destruct (String.eqb k ky) eqn:Ey; [|reflexivity].
  apply String.eqb_eq in Ey. subst ky.
  rewrite String.eqb_sym, Ny. reflexivity.
Qed.

Lemma unique_keys_place {V : Type} (time : string * V -> nat)
    (x : string * V) (l : list (string * V)) :
  CatalogFacts.unique_keys (place time x l)
  = (negb (contains (fst x) l) && CatalogFacts.unique_keys l)%bool.
Proof.
  induction l as [|y l IH]; cbn [place].
  - now destruct x.
  - destruct (Nat.leb (time x) (time y)); [now destruct x|].
    destruct x as [kx vx], y as [ky vy].
    cbn [CatalogFacts.unique_keys fst] in *.
    rewrite IH, contains_place, contains_cons. cbn [fst].
    rewrite (String.eqb_sym kx ky).
    destruct (String.eqb ky kx), (contains ky l), (contains kx l),
      (CatalogFacts.unique_keys l); reflexivity.
Qed.

Lemma as_completed_unique (e : env) (h : string)
    (ps : list (string * value)) :
  CatalogFacts.unique_keys (as_completed e h ps)
  = CatalogFacts.unique_keys ps.
Proof.
  unfold as_completed.
  induction ps as [|[k v] ps IH]; cbn [by_completion fold_right];
    [reflexivity|].
  fold (by_completion (fun pd : string * value => finished e h (fst pd)) ps).
  rewrite unique_keys_place, IH. cbn [CatalogFacts.unique_keys fst].
  f_equal. f_equal. clear IH.
  induction ps as [|y ps IH]; cbn [by_completion fold_right];
    [reflexivity|].
  fold (by_completion (fun pd : string * value => finished e h (fst pd)) ps).
  now rewrite contains_place, contains_cons, IH.
Qed.

Lemma as_completed_get (e : env) (h k : string)
    (ps : list (string * value)) :
  CatalogFacts.unique_keys ps = true ->
  get k (as_completed e h ps) = get k ps.
Proof.
  unfold as_completed.
  induction ps as [|[k0 v0] ps IH]; intros U;
    cbn [by_completion fold_right]; [reflexivity|].
  fold (by_completion (fun pd : string * value => finished e h (fst pd)) ps).
  cbn [CatalogFacts.unique_keys] in U. apply andb_true_iff in U.
  destruct U as [N U]. apply negb_true_iff in N.
  rewrite get_place.
  - cbn [get]. now rewrite (IH U).
  - cbn [fst]. rewrite <- N. clear.
    induction ps as [|y ps IH]; cbn [by_completion fold_right];
      [reflexivity|].
    fold (by_completion (fun pd : string * value => finished e h (fst pd))
            ps).
    now rewrite contains_place, contains_cons, IH.
Qed.

(** The three loops of the upload stage, by the names of their steps. *)
Lemma run_pool_fold (e : env) (fs : file_system) (h : string)
    (ps : list (string * value)) :
  run_pool e fs h ps
  = fold_left (UploadFacts.pool_step e fs h) (as_completed e h ps) (Ok [], []).
Proof. reflexivity. Qed.

Lemma upload_houses_fold (e : env) (fs : file_system)
    (content : list (string * list (string * value))) :
  upload_houses e fs content
  = fold_left (UploadFacts.house_step e fs) content (Ok content, []).
Proof. reflexivity. Qed.

Lemma main_fold (e : env) (fs : file_system) :
  main e fs
  = (let '(r, fs', evs) :=
       fold_left (UploadFacts.file_step e) (glob_yaml DATA_DIR fs)
         (Ok tt, fs, []) in
     match r with
     | Raise x => (Raise x, fs', evs)
     | Ok _ => let (r', fs'') := create_datatable fs' in (r', fs'', evs)
     end).
Proof. reflexivity. Qed.

(** Tasks none of which raises give an entry for every product. *)
Lemma pool_ok (e : env) (fs : file_system) (h : string)
    (l : list (string * value)) :
  (forall pd, In pd l ->
     exists b, already_updated (unify_details (snd pd)) = Ok b) ->
  forall (acc : list (string * value)) (evs : list event),
  exists updated,
    fst (fold_left (UploadFacts.pool_step e fs h) l (Ok acc, evs))
    = Ok updated
    /\ (forall k, contains k acc = true -> contains k updated = true)
    /\ (forall pd, In pd l -> contains (fst pd) updated = true).
Proof.
  induction l as [|pd l IH]; intros A acc evs; cbn [fold_left].
  - exists acc. repeat split; [auto | intros pd []].
  - destruct (A pd (or_introl eq_refl)) as [b Hb].
    pose proof (upload_entry_raises e fs h (fst pd) (snd pd)) as N.
    unfold UploadFacts.pool_step at 2.
    destruct (upload_entry e fs h (fst pd) (snd pd)) as [[res|x] evs'];
      cbn [fst] in N; [|specialize (N x eq_refl); congruence].
    cbn [bind].
    destruct (IH (fun q I => A q (or_intror I))
                (set (fst pd) (fst res) acc) (evs ++ evs'))
      as (updated & E & K & P).
    exists updated. split; [exact E|]. split.
    + intros k C. apply K. rewrite contains_set, C. apply orb_true_r.
    + intros q [<-|I]; [|now apply P].
      apply K. rewrite contains_set, String.eqb_refl. reflexivity.
Qed.

(** A pool none of whose tasks raises returns an entry for every
    product. *)
Lemma run_pool_ok (e : env) (fs : file_system) (h : string)
    (ps : list (string * value)) :
  (forall pd, In pd ps ->
     exists b, already_updated (unify_details (snd pd)) = Ok b) ->
  exists updated,
    fst (run_pool e fs h ps) = Ok updated
    /\ forall pd, In pd ps -> contains (fst pd) updated = true.
Proof.
  intros A. rewrite run_pool_fold.
  destruct (pool_ok e fs h (as_completed e h ps)
              (fun pd I => A pd (proj1 (as_completed_In e h ps pd) I))
              [] [])
    as (updated & E & _ & P).
  exists updated. split; [exact E|].
  intros pd I. apply P. exact (proj2 (as_completed_In e h ps pd) I).
Qed.

(** What the handler of a task catches.  Once the key is there and the
    membership test has found the record not enriched yet, a task whose
    processed PNG is absent returns the record unchanged with
    [changed = False] and sends nothing; and whatever is raised in the
    [try] block (reading the file, the request, an HTTP error status,
    the decoding of the answer) is caught: the task returns the record
    unchanged with [changed = False]; and a pool none of whose tasks
    raises returns an entry for every product it was given. *)
Lemma upload_entry_failure_is_noop
    (e : env) (fs : file_system) (design_house product : string)
    (details : value) (p : path) :
  not_IBB_API_KEY e = false ->
  already_updated (unify_details details) = Ok false ->
  png_path e design_house product (unify_details details) = Ok p ->
  (exists_ p fs = false ->
   upload_entry e fs design_house product details
   = (Ok (unify_details details, false), []))
  /\ (forall x, fst (try_upload e fs p) = Raise x ->
        fst (upload_entry e fs design_house product details)
        = Ok (unify_details details, false))
  /\ (forall image r,
        read_bytes p fs = Ok image ->
        http e "POST" upload_url image 0 = Http.Reply r ->
        (400 <= Http.status r < 600)%Z ->
        fst (upload_entry e fs design_house product details)
        = Ok (unify_details details, false))
  /\ (forall products : list (string * value),
        (forall pd, In pd products ->
           exists b, already_updated (unify_details (snd pd)) = Ok b) ->
        exists updated,
          fst (run_pool e fs design_house products) = Ok updated
          /\ forall pd, In pd products ->
               contains (fst pd) updated = true).
Proof.
  intros K A P.
  assert (T : forall x, fst (try_upload e fs p) = Raise x ->
                fst (upload_entry e fs design_house product details)
                = Ok (unify_details details, false)).
  { intros x F. unfold upload_entry. rewrite K, A, P.
    destruct (exists_ p fs); [|reflexivity]. cbn [negb].
    destruct (try_upload e fs p) as [r evs]. cbn [fst] in F. now subst r. }
  split; [|split; [|split]].
  - intros X. unfold upload_entry. now rewrite K, A, P, X.
  - exact T.
  - intros image r R H S.
    apply (T (HTTPError (Http.status r))).
    now apply (try_upload_http_error e fs p image r).
  - intros products. apply run_pool_ok.
Qed.

(** C4, where the code leaves the claim.  The membership test
    ["ibb.co" in details["image"]] stands before the [try] block: on a
    record whose image is null it raises a type error that the task
    does not catch.  In a design house of two products, the chair with
    its processed image on disk and the lamp with a null image, the task
    of the lamp raises; the task of the chair uploads and returns the
    record with its link; the pool raises the error of the lamp,
    whichever of the two tasks finishes first, so the link of the chair
    is lost; and the stage ends with the error, having written neither
    the output fragment nor the datatable. *)
Theorem failure_outside_the_handler_escapes :
  upload_entry Scenario.working Scenario.chair_and_lamp "Vitra" "Lamp"
    Scenario.lamp
  = (Raise TypeError, [])
  /\ upload_entry Scenario.working Scenario.chair_and_lamp "Vitra" "Chair"
       (VInt 1956)
     = (Ok (VDict [("year", VInt 1956); ("image", VStr Scenario.hosted_url)],
            true),
        [HttpSend "POST" upload_url])
  /\ run_pool Scenario.working Scenario.chair_and_lamp "Vitra"
       [("Chair", VInt 1956); ("Lamp", Scenario.lamp)]
     = (Raise TypeError, [HttpSend "POST" upload_url])
  /\ run_pool (Scenario.chair_last Scenario.working) Scenario.chair_and_lamp
       "Vitra" [("Chair", VInt 1956); ("Lamp", Scenario.lamp)]
     = (Raise TypeError, [HttpSend "POST" upload_url])
  /\ main Scenario.working Scenario.chair_and_lamp
     = (Raise TypeError, Scenario.chair_and_lamp,
        [HttpSend "POST" upload_url]).
Proof. repeat split. Qed.

End UploadProperties.

(** ** Retries *)

Section RetryProperties.
Import Http.


Lemma is_retry_no_retries (method : string) (st : Z) :
  is_retry no_retries method st = false.
Proof. unfold is_retry. simpl. apply andb_false_r. Qed.





End RetryProperties.

(** ** Traces of the upload stage *)

Section UploadTraces.
Import UploadToIbb RunFacts.




(** The tasks of a source document, as the two loops meet them. *)
Lemma upload_tasks_In (doc : loaded) (content : list (string * value))
    (hp : string * list (string * value)) (pd : string * value) :
  content_of doc = Some content ->
  In hp (fix_yaml_structure content) -> In pd (snd hp) ->
  In (fst hp, fst pd, snd pd) (upload_tasks doc).
Proof.
  intros C H P. unfold upload_tasks. rewrite C.
  apply in_flat_map. exists hp. split; [exact H|].
  apply in_map_iff. now exists pd.
Qed.


(** Writing an output fragment leaves the source fragments alone. *)
Lemma path_eqb_eq (p q : path) : path_eqb p q = true <-> p = q.
Proof.
  unfold path_eqb. destruct (list_eq_dec string_dec p q); split;
    congruence.
Qed.

Lemma lookup_write (p q : path) (f : file) (fs : file_system) :
  World.lookup q (write p f fs)
  = if path_eqb q p then Some f else World.lookup q fs.
Proof.
  induction fs as [|[p0 f0] fs IH]; simpl.
  - reflexivity.
  - destruct (path_eqb p p0) eqn:E; simpl.
    + apply path_eqb_eq in E. subst p0.
      now destruct (path_eqb q p).
    + rewrite IH. destruct (path_eqb q p0) eqn:E0; [|reflexivity].
      apply path_eqb_eq in E0. subst p0.
      destruct (path_eqb q p) eqn:E1; [|reflexivity].
      apply path_eqb_eq in E1. subst p.
      assert (path_eqb q q = true) by now apply path_eqb_eq.
      congruence.
Qed.

Lemma read_source_after_write (name out : string) (f : file)
    (fs : file_system) :
  read_yaml [DATA_DIR; name] (write [PROCESSED_DIR; out] f fs)
  = read_yaml [DATA_DIR; name] fs.
Proof.
  unfold read_yaml. rewrite lookup_write.
  destruct (path_eqb [DATA_DIR; name] [PROCESSED_DIR; out]) eqn:E;
    [|reflexivity].
  apply path_eqb_eq in E. discriminate.
Qed.

Lemma process_yaml_file_sources (e : env) (fs : file_system)
    (name : string) :
  forall n,
    read_yaml [DATA_DIR; n] (snd (fst (process_yaml_file e fs name)))
    = read_yaml [DATA_DIR; n] fs.
Proof.
  intros n. unfold process_yaml_file.
  destruct (read_yaml [DATA_DIR; name] fs) as [v|]; [|reflexivity].
  destruct (if truthy v then v else VDict []); try reflexivity.
  destruct (upload_houses e fs (fix_yaml_structure d)) as [[c|x] evs];
    cbn [fst snd]; [apply read_source_after_write | reflexivity].
Qed.



End UploadTraces.

(** ** Merging documents into the datatable *)

Section MergeFacts.
Import RunFacts.

(** Writing into the directory of the processed files. *)
Lemma flat_map_write {A : Type} (g : path -> list A) (p : path) (f : file)
    (fs : file_system) :
  flat_map (fun pf : path * file => g (fst pf)) (write p f fs)
  = flat_map (fun pf : path * file => g (fst pf)) fs
    ++ (if is_file p fs then [] else g p).
Proof.
  unfold is_file. induction fs as [|[q h] fs IH]; simpl.
  - now rewrite app_nil_r.
  - destruct (path_eqb p q) eqn:E; simpl.
    + apply path_eqb_eq in E. subst q. now rewrite app_nil_r.
    + rewrite IH, app_assoc. reflexivity.
Qed.

Lemma get_update_last {V : Type} (items : list (string * V)) :
  forall (d : list (string * V)) (k : string),
    get k (update items d)
    = fold_left (fun a (kv : string * V) =>
                   if String.eqb k (fst kv) then Some (snd kv) else a)
                items (get k d).
Proof.
  unfold update.
  induction items as [|[k0 v0] items IH]; intros d k; cbn [fold_left];
    [reflexivity|].
  rewrite IH, get_set. reflexivity.
Qed.

Lemma last_put_app (h p : string) (a b : list (string * string * value))
    (acc : option value) :
  last_put h p (a ++ b) acc = last_put h p b (last_put h p a acc).
Proof. apply fold_left_app. Qed.

Lemma last_put_house (h p h0 : string) (ps : list (string * value))
    (acc : option value) :
  last_put h p (map (fun pd : string * value => (h0, fst pd, snd pd)) ps) acc
  = if String.eqb h h0
    then fold_left (fun a (kv : string * value) =>
                      if String.eqb p (fst kv) then Some (snd kv) else a)
                   ps acc
    else acc.
Proof.
  unfold last_put. revert acc.
  induction ps as [|pd ps IH]; intros acc; cbn [map fold_left fst snd].
  - now destruct (String.eqb h h0).
  - rewrite IH. destruct (String.eqb h h0); reflexivity.
Qed.

Lemma merge_house_last (dt : list (string * list (string * value)))
    (h0 : string) (v0 : value) (h p : string) :
  CatalogFacts.lookup (UploadToIbb.merge_house dt (h0, v0)) h p
  = last_put h p (puts_of [(h0, v0)]) (CatalogFacts.lookup dt h p).
Proof.
  unfold puts_of. cbn [flat_map fst snd]. rewrite app_nil_r.
  unfold UploadToIbb.merge_house.
  destruct v0 as [| | | | |l|ps]; try reflexivity.
  rewrite last_put_house.
  set (dt1 := if contains h0 dt then dt else set h0 [] dt).
  assert (G1 : exists cur, get h0 dt1 = Some cur
                           /\ forall q, get q cur = CatalogFacts.lookup dt h0 q).
  { unfold dt1, contains, CatalogFacts.lookup.
    destruct (get h0 dt) as [cur|] eqn:G.
    - exists cur. now rewrite G.
    - exists []. now rewrite get_set_eq. }
  assert (G2 : forall h', h' <> h0 -> get h' dt1 = get h' dt).
  { intros h' N. unfold dt1.
    destruct (contains h0 dt); [reflexivity|].
    apply get_set_ne. congruence. }
  destruct G1 as (cur & G1 & Gc).
  destruct (put_products h0 ps dt1 cur G1) as [I1 I2].
  unfold CatalogFacts.lookup at 1.
  destruct (String.eqb h h0) eqn:E.
  - apply String.eqb_eq in E. subst h0.
    now rewrite I1, get_update_last, Gc.
  - assert (N : h <> h0) by (intros ->; now rewrite String.eqb_refl in E).
    rewrite (I2 h N), (G2 h N). reflexivity.
Qed.

Lemma merge_content_last (f : list (string * value)) :
  forall (dt : list (string * list (string * value))) (h p : string),
    CatalogFacts.lookup (fold_left UploadToIbb.merge_house f dt) h p
    = last_put h p (puts_of f) (CatalogFacts.lookup dt h p).
Proof.
  induction f as [|[h0 v0] f IH]; intros dt h p; cbn [fold_left];
    [reflexivity|].
  rewrite IH, merge_house_last.
  replace (puts_of ((h0, v0) :: f)) with (puts_of [(h0, v0)] ++ puts_of f)
    by (unfold puts_of; cbn [flat_map]; now rewrite app_nil_r).
  now rewrite last_put_app.
Qed.

Lemma last_put_later (h p : string) (ts : list (string * string * value))
    (acc : option value) :
  last_put h p ts acc = later acc (last_put h p ts None).
Proof.
  unfold last_put. revert acc.
  induction ts as [|t ts IH]; intros acc; cbn [fold_left]; [reflexivity|].
  destruct (String.eqb h (fst (fst t)) && String.eqb p (snd (fst t)))%bool.
  - rewrite (IH (Some (snd t))). unfold later.
    now destruct (fold_left _ ts None).
  - apply IH.
Qed.

Lemma merge_docs_lookup (docs : list loaded) :
  forall (acc : list (string * list (string * value))) (h p : string),
    CatalogFacts.lookup (merge_docs docs acc) h p
    = fold_left later (map (doc_entry h p) docs) (CatalogFacts.lookup acc h p).
Proof.
  unfold merge_docs.
  induction docs as [|doc docs IH]; intros acc h p; cbn [fold_left map];
    [reflexivity|].
  rewrite IH. f_equal. unfold doc_entry, puts.
  destruct (content_of doc) as [f|]; [|reflexivity].
  rewrite merge_content_last. apply last_put_later.
Qed.

Lemma merge_fragment_raise (docs : list loaded) (x : exn) :
  fold_left UploadToIbb.merge_fragment docs (Raise x) = Raise x.
Proof. induction docs as [|doc docs IH]; cbn [fold_left]; auto. Qed.

(** The merge returns exactly when every document is accepted. *)
Lemma merge_fragments_docs (docs : list loaded) :
  forall acc : list (string * list (string * value)),
    (forallb mergeable docs = true ->
     fold_left UploadToIbb.merge_fragment docs (Ok acc)
     = Ok (merge_docs docs acc))
    /\ (forall dt,
          fold_left UploadToIbb.merge_fragment docs (Ok acc) = Ok dt ->
          forallb mergeable docs = true).
Proof.
  unfold merge_docs.
  induction docs as [|doc docs IH]; intros acc; cbn [fold_left forallb].
  - split; [reflexivity | reflexivity].
  - unfold UploadToIbb.merge_fragment at 2 4. cbn [bind].
    unfold mergeable, content_of.
    destruct doc as [v|]; cbn [andb].
    + destruct (if truthy v then v else VDict []);
        try (split; [discriminate | intros dt; rewrite merge_fragment_raise;
                                    discriminate]).
      apply IH.
    + apply IH.
Qed.

Lemma merge_content_houses (f : list (string * value)) :
  forall (dt : list (string * list (string * value))) (h : string),
    contains h (fold_left UploadToIbb.merge_house f dt)
    = (contains h dt || existsb (String.eqb h) (houses_of f))%bool.
Proof.
  induction f as [|[h0 v0] f IH]; intros dt h; cbn [fold_left].
  - cbn. now rewrite orb_false_r.
  - rewrite IH, merge_house_contains, <- orb_assoc. f_equal.
    unfold houses_of. cbn [flat_map fst snd].
    destruct v0; cbn [isinstance_dict app existsb];
      now rewrite ?andb_false_r, ?andb_true_r.
Qed.

Lemma merge_docs_houses (docs : list loaded) :
  forall (acc : list (string * list (string * value))) (h : string),
    contains h (merge_docs docs acc)
    = (contains h acc || existsb (doc_has_house h) docs)%bool.
Proof.
  unfold merge_docs.
  induction docs as [|doc docs IH]; intros acc h; cbn [fold_left existsb].
  - now rewrite orb_false_r.
  - rewrite IH. unfold doc_has_house at 2.
    destruct (content_of doc) as [f|].
    + now rewrite merge_content_houses, orb_assoc.
    + reflexivity.
Qed.

Lemma later_some (l : list (option value)) (r : value) :
  fold_left later l (Some r) <> None.
Proof.
  revert r. induction l as [|[x|] l IH]; intros r; cbn [fold_left later];
    [discriminate | apply IH | apply IH].
Qed.

Lemma later_replaced (T : option value) (l1 l2 : list (option value)) :
  Forall2 (fun a b => b = a \/ b = T) l1 l2 ->
  forall acc1 acc2,
    acc2 = acc1 \/ acc2 = T ->
    fold_left later l1 acc1 = T -> fold_left later l2 acc2 = T.
Proof.
  induction 1 as [|a b l1 l2 R _ IH]; intros acc1 acc2 A E;
    cbn [fold_left] in *.
  - destruct A; congruence.
  - apply (IH (later acc1 a)); [|exact E].
    destruct R as [->| ->]; [destruct a; cbn [later]; auto|].
    destruct T as [t|]; cbn [later]; [now right|].
    destruct a as [r|]; cbn [later] in *; [|exact A].
    now apply later_some in E.
Qed.

Lemma existsb_replaced (T : bool) (l1 l2 : list bool) :
  Forall2 (fun a b => b = a \/ b = T) l1 l2 ->
  existsb (fun b => b) l1 = T -> existsb (fun b => b) l2 = T.
Proof.
  intros F E. destruct T.
  - induction F as [|a b l1 l2 R _ IH]; cbn [existsb] in *;
      [discriminate|].
    destruct R as [->| ->]; [|reflexivity].
    destruct a; [reflexivity | now apply IH].
  - induction F as [|a b l1 l2 R _ IH]; cbn [existsb] in *;
      [reflexivity|].
    apply orb_false_iff in E. destruct E as [Ea E].
    rewrite (IH E). destruct R as [->| ->]; [now rewrite Ea | reflexivity].
Qed.

Lemma unique_keys_set {V : Type} (k : string) (v : V)
    (d : list (string * V)) :
  CatalogFacts.unique_keys d = true ->
  CatalogFacts.unique_keys (set k v d) = true.
Proof.
  induction d as [|[k' v'] d IH]; intros U; cbn [set].
  - reflexivity.
  - cbn [CatalogFacts.unique_keys] in U.
    apply andb_true_iff in U. destruct U as [N U].
    destruct (String.eqb k k') eqn:E; cbn [CatalogFacts.unique_keys].
    + apply String.eqb_eq in E. subst k'. now rewrite N, U.
    + rewrite (IH U), contains_set, String.eqb_sym, E. cbn [orb].
      now rewrite N.
Qed.

Lemma catalog_wf_set (h : string) (v : list (string * value))
    (c : list (string * list (string * value))) :
  catalog_wf c = true -> CatalogFacts.unique_keys v = true ->
  catalog_wf (set h v c) = true.
Proof.
  unfold catalog_wf. intros W U.
  apply andb_true_iff in W. destruct W as [W1 W2].
  rewrite (unique_keys_set h v c W1). cbn [andb].
  clear W1. induction c as [|[h' v'] c IH]; cbn [set forallb snd] in *.
  - now rewrite U.
  - apply andb_true_iff in W2. destruct W2 as [Wa Wb].
    destruct (String.eqb h h'); cbn [forallb snd].
    + now rewrite U, Wb.
    + now rewrite Wa, (IH Wb).
Qed.

Lemma catalog_wf_get (h : string) (cur : list (string * value))
    (c : list (string * list (string * value))) :
  catalog_wf c = true -> get h c = Some cur ->
  CatalogFacts.unique_keys cur = true.
Proof.
  unfold catalog_wf. intros W G.
  apply andb_true_iff in W. destruct W as [_ W].
  induction c as [|[h' v'] c IH]; cbn [get forallb snd] in *;
    [discriminate|].
  apply andb_true_iff in W. destruct W as [Wa Wb].
  destruct (String.eqb h h'); [now inversion G; subst | now apply IH].
Qed.

Lemma merge_house_wf (dt : list (string * list (string * value)))
    (entry : string * value) :
  catalog_wf dt = true ->
  catalog_wf (UploadToIbb.merge_house dt entry) = true.
Proof.
  destruct entry as [h0 v0]. unfold UploadToIbb.merge_house. intros W.
  destruct v0 as [| | | | |l|ps]; try exact W.
  assert (W1 : catalog_wf (if contains h0 dt then dt else set h0 [] dt)
               = true).
  { destruct (contains h0 dt); [exact W|]. now apply catalog_wf_set. }
  revert W1. generalize (if contains h0 dt then dt else set h0 [] dt).
  induction ps as [|pd ps IH]; intros c W1; cbn [fold_left]; [exact W1|].
  apply IH. unfold UploadToIbb.put_product.
  destruct (get h0 c) as [cur|] eqn:G; [|exact W1].
  apply catalog_wf_set; [exact W1|].
  apply unique_keys_set. exact (catalog_wf_get h0 cur c W1 G).
Qed.

Lemma merge_docs_wf (docs : list loaded) :
  forall acc : list (string * list (string * value)),
    catalog_wf acc = true -> catalog_wf (merge_docs docs acc) = true.
Proof.
  unfold merge_docs.
  induction docs as [|doc docs IH]; intros acc W; cbn [fold_left];
    [exact W|].
  apply IH. destruct (content_of doc) as [f|]; [|exact W].
  revert acc W. induction f as [|hv f IHf]; intros acc W; cbn [fold_left];
    [exact W|].
  apply IHf. now apply merge_house_wf.
Qed.

Lemma content_of_catalog (c : list (string * list (string * value))) :
  content_of (Parsed (catalog_value c))
  = Some (map (fun hp : string * list (string * value) =>
                 (fst hp, VDict (snd hp))) c).
Proof. now destruct c. Qed.

Lemma fold_last_unique (p : string) (ps : list (string * value)) :
  CatalogFacts.unique_keys ps = true ->
  forall acc,
    fold_left (fun a (kv : string * value) =>
                 if String.eqb p (fst kv) then Some (snd kv) else a)
              ps acc
    = later acc (get p ps).
Proof.
  induction ps as [|[k v] ps IH]; intros U acc;
    cbn [fold_left get fst snd]; [reflexivity|].
  cbn [CatalogFacts.unique_keys] in U.
  apply andb_true_iff in U. destruct U as [N U].
  rewrite (IH U). destruct (String.eqb p k) eqn:E; [|reflexivity].
  apply String.eqb_eq in E. subst k. apply negb_true_iff in N.
  unfold contains in N. now destruct (get p ps).
Qed.

(** The datatable read back as a fragment gives its own records. *)
Lemma doc_entry_catalog (c : list (string * list (string * value)))
    (h p : string) :
  catalog_wf c = true ->
  doc_entry h p (Parsed (catalog_value c)) = CatalogFacts.lookup c h p.
Proof.
  unfold doc_entry, puts. rewrite content_of_catalog.
  assert (G : forall acc,
             catalog_wf c = true ->
             last_put h p
               (puts_of (map (fun hp : string * list (string * value) =>
                                (fst hp, VDict (snd hp))) c)) acc
             = later acc (CatalogFacts.lookup c h p)).
  { induction c as [|[h0 ps0] c IH]; intros acc W; [reflexivity|].
    unfold catalog_wf in W. cbn [CatalogFacts.unique_keys forallb snd] in W.
    apply andb_true_iff in W. destruct W as [W1 W2].
    apply andb_true_iff in W1. destruct W1 as [N U].
    apply andb_true_iff in W2. destruct W2 as [U0 W2].
    apply negb_true_iff in N.
    unfold puts_of. cbn [map flat_map fst snd].
    fold (puts_of (map (fun hp : string * list (string * value) =>
                          (fst hp, VDict (snd hp))) c)).
    rewrite last_put_app, last_put_house, IH
      by (unfold catalog_wf; now rewrite U, W2).
    unfold CatalogFacts.lookup. cbn [get].
    destruct (String.eqb h h0) eqn:E.
    - apply String.eqb_eq in E. subst h0.
      unfold contains in N. destruct (get h c); [discriminate|].
      cbn [later]. now apply fold_last_unique.
    - reflexivity. }
  intros W. rewrite (G None W). now destruct (CatalogFacts.lookup c h p).
Qed.

Lemma doc_has_house_catalog (c : list (string * list (string * value)))
    (h : string) :
  doc_has_house h (Parsed (catalog_value c)) = contains h c.
Proof.
  unfold doc_has_house. rewrite content_of_catalog.
  unfold contains, houses_of.
  induction c as [|[h0 ps0] c IH]; cbn [map flat_map fst snd app existsb get];
    [reflexivity|].
  rewrite IH. now destruct (String.eqb h h0).
Qed.

Lemma create_datatable_eq (s : file_system) :
  UploadToIbb.create_datatable s
  = match UploadToIbb.merge_fragments (processed_docs s) with
    | Raise x => (Raise x, s)
    | Ok dt =>
        (Ok tt, write datatable_path (Yaml (Parsed (catalog_value dt))) s)
    end.
Proof. reflexivity. Qed.

Lemma glob_write (dir : string) (p : path) (f : file) (s : file_system) :
  glob_yaml dir (write p f s)
  = glob_yaml dir s
    ++ (if is_file p s then []
        else match p with
             | [d; name] =>
                 if (String.eqb d dir && ends_with ".yaml" name)%bool
                 then [name] else []
             | _ => []
             end).
Proof.
  unfold glob_yaml.
  apply (flat_map_write
           (fun q => match q with
                     | [d; name] =>
                         if (String.eqb d dir && ends_with ".yaml" name)%bool
                         then [name] else []
                     | _ => []
                     end)).
Qed.

Lemma Forall2_map_same {A B : Type} (R : B -> B -> Prop) (f g : A -> B)
    (l : list A) :
  (forall a, R (f a) (g a)) -> Forall2 R (map f l) (map g l).
Proof. intros H. induction l; cbn [map]; constructor; auto. Qed.

Lemma Forall2_map {A B : Type} (R : B -> B -> Prop) (S : A -> A -> Prop)
    (f : A -> B) (l1 l2 : list A) :
  (forall a b, S a b -> R (f a) (f b)) ->
  Forall2 S l1 l2 -> Forall2 R (map f l1) (map f l2).
Proof. intros H. induction 1; cbn [map]; constructor; auto. Qed.

Lemma existsb_map_id {A : Type} (f : A -> bool) (l : list A) :
  existsb f l = existsb (fun b => b) (map f l).
Proof. induction l as [|a l IH]; cbn [existsb map]; congruence. Qed.

(** Merging a list in which documents were replaced by the datatable
    merged from the list gives the same catalog again. *)
Lemma merge_docs_replaced (l1 l2 : list loaded) :
  let d1 := merge_docs l1 [] in
  Forall2 (fun a b => b = a \/ b = Parsed (catalog_value d1)) l1 l2 ->
  same_catalog (merge_docs l2 []) d1.
Proof.
  intros d1 F.
  assert (W : catalog_wf d1 = true) by (apply merge_docs_wf; reflexivity).
  split.
  - intros h p. rewrite merge_docs_lookup.
    assert (F' : Forall2 (fun a b => b = a \/ b = CatalogFacts.lookup d1 h p)
                   (map (doc_entry h p) l1) (map (doc_entry h p) l2)).
    { apply (Forall2_map _ (fun a b => b = a \/ b = Parsed (catalog_value d1))
               (doc_entry h p) l1 l2); [|exact F].
      intros a b [->| ->]; [now left | right].
      now apply doc_entry_catalog. }
    apply (later_replaced _ _ _ F' None None); [now left|].
    unfold d1. now rewrite merge_docs_lookup.
  - intros h. rewrite merge_docs_houses. cbn [contains get orb].
    rewrite existsb_map_id.
    assert (F' : Forall2 (fun a b => b = a \/ b = contains h d1)
                   (map (doc_has_house h) l1) (map (doc_has_house h) l2)).
    { apply (Forall2_map _ (fun a b => b = a \/ b = Parsed (catalog_value d1))
               (doc_has_house h) l1 l2); [|exact F].
      intros a b [->| ->]; [now left | right].
      apply doc_has_house_catalog. }
    apply (existsb_replaced _ _ _ F').
    unfold d1. rewrite merge_docs_houses. cbn [contains get orb].
    symmetry. apply existsb_map_id.
Qed.

Lemma mergeable_replaced (d1 : list (string * list (string * value)))
    (l1 l2 : list loaded) :
  Forall2 (fun a b => b = a \/ b = Parsed (catalog_value d1)) l1 l2 ->
  forallb mergeable l1 = true -> forallb mergeable l2 = true.
Proof.
  induction 1 as [|a b l1 l2 R _ IH]; cbn [forallb]; [reflexivity|].
  intros M. apply andb_true_iff in M. destruct M as [Ma M].
  rewrite (IH M), andb_true_r.
  destruct R as [->| ->]; [exact Ma|].
  unfold mergeable. now rewrite content_of_catalog.
Qed.

Lemma merge_docs_app (l1 l2 : list loaded)
    (acc : list (string * list (string * value))) :
  merge_docs (l1 ++ l2) acc = merge_docs l2 (merge_docs l1 acc).
Proof. apply fold_left_app. Qed.

End MergeFacts.

(** ** Running the pipeline again *)

Section RerunProperties.
Import RunFacts.

(** C10, where the code leaves the claim.  From a store that holds the
    source fragment alone, a first run finds, processes and uploads the
    image.  The source fragment is not touched and the link goes to the
    output fragment only; so in the store the run leaves, the discovery
    check and the background-removal check hit and the hosting check,
    which reads the source fragment, does not: the second run, on the
    same input and with the same services, uploads again. *)
Theorem second_run_uploads_again :
  let '(r1, fs1, evs1) :=
    RunAll.run Scenario.working Scenario.fragment_only in
  let '(r2, fs2, evs2) := RunAll.run Scenario.working fs1 in
  r1 = Ok tt /\ r2 = Ok tt
  /\ World.lookup ["data-store"; "vitra.yaml"] fs1
     = Some (Yaml (Parsed Scenario.vitra))
  /\ discovery_hits Scenario.working fs1 = true
  /\ removal_hits fs1 = true
  /\ hosting_hits fs1 = false
  /\ network_calls evs2 = [HttpSend "POST" UploadToIbb.upload_url]
  /\ network_calls evs2 <> [].
Proof. vm_compute. repeat split; discriminate. Qed.

End RerunProperties.

(** * Further properties *)

(** ** The shape of a slug *)

Section SlugProperties.
Import NameNormalizer SlugFacts.

Lemma mem_char_dash (c : ascii) : mem_char c "-" = is_dash c.
Proof. unfold is_dash. cbn [mem_char]. apply orb_false_r. Qed.

Lemma az09_not_dash (c : ascii) : is_az09 c = true -> is_dash c = false.
Proof.
  unfold is_dash. destruct (Ascii.eqb c "-") eqn:E; [|reflexivity].
  apply Ascii.eqb_eq in E. subst c. discriminate.
Qed.

Lemma slug_char_lower (c : ascii) : slug_char c = true -> lower_char c = c.
Proof.
  destruct c as [b0 b1 b2 b3 b4 b5 b6 b7].
  destruct b0, b1, b2, b3, b4, b5, b6, b7; intros H;
    first [reflexivity | discriminate H].
Qed.

(** What the substitution writes, whatever it reads. *)
Lemma re_sub_shape (s : string) :
  forall in_run,
    all_chars slug_char (re_sub_not_az09 "-" in_run s) = true
    /\ double_dash (re_sub_not_az09 "-" in_run s) = false
    /\ (in_run = true ->
        starts_with_dash (re_sub_not_az09 "-" in_run s) = false).
Proof.
  induction s as [|c t IH]; intros in_run; cbn [re_sub_not_az09].
  - repeat split.
  - destruct (is_az09 c) eqn:A.
    + destruct (IH false) as (I1 & I2 & _).
      cbn [all_chars double_dash starts_with_dash].
      unfold slug_char at 1. rewrite A, I1, I2, (az09_not_dash c A).
      repeat split.
    + destruct (IH true) as (I1 & I2 & I3).
      destruct in_run; [repeat split; auto|].
      cbn [append all_chars double_dash starts_with_dash].
      rewrite I1, I2, (I3 eq_refl). repeat split. discriminate.
Qed.

Lemma lstrip_shape (t : string) :
  all_chars slug_char t = true -> double_dash t = false ->
  all_chars slug_char (lstrip "-" t) = true
  /\ double_dash (lstrip "-" t) = false
  /\ starts_with_dash (lstrip "-" t) = false.
Proof.
  induction t as [|c t IH]; intros A D; cbn [lstrip]; [repeat split|].
  cbn [all_chars double_dash] in A, D.
  apply andb_true_iff in A. destruct A as [Ac A].
  apply orb_false_iff in D. destruct D as [Dc D].
  rewrite mem_char_dash. destruct (is_dash c) eqn:E.
  - now apply IH.
  - cbn [all_chars double_dash starts_with_dash].
    rewrite Ac, A, E, D. repeat split.
Qed.

Lemma rstrip_shape (t : string) :
  all_chars slug_char t = true -> double_dash t = false ->
  all_chars slug_char (rstrip "-" t) = true
  /\ double_dash (rstrip "-" t) = false
  /\ ends_with_dash (rstrip "-" t) = false
  /\ (starts_with_dash t = false -> starts_with_dash (rstrip "-" t) = false).
Proof.
  induction t as [|c t IH]; intros A D; cbn [rstrip]; [repeat split|].
  cbn [all_chars double_dash] in A, D.
  apply andb_true_iff in A. destruct A as [Ac A].
  apply orb_false_iff in D. destruct D as [Dc D].
  destruct (IH A D) as (I1 & I2 & I3 & I4).
  rewrite mem_char_dash.
  destruct (rstrip "-" t) as [|c' r] eqn:R.
  - destruct (is_dash c) eqn:E; [repeat split|].
    cbn [all_chars double_dash starts_with_dash ends_with_dash].
    rewrite Ac, E. repeat split.
  - cbn [all_chars double_dash starts_with_dash ends_with_dash] in *.
    rewrite Ac, I2, I3. cbn [andb orb].
    assert (S : (is_dash c && is_dash c')%bool = false).
    { destruct (is_dash c) eqn:E; [|reflexivity]. cbn [andb] in *.
      destruct t as [|c0 t0]; [discriminate R|].
      cbn [starts_with_dash] in Dc. now apply I4. }
    rewrite S. repeat split; auto.
Qed.

Lemma sanitize_name_shape (s : string) :
  is_slug (FindImages.sanitize_name s) = true.
Proof.
  unfold FindImages.sanitize_name, strip, is_slug.
  destruct (re_sub_shape (lower s) false) as (A & D & _).
  destruct (lstrip_shape _ A D) as (A1 & D1 & S1).
  destruct (rstrip_shape _ A1 D1) as (A2 & D2 & E2 & S2).
  now rewrite A2, D2, E2, (S2 S1).
Qed.

Lemma lower_slug (t : string) :
  all_chars slug_char t = true -> lower t = t.
Proof.
  induction t as [|c t IH]; intros A; cbn [lower]; [reflexivity|].
  cbn [all_chars] in A. apply andb_true_iff in A. destruct A as [Ac A].
  now rewrite (slug_char_lower c Ac), (IH A).
Qed.

Lemma re_sub_slug (t : string) :
  all_chars slug_char t = true -> double_dash t = false ->
  re_sub_not_az09 "-" false t = t
  /\ (starts_with_dash t = false -> re_sub_not_az09 "-" true t = t).
Proof.
  induction t as [|c t IH]; intros A D; cbn [re_sub_not_az09];
    [now split|].
  cbn [all_chars double_dash] in A, D.
  apply andb_true_iff in A. destruct A as [Ac A].
  apply orb_false_iff in D. destruct D as [Dc D].
  destruct (IH A D) as [I1 I2].
  destruct (is_az09 c) eqn:Z.
  - rewrite I1. now split.
  - unfold slug_char in Ac. rewrite Z in Ac. cbn [orb] in Ac.
    rewrite Ac in Dc. cbn [andb] in Dc.
    unfold is_dash in Ac. apply Ascii.eqb_eq in Ac. subst c.
    rewrite (I2 Dc). split; [reflexivity|].
    cbn [starts_with_dash]. discriminate.
Qed.

Lemma rstrip_no_dash (t : string) :
  ends_with_dash t = false -> rstrip "-" t = t.
Proof.
  induction t as [|c t IH]; intros E; cbn [rstrip]; [reflexivity|].
  destruct t as [|c' t'].
  - cbn [rstrip ends_with_dash] in *. now rewrite mem_char_dash, E.
  - cbn [ends_with_dash] in E. rewrite (IH E). reflexivity.
Qed.

Lemma sanitize_name_slug (t : string) :
  is_slug t = true -> FindImages.sanitize_name t = t.
Proof.
  unfold is_slug. intros H.
  apply andb_true_iff in H. destruct H as [H D].
  apply andb_true_iff in H. destruct H as [H E].
  apply andb_true_iff in H. destruct H as [A S].
  apply negb_true_iff in D, E, S.
  unfold FindImages.sanitize_name, strip.
  rewrite (lower_slug t A), (proj1 (re_sub_slug t A D)).
  replace (lstrip "-" t) with t.
  - now apply rstrip_no_dash.
  - destruct t as [|c t']; [reflexivity|].
    cbn [lstrip starts_with_dash] in *. now rewrite mem_char_dash, S.
Qed.

(** X1.  Whatever the name, its slug is written with lowercase letters,
    digits and dashes only, has no dash at either end and no two dashes
    side by side. *)
Theorem sanitize_name_is_slug (s : string) :
  is_slug (FindImages.sanitize_name s) = true
  /\ is_slug (UploadToIbb.sanitize_name s) = true.
Proof. split; apply sanitize_name_shape. Qed.

(** X2.  The strings of that shape are exactly the names that are
    their own slug; so taking the slug of a slug changes nothing. *)
Theorem sanitize_name_fixed_points (s : string) :
  (is_slug s = true <-> FindImages.sanitize_name s = s)
  /\ FindImages.sanitize_name (FindImages.sanitize_name s)
     = FindImages.sanitize_name s.
Proof.
  split; [split|].
  - apply sanitize_name_slug.
  - intros E. rewrite <- E. apply sanitize_name_shape.
  - apply sanitize_name_slug, sanitize_name_shape.
Qed.

Lemma re_sub_any (t : string) :
  forall in_run,
    any_char is_az09 (re_sub_not_az09 "-" in_run t) = any_char is_az09 t.
Proof.
  induction t as [|c t IH]; intros in_run;
    cbn [re_sub_not_az09 any_char]; [reflexivity|].
  destruct (is_az09 c) eqn:A.
  - cbn [any_char orb]. now rewrite A.
  - destruct in_run; [apply IH|].
    cbn [append any_char]. rewrite IH. reflexivity.
Qed.

Lemma lstrip_any (t : string) :
  any_char is_az09 (lstrip "-" t) = any_char is_az09 t.
Proof.
  induction t as [|c t IH]; cbn [lstrip any_char]; [reflexivity|].
  rewrite mem_char_dash. destruct (is_dash c) eqn:E; [|reflexivity].
  rewrite IH. destruct (is_az09 c) eqn:Z; [|reflexivity].
  now rewrite (az09_not_dash c Z) in E.
Qed.

Lemma rstrip_any (t : string) :
  any_char is_az09 (rstrip "-" t) = any_char is_az09 t.
Proof.
  induction t as [|c t IH]; cbn [rstrip any_char]; [reflexivity|].
  rewrite <- IH, mem_char_dash.
  destruct (rstrip "-" t) as [|c' r]; [|reflexivity].
  destruct (is_dash c) eqn:E; cbn [any_char]; [|reflexivity].
  destruct (is_az09 c) eqn:Z; [|reflexivity].
  now rewrite (az09_not_dash c Z) in E.
Qed.

Lemma only_dashes_empty (t : string) :
  all_chars slug_char t = true -> any_char is_az09 t = false ->
  starts_with_dash t = false -> t = EmptyString.
Proof.
  destruct t as [|c t]; [reflexivity|].
  cbn [all_chars any_char starts_with_dash]. intros A N S.
  apply andb_true_iff in A. destruct A as [Ac _].
  apply orb_false_iff in N. destruct N as [Nc _].
  unfold slug_char in Ac. rewrite Nc, S in Ac. discriminate.
Qed.

(** X3.  The slug is empty exactly when the lowercased name holds no
    character of [a-z0-9]: what [lower] makes of the name decides, not
    the letters the name is written with. *)
Theorem sanitize_name_empty (s : string) :
  FindImages.sanitize_name s = EmptyString
  <-> any_char is_az09 (lower s) = false.
Proof.
  assert (A : any_char is_az09 (FindImages.sanitize_name s)
              = any_char is_az09 (lower s)).
  { unfold FindImages.sanitize_name, strip.
    now rewrite rstrip_any, lstrip_any, re_sub_any. }
  split.
  - intros E. now rewrite <- A, E.
  - intros N. rewrite <- A in N.
    pose proof (sanitize_name_shape s) as H. unfold is_slug in H.
    apply andb_true_iff in H. destruct H as [H _].
    apply andb_true_iff in H. destruct H as [H _].
    apply andb_true_iff in H. destruct H as [Hc Hs].
    apply negb_true_iff in Hs.
    now apply only_dashes_empty.
Qed.

End SlugProperties.

(** ** The loader of the discovery stage *)

Section LoaderProperties.
Import RunFacts LoadFacts.

Lemma set_same {V : Type} (k : string) (v : V) (d : list (string * V)) :
  get k d = Some v -> set k v d = d.
Proof.
  induction d as [|[k' v'] d IH]; cbn [get set]; [discriminate|].
  destruct (String.eqb k k') eqn:E.
  - apply String.eqb_eq in E. subst k'. now intros [= ->].
  - intros G. now rewrite (IH G).
Qed.

Lemma set_set {V : Type} (k : string) (v v' : V) (d : list (string * V)) :
  set k v (set k v' d) = set k v d.
Proof.
  induction d as [|[k0 v0] d IH]; cbn [set].
  - now rewrite String.eqb_refl.
  - destruct (String.eqb k k0) eqn:E; cbn [set].
    + now rewrite String.eqb_refl.
    + now rewrite E, IH.
Qed.

(** The product-by-product loop of the merge is one [update]. *)
Lemma fold_put_product (h : string) (ps : list (string * value)) :
  forall (dt : list (string * list (string * value)))
         (cur : list (string * value)),
    get h dt = Some cur ->
    fold_left (UploadToIbb.put_product h) ps dt = set h (update ps cur) dt.
Proof.
  induction ps as [|[p v] ps IH]; intros dt cur G; cbn [fold_left].
  - unfold update. cbn [fold_left]. symmetry. now apply set_same.
  - unfold UploadToIbb.put_product at 2. rewrite G. cbn [fst snd].
    rewrite (IH _ (set p v cur) (get_set_eq _ h _ dt)), set_set.
    reflexivity.
Qed.

Lemma load_house_merge_house (dt : list (string * list (string * value)))
    (h : string) (ps : list (string * value)) :
  FindImages.load_house dt (h, VDict ps)
  = UploadToIbb.merge_house dt (h, VDict ps).
Proof.
  unfold FindImages.load_house, UploadToIbb.merge_house.
  set (dt1 := if contains h dt then dt else set h [] dt).
  assert (G : exists cur, get h dt1 = Some cur).
  { unfold dt1, contains. destruct (get h dt) as [cur|] eqn:E.
    - now exists cur.
    - exists []. apply get_set_eq. }
  destruct G as [cur G]. rewrite G. symmetry.
  now apply fold_put_product.
Qed.

Lemma load_content_merge_content (f : list (string * value)) :
  forall dt : list (string * list (string * value)),
    forallb (fun hv : string * value => isinstance_dict (snd hv)) f = true ->
    fold_left FindImages.load_house f dt
    = fold_left UploadToIbb.merge_house f dt.
Proof.
  induction f as [|[h v] f IH]; intros dt A; cbn [fold_left];
    [reflexivity|].
  cbn [forallb snd] in A. apply andb_true_iff in A. destruct A as [Av A].
  destruct v; try discriminate Av.
  rewrite load_house_merge_house. now apply IH.
Qed.

Lemma load_house_contains (dt : list (string * list (string * value)))
    (h : string) (v : value) (k : string) :
  contains k (FindImages.load_house dt (h, v))
  = (contains k dt || String.eqb k h)%bool.
Proof.
  unfold FindImages.load_house.
  set (dt1 := if contains h dt then dt else set h [] dt).
  assert (C1 : contains k dt1 = (contains k dt || String.eqb k h)%bool).
  { unfold dt1. destruct (contains h dt) eqn:C.
    - destruct (String.eqb k h) eqn:E; [|now rewrite orb_false_r].
      apply String.eqb_eq in E. subst. now rewrite C.
    - rewrite contains_set. apply orb_comm. }
  destruct v; try exact C1.
  destruct (get h dt1) as [cur|]; [|exact C1].
  rewrite contains_set, C1.
  destruct (String.eqb k h); [now rewrite orb_true_r | reflexivity].
Qed.

Lemma load_content_contains (f : list (string * value)) :
  forall (dt : list (string * list (string * value))) (k : string),
    contains k (fold_left FindImages.load_house f dt)
    = (contains k dt || contains k f)%bool.
Proof.
  induction f as [|[h v] f IH]; intros dt k; cbn [fold_left].
  - now rewrite orb_false_r.
  - rewrite IH, load_house_contains, <- orb_assoc. f_equal.
    unfold contains. cbn [get].
    now destruct (String.eqb k h).
Qed.

Lemma load_fragment_skips (dt : list (string * list (string * value)))
    (doc : loaded) :
  content_of doc = None -> FindImages.load_fragment dt doc = dt.
Proof.
  unfold content_of, FindImages.load_fragment.
  destruct doc as [v|]; [|reflexivity].
  now destruct (if truthy v then v else VDict []).
Qed.

Lemma load_fragment_content (dt : list (string * list (string * value)))
    (doc : loaded) (f : list (string * value)) :
  content_of doc = Some f ->
  FindImages.load_fragment dt doc = fold_left FindImages.load_house f dt.
Proof.
  unfold content_of, FindImages.load_fragment.
  destruct doc as [v|]; [|discriminate].
  destruct (if truthy v then v else VDict []); try discriminate.
  now intros [= ->].
Qed.

(** X4.  A source fragment that does not parse, or whose document is
    not a mapping, is skipped by the loader of the discovery stage: the
    catalog is the one loaded from the other fragments, wherever the
    bad one stands. *)
Theorem load_products_skips_bad_fragment (before after : list loaded)
    (doc : loaded) :
  content_of doc = None ->
  FindImages.load_products (before ++ doc :: after)
  = FindImages.load_products (before ++ after).
Proof.
  intros B. unfold FindImages.load_products.
  rewrite !fold_left_app. cbn [fold_left].
  now rewrite load_fragment_skips.
Qed.

Lemma load_products_skips_bad_fragment_witness :
  content_of (Parsed (VList [VStr "Vitra"])) = None
  /\ FindImages.load_products
       ([Parsed Scenario.vitra] ++ Parsed (VList [VStr "Vitra"])
          :: [Unparsable])
     = FindImages.load_products ([Parsed Scenario.vitra] ++ [Unparsable]).
Proof.
  split; [reflexivity|].
  apply (load_products_skips_bad_fragment
           [Parsed Scenario.vitra] [Unparsable]
           (Parsed (VList [VStr "Vitra"]))).
  reflexivity.
Defined.

(** X5.  When every document is one the merge of the upload stage
    accepts and gives each of its design houses a product map, that
    merge returns the very catalog the loader of the discovery stage
    builds from the same documents, key order included. *)
Theorem load_products_is_the_merge (docs : list loaded) :
  forallb mergeable docs = true ->
  forallb houses_are_maps docs = true ->
  UploadToIbb.merge_fragments docs = Ok (FindImages.load_products docs).
Proof.
  unfold UploadToIbb.merge_fragments, FindImages.load_products.
  generalize (@nil (string * list (string * value))).
  induction docs as [|doc docs IH]; intros acc M A; cbn [fold_left];
    [reflexivity|].
  cbn [forallb] in M, A.
  apply andb_true_iff in M. destruct M as [Md M].
  apply andb_true_iff in A. destruct A as [Ad A].
  rewrite <- (IH _ M A). f_equal.
  unfold UploadToIbb.merge_fragment, FindImages.load_fragment,
    mergeable, houses_are_maps, content_of in *.
  cbn [bind]. destruct doc as [v|]; [|reflexivity].
  destruct (if truthy v then v else VDict []); try discriminate Md.
  now rewrite load_content_merge_content.
Qed.

Lemma load_products_is_the_merge_witness :
  forallb mergeable [Parsed Scenario.vitra; Unparsable; Parsed VNone] = true
  /\ forallb houses_are_maps
       [Parsed Scenario.vitra; Unparsable; Parsed VNone] = true
  /\ UploadToIbb.merge_fragments
       [Parsed Scenario.vitra; Unparsable; Parsed VNone]
     = Ok (FindImages.load_products
             [Parsed Scenario.vitra; Unparsable; Parsed VNone]).
Proof.
  split; [reflexivity|]. split; [reflexivity|].
  apply (load_products_is_the_merge
           [Parsed Scenario.vitra; Unparsable; Parsed VNone]);
    reflexivity.
Defined.

(** X6.  The loaded catalog has a design house for every top-level key
    of every fragment that is a mapping, whatever the value of the key,
    and for nothing else: a key whose value is not a map gets an empty
    product map, where the merge of the upload stage leaves it out. *)
Theorem load_products_houses (docs : list loaded) (h : string) :
  contains h (FindImages.load_products docs) = existsb (names_house h) docs.
Proof.
  unfold FindImages.load_products.
  assert (G : forall acc : list (string * list (string * value)),
             contains h (fold_left FindImages.load_fragment docs acc)
             = (contains h acc || existsb (names_house h) docs)%bool).
  { induction docs as [|doc docs IH]; intros acc; cbn [fold_left existsb].
    - now rewrite orb_false_r.
    - rewrite IH, orb_assoc. f_equal. unfold names_house.
      destruct (content_of doc) as [f|] eqn:C.
      + rewrite (load_fragment_content acc doc f C).
        apply load_content_contains.
      + rewrite (load_fragment_skips acc doc C). now rewrite orb_false_r. }
  apply G.
Qed.

End LoaderProperties.

(** ** Paths *)

Section PathFacts.
Import NameNormalizer SlugFacts.

Lemma append_assoc3 (a b c : string) :
  ((a ++ b) ++ c = a ++ b ++ c)%string.
Proof. induction a as [|x a IH]; cbn [append]; [reflexivity|]. now rewrite IH. Qed.

Lemma ends_with_app (a suffix : string) :
  ends_with suffix (a ++ suffix) = true.
Proof.
  induction a as [|x a IH]; cbn [append].
  - destruct suffix; cbn [ends_with]; now rewrite String.eqb_refl.
  - cbn [ends_with]. rewrite IH. apply orb_true_r.
Qed.

Lemma any_char_app (p : ascii -> bool) (a b : string) :
  any_char p (a ++ b) = (any_char p a || any_char p b)%bool.
Proof.
  induction a as [|x a IH]; cbn [append any_char]; [reflexivity|].
  now rewrite IH, orb_assoc.
Qed.

Lemma mem_char_app (c : ascii) (a b : string) :
  mem_char c (a ++ b) = (mem_char c a || mem_char c b)%bool.
Proof.
  induction a as [|x a IH]; cbn [append mem_char]; [reflexivity|].
  now rewrite IH, orb_assoc.
Qed.

Lemma ends_with_stem (suffix s : string) :
  ends_with suffix s = true -> exists stem, s = (stem ++ suffix)%string.
Proof.
  induction s as [|c t IH]; cbn [ends_with]; intros E.
  - rewrite orb_false_r in E. apply String.eqb_eq in E.
    exists EmptyString. now subst.
  - apply orb_true_iff in E. destruct E as [E|E].
    + apply String.eqb_eq in E. exists EmptyString. now subst.
    + destruct (IH E) as [stem ->]. now exists (String c stem).
Qed.

(** A name without a slash is one component. *)
Lemma split_slash_plain (s : string) :
  mem_char "/" s = false -> split_slash s = [s].
Proof.
  induction s as [|c t IH]; cbn [mem_char split_slash]; [reflexivity|].
  intros H. apply orb_false_iff in H. destruct H as [Hc Ht].
  rewrite Ascii.eqb_sym, Hc, (IH Ht). reflexivity.
Qed.

Lemma split_slash_cons (s : string) :
  exists w ws, split_slash s = w :: ws.
Proof.
  destruct s as [|c t]; cbn [split_slash]; [now exists EmptyString, []|].
  destruct (Ascii.eqb c "/"); [now eexists; eexists|].
  destruct (split_slash t); now eexists; eexists.
Qed.

Lemma parts_plain (s : string) :
  mem_char "/" s = false ->
  any_char (fun c => negb (Ascii.eqb c ".")) s = true ->
  parts s = [s].
Proof.
  intros H N. unfold parts. rewrite (split_slash_plain s H).
  destruct s as [|c t]; [discriminate N|].
  cbn [filter String.eqb]. cbn [any_char] in N.
  destruct (Ascii.eqb c "."); [|reflexivity].
  cbn [negb orb andb] in *. destruct t; [discriminate N | reflexivity].
Qed.

(** The last component of a name keeps the ending of the name. *)
Lemma split_slash_last (suffix s : string) :
  mem_char "/" suffix = false ->
  ends_with suffix s = true ->
  ends_with suffix (last (split_slash s) "") = true.
Proof.
  intros P. induction s as [|c t IH]; intros H.
  - exact H.
  - cbn [ends_with] in H. apply orb_true_iff in H. destruct H as [H|H].
    + apply String.eqb_eq in H. rewrite H, (split_slash_plain suffix P).
      cbn [last]. destruct suffix; cbn [ends_with];
        now rewrite String.eqb_refl.
    + specialize (IH H). cbn [split_slash].
      destruct (split_slash_cons t) as (w & ws & E). rewrite E in *.
      destruct (Ascii.eqb c "/"); [exact IH|].
      destruct ws as [|w' ws]; [|exact IH].
      cbn [last] in *. cbn [ends_with]. rewrite IH. apply orb_true_r.
Qed.

Lemma last_filter {A : Type} (f : A -> bool) (d : A) (l : list A) :
  l <> [] -> f (last l d) = true ->
  filter f l <> [] /\ last (filter f l) d = last l d.
Proof.
  induction l as [|x l IH]; intros N F; [contradiction|].
  destruct l as [|y l].
  - cbn [last] in F. cbn [filter]. rewrite F. split; [discriminate|reflexivity].
  - assert (N' : y :: l <> []) by discriminate.
    destruct (IH N' F) as [I1 I2].
    change (filter f (x :: y :: l))
      with (if f x then x :: filter f (y :: l) else filter f (y :: l)).
    destruct (f x); [|now split].
    split; [discriminate|].
    destruct (filter f (y :: l)) as [|z r] eqn:E; [contradiction|].
    exact I2.
Qed.

Lemma last_app_right {A : Type} (d : A) (a b : list A) :
  b <> [] -> last (a ++ b) d = last b d.
Proof.
  intros N. induction a as [|x a IH]; [reflexivity|].
  cbn [app]. destruct (a ++ b) as [|y r] eqn:E.
  - destruct a; [contradiction | discriminate E].
  - exact IH.
Qed.

Lemma parts_last (suffix s : string) :
  mem_char "/" suffix = false ->
  ends_with suffix "" = false -> ends_with suffix "." = false ->
  ends_with suffix s = true ->
  parts s <> [] /\ ends_with suffix (last (parts s) "") = true.
Proof.
  intros P N0 N1 H. pose proof (split_slash_last suffix s P H) as L.
  destruct (split_slash_cons s) as (w & ws & E).
  destruct (last_filter
              (fun c => negb (String.eqb c "" || String.eqb c ".")%bool)
              "" (split_slash s)) as [F1 F2].
  - rewrite E. discriminate.
  - destruct (String.eqb (last (split_slash s) "") "") eqn:Q.
    { apply String.eqb_eq in Q. rewrite Q in L. congruence. }
    destruct (String.eqb (last (split_slash s) "") ".") eqn:Q1.
    { apply String.eqb_eq in Q1. rewrite Q1 in L. congruence. }
    reflexivity.
  - unfold parts. split; [exact F1|]. now rewrite F2.
Qed.

Lemma jpg_not_yaml (n : string) :
  ends_with ".jpg" n = true -> ends_with ".yaml" n = false.
Proof.
  induction n as [|c t IH]; intros H; [discriminate H|].
  cbn [ends_with] in *. apply orb_true_iff in H. destruct H as [H|H].
  - apply String.eqb_eq in H. injection H as -> ->. reflexivity.
  - rewrite (IH H), orb_false_r.
    destruct (String.eqb (String c t) ".yaml") eqn:E; [|reflexivity].
    apply String.eqb_eq in E. injection E as -> ->. discriminate H.
Qed.

(** A slug is written without slashes and dots. *)
Lemma slug_char_plain (c : ascii) :
  slug_char c = true -> Ascii.eqb "/" c = false /\ Ascii.eqb c "." = false.
Proof.
  destruct c as [b0 b1 b2 b3 b4 b5 b6 b7].
  destruct b0, b1, b2, b3, b4, b5, b6, b7; intros H;
    first [now split | discriminate H].
Qed.

Lemma slug_no_slash (t : string) :
  all_chars slug_char t = true -> mem_char "/" t = false.
Proof.
  induction t as [|c t IH]; intros A; [reflexivity|].
  cbn [all_chars mem_char] in *. apply andb_true_iff in A.
  destruct A as [Ac A].
  now rewrite (proj1 (slug_char_plain c Ac)), (IH A).
Qed.

Lemma slug_parts (t : string) :
  all_chars slug_char t = true ->
  parts t = match t with EmptyString => [] | _ => [t] end.
Proof.
  intros A. destruct t as [|c t]; [reflexivity|].
  apply parts_plain; [now apply slug_no_slash|].
  cbn [all_chars any_char] in *. apply andb_true_iff in A.
  destruct A as [Ac _]. now rewrite (proj2 (slug_char_plain c Ac)).
Qed.

Lemma sanitize_name_chars (s : string) :
  all_chars slug_char (FindImages.sanitize_name s) = true.
Proof.
  pose proof (sanitize_name_shape s) as H. unfold is_slug in H.
  apply andb_true_iff in H. destruct H as [H _].
  apply andb_true_iff in H. destruct H as [H _].
  apply andb_true_iff in H. now destruct H as [H _].
Qed.

(** The directory of a design house, and the name of an image in it. *)
Lemma save_dir_slug (dh : string) :
  FindImages.save_dir dh
  = "data-store" :: match FindImages.sanitize_name dh with
                    | EmptyString => []
                    | slug => [slug]
                    end.
Proof.
  unfold FindImages.save_dir, joinpath.
  rewrite (slug_parts _ (sanitize_name_chars dh)).
  now destruct (FindImages.sanitize_name dh).
Qed.

Lemma image_name_plain (slug year ext : string) :
  all_chars slug_char slug = true ->
  mem_char "/" year = false -> mem_char "/" ext = false ->
  parts (slug ++ "-" ++ year ++ ext) = [(slug ++ "-" ++ year ++ ext)%string].
Proof.
  intros A Y X. apply parts_plain.
  - rewrite mem_char_app, (mem_char_app _ "-"), mem_char_app.
    now rewrite (slug_no_slash slug A), Y, X.
  - rewrite any_char_app, (any_char_app _ "-"). cbn [any_char].
    apply orb_true_r.
Qed.

Lemma save_path_plain (e : env) (dh product : string) (year : value) :
  mem_char "/" (format e year) = false ->
  FindImages.save_path e dh product year
  = FindImages.save_dir dh
    ++ [(FindImages.sanitize_name product ++ "-" ++ format e year
         ++ ".jpg")%string].
Proof.
  intros Y. unfold FindImages.save_path, joinpath.
  now rewrite (image_name_plain _ _ ".jpg" (sanitize_name_chars product) Y
                 eq_refl).
Qed.

Lemma save_path_last (e : env) (dh product : string) (year : value) :
  ends_with ".jpg" (last (FindImages.save_path e dh product year) "") = true.
Proof.
  unfold FindImages.save_path, joinpath.
  destruct (parts_last ".jpg"
              (FindImages.sanitize_name product ++ "-" ++ format e year
               ++ ".jpg") eq_refl eq_refl eq_refl) as [N L].
  - rewrite <- (append_assoc3 "-"), <- append_assoc3. apply ends_with_app.
  - now rewrite (last_app_right "" _ _ N).
Qed.

Lemma save_path_not_yaml (e : env) (dh product : string) (year : value)
    (dir : string) :
  match FindImages.save_path e dh product year with
  | [d; name] => (String.eqb d dir && ends_with ".yaml" name)%bool = false
  | _ => True
  end.
Proof.
  pose proof (save_path_last e dh product year) as L.
  destruct (FindImages.save_path e dh product year)
    as [|d [|name [|x rest]]]; try exact I.
  cbn [last] in L. rewrite (jpg_not_yaml name L). apply andb_false_r.
Qed.

End PathFacts.

(** ** Files are added, never replaced *)

Section StoreProperties.

Lemma exists_false (p : path) (fs : file_system) :
  exists_ p fs = false -> World.lookup p fs = None /\ is_dir p fs = false.
Proof.
  unfold exists_, is_file. destruct (World.lookup p fs); cbn [orb];
    [discriminate | now split].
Qed.

Lemma is_file_exists (p : path) (fs : file_system) :
  is_file p fs = true -> exists_ p fs = true.
Proof. unfold exists_. now intros ->. Qed.

Lemma lookup_write_fresh (p q : path) (f g : file) (fs : file_system) :
  exists_ p fs = false ->
  World.lookup q fs = Some g ->
  World.lookup q (write p f fs) = Some g.
Proof.
  intros E L. rewrite lookup_write.
  destruct (path_eqb q p) eqn:Q; [|exact L].
  apply path_eqb_eq in Q. subst q.
  destruct (exists_false p fs E) as [N _]. congruence.
Qed.

(** A loop each step of which leaves the files alone or writes one
    that was not there: the files it starts with stay as they are, and
    a file it leaves behind was written by one of its steps. *)
Lemma fold_only_adds {A S : Type} (step : S -> A -> S)
    (files : S -> file_system) (target : A -> path) (wrote : A -> Prop) :
  (forall s a,
      files (step s a) = files s
      \/ (wrote a /\ exists_ (target a) (files s) = false
          /\ exists f, files (step s a) = write (target a) f (files s))) ->
  forall l s,
    (forall p f, World.lookup p (files s) = Some f ->
                 World.lookup p (files (fold_left step l s)) = Some f)
    /\ (forall p, World.lookup p (files s) = None ->
                  World.lookup p (files (fold_left step l s)) <> None ->
                  exists a, In a l /\ wrote a /\ p = target a).
Proof.
  intros H. induction l as [|a l IH]; intros s; cbn [fold_left].
  - split; [auto|]. intros p N M. now rewrite N in M.
  - destruct (IH (step s a)) as [K W]. split.
    + intros p f L. apply K.
      destruct (H s a) as [->|(_ & E & g & ->)]; [exact L|].
      now apply lookup_write_fresh.
    + intros p N M.
      destruct (World.lookup p (files (step s a))) eqn:L.
      * destruct (H s a) as [Q|(Wa & E & g & Q)]; rewrite Q in L;
          [congruence|].
        rewrite lookup_write in L.
        destruct (path_eqb p (target a)) eqn:P; [|congruence].
        apply path_eqb_eq in P. exists a. split; [now left | now split].
      * destruct (W p L M) as (a' & I & Wa & P).
        exists a'. split; [now right | now split].
Qed.

Lemma fold_keeps_glob {A S : Type} (step : S -> A -> S)
    (files : S -> file_system) (target : A -> path) (dir : string) :
  (forall s a,
      files (step s a) = files s
      \/ exists f, files (step s a) = write (target a) f (files s)) ->
  (forall a, match target a with
             | [d; name] =>
                 (String.eqb d dir && ends_with ".yaml" name)%bool = false
             | _ => True
             end) ->
  forall l s,
    glob_yaml dir (files (fold_left step l s)) = glob_yaml dir (files s).
Proof.
  intros H T. induction l as [|a l IH]; intros s; cbn [fold_left];
    [reflexivity|].
  rewrite IH. destruct (H s a) as [->|(f & ->)]; [reflexivity|].
  rewrite glob_write. specialize (T a).
  destruct (is_file (target a) (files s)); [apply app_nil_r|].
  destruct (target a) as [|d [|name [|x rest]]]; try apply app_nil_r.
  rewrite T. apply app_nil_r.
Qed.

Lemma download_image_cases (e : env) (fs : file_system)
    (dh product : string) (year : value) :
  fst (FindImages.download_image e fs dh product year) = fs
  \/ (exists_ (FindImages.save_path e dh product year) fs = false
      /\ exists f,
           fst (FindImages.download_image e fs dh product year)
           = write (FindImages.save_path e dh product year) f fs).
Proof.
  unfold FindImages.download_image.
  destruct (exists_ (FindImages.save_path e dh product year) fs) eqn:E;
    [now left|].
  destruct (FindImages.find_image e dh product) as [[[b|]|x] evs];
    cbn [fst]; [|now left | now left].
  unfold FindImages.write_bytes.
  destruct (path_eqb _ _ || is_dir _ fs)%bool; cbn [fst]; [right | now left].
  split; [reflexivity|]. now exists (Image b).
Qed.

Lemma run_task_cases (e : env) (st : file_system * list event)
    (t : string * string * value) :
  fst (FindImages.run_task e st t) = fst st
  \/ (True
      /\ exists_ (FindImages.save_path e (fst (fst t)) (snd (fst t)) (snd t))
           (fst st) = false
      /\ exists f,
           fst (FindImages.run_task e st t)
           = write (FindImages.save_path e (fst (fst t)) (snd (fst t))
                      (snd t)) f (fst st)).
Proof.
  destruct t as [[dh product] year]. unfold FindImages.run_task.
  cbn [fst snd].
  pose proof (download_image_cases e (fst st) dh product year) as C.
  destruct (FindImages.download_image e (fst st) dh product year)
    as [fs' evs]. cbn [fst] in *.
  destruct C as [C|(E & f & C)]; [now left|].
  right. split; [exact I|]. split; [exact E|]. now exists f.
Qed.

(** X7.  The discovery stage only adds files: every file of the store
    is still there, unchanged, when the stage ends; a file that was not
    there before is at the save path of one of the tasks; and the
    source fragments a later run will find are the same. *)
Theorem find_images_only_adds (e : env) (fs : file_system) :
  (forall p f,
      World.lookup p fs = Some f ->
      World.lookup p (fst (FindImages.main e fs)) = Some f)
  /\ (forall p,
        World.lookup p fs = None ->
        World.lookup p (fst (FindImages.main e fs)) <> None ->
        exists dh product year,
          In (dh, product, year)
             (FindImages.tasks
                (FindImages.load_products (FindImages.fragments fs)))
          /\ p = FindImages.save_path e dh product year)
  /\ glob_yaml FindImages.DATA_DIR (fst (FindImages.main e fs))
     = glob_yaml FindImages.DATA_DIR fs.
Proof.
  unfold FindImages.main.
  set (ts := FindImages.tasks
               (FindImages.load_products (FindImages.fragments fs))).
  destruct (fold_only_adds (FindImages.run_task e) fst
              (fun t : string * string * value =>
                 FindImages.save_path e (fst (fst t)) (snd (fst t)) (snd t))
              (fun _ => True) (run_task_cases e) ts (fs, []))
    as [K W].
  split; [exact K|]. split.
  - intros p N M. destruct (W p N M) as ([[dh product] year] & I & _ & P).
    now exists dh, product, year.
  - apply (fold_keeps_glob (FindImages.run_task e) fst
             (fun t : string * string * value =>
                FindImages.save_path e (fst (fst t)) (snd (fst t)) (snd t))
             FindImages.DATA_DIR).
    + intros s a. destruct (run_task_cases e s a) as [C|(_ & _ & f & C)];
        [now left | right; now exists f].
    + intros a. apply save_path_not_yaml.
Qed.

Lemma parent_save_path (e : env) (dh product : string) (year : value) :
  mem_char "/" (format e year) = false ->
  parent (FindImages.save_path e dh product year) = FindImages.save_dir dh.
Proof.
  intros Y. rewrite (save_path_plain e dh product year Y).
  unfold parent. apply removelast_last.
Qed.

(** The [try] block of a task, when the search gives a link and the
    first answer of the image server carries a status the session does
    not retry. *)
Lemma find_image_answer (e : env) (dh product : string) (res : value)
    (url : string) (r : Http.response) :
  serp_search e (FindImages.query dh product) (getenv e "SERP_API_KEY")
  = Ok res ->
  FindImages.first_original res = Ok (VStr url) ->
  url <> EmptyString ->
  http e "GET" url "" 0 = Http.Reply r ->
  Http.transient (Http.Reply r) = false ->
  FindImages.find_image e dh product
  = (Ok (Some (Http.content r)),
     [Search (FindImages.query dh product); HttpSend "GET" url]).
Proof.
  intros S F U H T. unfold FindImages.find_image.
  rewrite S. cbn [bind]. rewrite F. cbn [truthy].
  destruct (String.eqb url "") eqn:Q;
    [apply String.eqb_eq in Q; contradiction|].
  cbn [negb]. unfold FindImages.SESSION_get, Http.send.
  cbn [Http.total FindImages.retry_strategy Http.urlopen].
  rewrite H.
  assert (R : Http.is_retry FindImages.retry_strategy "GET" (Http.status r)
              = false) by exact T.
  now rewrite R.
Qed.

(** X8.  The discovery stage saves whatever the image server answers:
    for a product whose year is written without a slash, so that the
    image goes in the directory of the design house, when the search
    gives a link and the first answer of the server carries a status
    the session does not retry, be it an error status, the body of that
    answer is written as the image, after one search and one
    request. *)
Theorem download_image_saves_any_answer (e : env) (fs : file_system)
    (dh product : string) (year res : value) (url : string)
    (r : Http.response) :
  exists_ (FindImages.save_path e dh product year) fs = false ->
  mem_char "/" (format e year) = false ->
  serp_search e (FindImages.query dh product) (getenv e "SERP_API_KEY")
  = Ok res ->
  FindImages.first_original res = Ok (VStr url) ->
  url <> EmptyString ->
  http e "GET" url "" 0 = Http.Reply r ->
  Http.transient (Http.Reply r) = false ->
  FindImages.download_image e fs dh product year
  = (write (FindImages.save_path e dh product year)
       (Image (Http.content r)) fs,
     [Search (FindImages.query dh product); HttpSend "GET" url]).
Proof.
  intros E Y S F U H T.
  unfold FindImages.download_image, FindImages.write_bytes.
  rewrite E, (find_image_answer e dh product res url r S F U H T).
  rewrite (parent_save_path e dh product year Y).
  assert (P : path_eqb (FindImages.save_dir dh) (FindImages.save_dir dh)
              = true) by now apply path_eqb_eq.
  now rewrite P.
Qed.

Lemma download_image_saves_any_answer_witness :
  Http.transient (Outage.not_found "GET" "https://img.example/chair.jpg" "" 0)
  = false
  /\ FindImages.download_image Outage.broken_links Scenario.fragment_only
       "Vitra" "Chair" (VInt 1956)
     = (write ["data-store"; "vitra"; "chair-1956.jpg"]
          (Image Outage.error_page) Scenario.fragment_only,
        [Search (FindImages.query "Vitra" "Chair");
         HttpSend "GET" "https://img.example/chair.jpg"]).
Proof.
  split; [reflexivity|].
  apply (download_image_saves_any_answer Outage.broken_links
           Scenario.fragment_only "Vitra" "Chair" (VInt 1956)
           Scenario.found_image "https://img.example/chair.jpg"
           {| Http.status := 404; Http.content := Outage.error_page;
              Http.json := Raise JSONDecodeError |});
    try reflexivity.
  discriminate.
Defined.

(** X25.  A file that cannot be written is not saved: when the name of
    the image leads into a directory that is not there, as it does for
    a year written with a slash (and without [..], which would lead
    back out of it), the search and the download are made, the error
    of the writing is caught with the others, and the store is left as
    it was; the check of the next run misses again. *)
Theorem download_image_needs_the_directory (e : env) (fs : file_system)
    (dh product : string) (year res : value) (url : string)
    (r : Http.response) :
  exists_ (FindImages.save_path e dh product year) fs = false ->
  existsb (String.eqb "..") (FindImages.save_path e dh product year)
  = false ->
  parent (FindImages.save_path e dh product year) <> FindImages.save_dir dh ->
  is_dir (parent (FindImages.save_path e dh product year)) fs = false ->
  serp_search e (FindImages.query dh product) (getenv e "SERP_API_KEY")
  = Ok res ->
  FindImages.first_original res = Ok (VStr url) ->
  url <> EmptyString ->
  http e "GET" url "" 0 = Http.Reply r ->
  Http.transient (Http.Reply r) = false ->
  FindImages.download_image e fs dh product year
  = (fs, [Search (FindImages.query dh product); HttpSend "GET" url])
  /\ FindImages.download_image e
       (fst (FindImages.download_image e fs dh product year)) dh product year
     = (fs, [Search (FindImages.query dh product); HttpSend "GET" url]).
Proof.
  intros E _ N D S F U H T.
  assert (G : FindImages.download_image e fs dh product year
              = (fs, [Search (FindImages.query dh product);
                      HttpSend "GET" url])).
  { unfold FindImages.download_image, FindImages.write_bytes.
    rewrite E, (find_image_answer e dh product res url r S F U H T), D.
    destruct (path_eqb _ _) eqn:P; [|reflexivity].
    apply path_eqb_eq in P. contradiction. }
  split; [exact G|]. rewrite G. exact G.
Qed.

Lemma download_image_needs_the_directory_witness :
  FindImages.save_path Scenario.working "Vitra" "Chair" (VStr "1956/57")
  = ["data-store"; "vitra"; "chair-1956"; "57.jpg"]
  /\ FindImages.download_image Scenario.working Scenario.fragment_only
       "Vitra" "Chair" (VStr "1956/57")
     = (Scenario.fragment_only,
        [Search (FindImages.query "Vitra" "Chair");
         HttpSend "GET" "https://img.example/chair.jpg"]).
Proof.
  split; [reflexivity|].
  apply (proj1 (download_image_needs_the_directory Scenario.working
                  Scenario.fragment_only "Vitra" "Chair" (VStr "1956/57")
                  Scenario.found_image "https://img.example/chair.jpg"
                  {| Http.status := 200; Http.content := "image-bytes";
                     Http.json := Raise JSONDecodeError |}
                  eq_refl eq_refl ltac:(discriminate) eq_refl eq_refl
                  eq_refl ltac:(discriminate) eq_refl eq_refl)).
Defined.

(** X9.  Unless the search answers with a non-empty link as the
    [original] of its first image, the task requests nothing and writes
    nothing: an answer without images, an empty list of images (the
    index error is caught), a first image without link, and a failing
    search all leave the store as it is after the one search. *)
Theorem download_image_without_link (e : env) (fs : file_system)
    (dh product : string) (year : value) :
  exists_ (FindImages.save_path e dh product year) fs = false ->
  (forall res url,
      serp_search e (FindImages.query dh product) (getenv e "SERP_API_KEY")
      = Ok res ->
      FindImages.first_original res = Ok (VStr url) ->
      url = EmptyString) ->
  FindImages.download_image e fs dh product year
  = (fs, [Search (FindImages.query dh product)]).
Proof.
  intros E N. unfold FindImages.download_image, FindImages.find_image.
  rewrite E.
  destruct (serp_search e (FindImages.query dh product)
              (getenv e "SERP_API_KEY")) as [res|x]; [|reflexivity].
  cbn [bind]. specialize (N res).
  destruct (FindImages.first_original res) as [img|x]; [|reflexivity].
  destruct img as [| | | |url| |]; cbn [truthy negb];
    try match goal with
        | |- context [if ?b then _ else _] => destruct b; reflexivity
        end;
    try reflexivity.
  rewrite (N url eq_refl eq_refl). reflexivity.
Qed.

Lemma download_image_without_link_witness :
  FindImages.first_original Outage.no_image = Raise IndexError
  /\ FindImages.download_image Outage.nothing_found Scenario.fragment_only
       "Vitra" "Chair" (VInt 1956)
     = (Scenario.fragment_only, [Search (FindImages.query "Vitra" "Chair")]).
Proof.
  split; [reflexivity|].
  apply (download_image_without_link Outage.nothing_found
           Scenario.fragment_only "Vitra" "Chair" (VInt 1956)).
  - reflexivity.
  - intros res url S. cbn in S. injection S as <-. discriminate.
Defined.

End StoreProperties.

(** ** The background-removal stage and the paths of the stages *)

Section PathProperties.
Import SlugFacts.

Lemma lower_app (a b : string) : lower (a ++ b) = (lower a ++ lower b)%string.
Proof. induction a as [|x a IH]; cbn [append lower]; [reflexivity|]. now rewrite IH. Qed.

Lemma mem_dot_app (s ext : string) :
  mem_char "." (s ++ String "." ext) = true.
Proof.
  induction s as [|x s IH]; cbn [append mem_char]; [reflexivity|].
  rewrite IH. apply orb_true_r.
Qed.

(** [splitext] takes the extension off a name that has one after a
    character other than a dot. *)
Lemma splitext_root_stem (stem ext : string) :
  mem_char "." ext = false ->
  forall seen,
    seen = true
    \/ any_char (fun c => negb (Ascii.eqb c ".")) stem = true ->
    ProcessPngs.splitext_root seen (stem ++ String "." ext) = stem.
Proof.
  intros X. induction stem as [|c s IH]; intros seen H;
    cbn [append ProcessPngs.splitext_root].
  - destruct H as [->|H]; [|discriminate H].
    now rewrite X.
  - rewrite mem_dot_app, andb_false_r. f_equal. apply IH.
    destruct H as [->|H]; [now left|].
    cbn [any_char] in H. apply orb_true_iff in H.
    destruct H as [H|H]; [left | now right].
    rewrite H. apply orb_true_r.
Qed.

Lemma png_path_plain (e : env) (dh product : string) (details year : value) :
  mem_char "/" (format e year) = false ->
  get_or details "year" (VStr "") = Ok year ->
  UploadToIbb.png_path e dh product details
  = Ok (("data-store-processed"
           :: match FindImages.sanitize_name dh with
              | EmptyString => []
              | slug => [slug]
              end)
        ++ [(FindImages.sanitize_name product ++ "-" ++ format e year
             ++ ".png")%string]).
Proof.
  intros S G. unfold UploadToIbb.png_path. rewrite G. cbn [bind].
  change UploadToIbb.sanitize_name with FindImages.sanitize_name.
  unfold joinpath.
  rewrite (slug_parts _ (sanitize_name_chars dh)),
    (image_name_plain _ _ ".png" (sanitize_name_chars product) S eq_refl).
  now destruct (FindImages.sanitize_name dh).
Qed.

(** X10.  The stages agree on where the image of a product is: for a
    product given by its bare year, a number or a string written
    without a path separator, the file the discovery stage saves is
    one the background-removal stage takes for an image, and the place
    that stage writes the result to is the very path at which the
    upload stage looks for the processed image. *)
Theorem stages_agree_on_the_image_path (e : env) (dh product : string)
    (year : value) :
  (isinstance_int year || isinstance_str year)%bool = true ->
  mem_char "/" (format e year) = false ->
  ProcessPngs.is_image_name
    (last (FindImages.save_path e dh product year) "") = true
  /\ UploadToIbb.png_path e dh product (UploadToIbb.unify_details year)
     = Ok ("data-store-processed"
             :: ProcessPngs.dest_relative
                  (tl (FindImages.save_path e dh product year))).
Proof.
  intros Y S. split.
  - unfold ProcessPngs.is_image_name.
    destruct (ends_with_stem ".jpg" _ (save_path_last e dh product year))
      as [stem L].
    rewrite L, lower_app.
    change (lower ".jpg") with ".jpg". now rewrite ends_with_app.
  - rewrite (png_path_plain e dh product (UploadToIbb.unify_details year)
               year S)
      by (destruct year; try discriminate Y; reflexivity).
    rewrite (save_path_plain e dh product year S), save_dir_slug.
    assert (R : ProcessPngs.splitext_root false
                  (FindImages.sanitize_name product ++ "-"
                   ++ format e year ++ ".jpg")
                = (FindImages.sanitize_name product ++ "-"
                   ++ format e year)%string).
    { rewrite <- (append_assoc3 "-"), <- append_assoc3.
      apply (splitext_root_stem _ "jpg" eq_refl false). right.
      rewrite any_char_app, (any_char_app _ "-"). cbn [any_char].
      apply orb_true_r. }
    destruct (FindImages.sanitize_name dh);
      cbn [app tl ProcessPngs.dest_relative]; now rewrite R, !append_assoc3.
Qed.

Lemma stages_agree_on_the_image_path_witness :
  ProcessPngs.is_image_name
    (last (FindImages.save_path Scenario.working "Vitra" "Eames Chair"
             (VInt 1956)) "") = true
  /\ UploadToIbb.png_path Scenario.working "Vitra" "Eames Chair"
       (UploadToIbb.unify_details (VInt 1956))
     = Ok ("data-store-processed"
             :: ProcessPngs.dest_relative
                  (tl (FindImages.save_path Scenario.working "Vitra"
                         "Eames Chair" (VInt 1956)))).
Proof.
  apply (stages_agree_on_the_image_path Scenario.working "Vitra"
           "Eames Chair" (VInt 1956)); reflexivity.
Defined.

Lemma process_file_cases (e : env) (st : file_system * list event)
    (rel : path) :
  fst (ProcessPngs.process_file e st rel) = fst st
  \/ (ProcessPngs.is_image_name (last rel "") = true
      /\ exists_ ("data-store-processed" :: ProcessPngs.dest_relative rel)
           (fst st) = false
      /\ exists f,
           fst (ProcessPngs.process_file e st rel)
           = write ("data-store-processed" :: ProcessPngs.dest_relative rel)
               f (fst st)).
Proof.
  destruct st as [fs evs]. unfold ProcessPngs.process_file. cbn [fst].
  destruct (ProcessPngs.is_image_name (last rel "")) eqn:N; cbn [negb];
    [|now left].
  destruct (exists_ ("data-store-processed" :: ProcessPngs.dest_relative rel)
              fs) eqn:E; [now left|].
  destruct (read_bytes ("data-store" :: rel) fs) as [data|x]; [|now left].
  destruct (replicate_run e ("data-store" :: rel) data) as [url|x];
    [|now left].
  destruct (Http.send Http.no_retries "GET" url (http e "GET" url ""))
    as [[resp|x] sent]; cbn [bind]; [|now left].
  destruct (Http.raise_for_status resp) as [[]|x]; cbn [bind fst];
    [|now left].
  right. split; [reflexivity|]. split; [reflexivity|].
  now exists (Image (Http.content resp)).
Qed.

(** X11.  The background-removal stage only adds files: every file of
    the store, the discovery images among them, is still there and
    unchanged when the stage ends, so a processed image that exists is
    never redone; and a file that was not there before is the processed
    counterpart, below [data-store-processed], of an image found below
    [data-store]. *)
Theorem process_pngs_only_adds (e : env) (fs : file_system) :
  (forall p f,
      World.lookup p fs = Some f ->
      World.lookup p (snd (fst (ProcessPngs.main e fs))) = Some f)
  /\ (forall p,
        World.lookup p fs = None ->
        World.lookup p (snd (fst (ProcessPngs.main e fs))) <> None ->
        exists rel,
          In rel (ProcessPngs.walk fs)
          /\ ProcessPngs.is_image_name (last rel "") = true
          /\ p = "data-store-processed" :: ProcessPngs.dest_relative rel).
Proof.
  unfold ProcessPngs.main.
  destruct (getenv e "REPLICATE_API_TOKEN") as [token|]; cbn [fst snd].
  - destruct (fold_only_adds (ProcessPngs.process_file e) fst
                (fun rel => "data-store-processed"
                              :: ProcessPngs.dest_relative rel)
                (fun rel => ProcessPngs.is_image_name (last rel "") = true)
                (process_file_cases e) (ProcessPngs.walk fs) (fs, []))
      as [K W].
    destruct (fold_left (ProcessPngs.process_file e) (ProcessPngs.walk fs)
                (fs, [])) as [fs' evs]. cbn [fst snd] in *.
    split; [exact K | exact W].
  - split; [auto|]. intros p N M. now rewrite N in M.
Qed.

(** X12.  Unlike the discovery stage, the background-removal stage
    looks at the status of the download: once the model has run on an
    image, an answer with status 400 to 599 leaves the store as it is
    and any other answer has its body written as the processed image;
    either way the result is requested once, with no retry. *)
Theorem process_file_checks_the_status (e : env) (fs : file_system)
    (evs : list event) (rel : path) (data url : string)
    (r : Http.response) :
  ProcessPngs.is_image_name (last rel "") = true ->
  exists_ ("data-store-processed" :: ProcessPngs.dest_relative rel) fs
  = false ->
  read_bytes ("data-store" :: rel) fs = Ok data ->
  replicate_run e ("data-store" :: rel) data = Ok url ->
  http e "GET" url "" 0 = Http.Reply r ->
  ProcessPngs.process_file e (fs, evs) rel
  = (if ((400 <=? Http.status r) && (Http.status r <? 600))%Z
     then fs
     else write ("data-store-processed" :: ProcessPngs.dest_relative rel)
            (Image (Http.content r)) fs,
     evs ++ [RemoveBackground ("data-store" :: rel); HttpSend "GET" url]).
Proof.
  intros N E R M H. unfold ProcessPngs.process_file.
  rewrite N, E, R, M. cbn [negb].
  unfold Http.send. cbn [Http.total Http.no_retries Http.urlopen].
  rewrite H, is_retry_no_retries. cbn [bind].
  unfold Http.raise_for_status.
  now destruct ((400 <=? Http.status r) && (Http.status r <? 600))%Z.
Qed.

Lemma process_file_checks_the_status_witness :
  ProcessPngs.process_file Outage.overloaded
    ([(["data-store"; "vitra"; "chair-1956.jpg"], Image "jpg-bytes")], [])
    ["vitra"; "chair-1956.jpg"]
  = ([(["data-store"; "vitra"; "chair-1956.jpg"], Image "jpg-bytes")],
     [RemoveBackground ["data-store"; "vitra"; "chair-1956.jpg"];
      HttpSend "GET" "https://replicate.example/out.png"])
  /\ ProcessPngs.process_file Scenario.working
       ([(["data-store"; "vitra"; "chair-1956.jpg"], Image "jpg-bytes")], [])
       ["vitra"; "chair-1956.jpg"]
     = ([(["data-store"; "vitra"; "chair-1956.jpg"], Image "jpg-bytes");
         (["data-store-processed"; "vitra"; "chair-1956.png"],
          Image "image-bytes")],
        [RemoveBackground ["data-store"; "vitra"; "chair-1956.jpg"];
         HttpSend "GET" "https://replicate.example/out.png"]).
Proof.
  split.
  - apply (process_file_checks_the_status Outage.overloaded
             [(["data-store"; "vitra"; "chair-1956.jpg"], Image "jpg-bytes")]
             [] ["vitra"; "chair-1956.jpg"]
             "jpg-bytes" "https://replicate.example/out.png"
             {| Http.status := 503; Http.content := "";
                Http.json := Raise JSONDecodeError |});
      reflexivity.
  - apply (process_file_checks_the_status Scenario.working
             [(["data-store"; "vitra"; "chair-1956.jpg"], Image "jpg-bytes")]
             [] ["vitra"; "chair-1956.jpg"]
             "jpg-bytes" "https://replicate.example/out.png"
             {| Http.status := 200; Http.content := "image-bytes";
                Http.json := Raise JSONDecodeError |});
      reflexivity.
Defined.

End PathProperties.

(** ** The upload stage *)

Section UploadStageProperties.
Import UploadToIbb RunFacts UploadFacts.

Lemma read_bytes_exists (p : path) (fs : file_system) (b : string) :
  read_bytes p fs = Ok b -> exists_ p fs = true.
Proof.
  intros R. apply is_file_exists. revert R.
  unfold read_bytes, is_file. now destruct (World.lookup p fs).
Qed.

(** X13.  An upload that is answered: with the key set, the record not
    enriched yet and the processed image on disk, one POST is sent, and
    when the answer has a good status and a JSON object for body, the
    record gets as its image the [url] of the answer's [data], keeping
    its place among the fields, and is reported changed; a body without
    [data], or whose [data] has no [url], makes the image the empty
    string, reported changed all the same; a [data] that is not an
    object leaves the record unchanged. *)
Theorem upload_entry_stores_the_link (e : env) (fs : file_system)
    (dh product : string) (details : value) (d : list (string * value))
    (p : path) (image : string) (r : Http.response)
    (body : list (string * value)) :
  not_IBB_API_KEY e = false ->
  unify_details details = VDict d ->
  already_updated (VDict d) = Ok false ->
  png_path e dh product (VDict d) = Ok p ->
  read_bytes p fs = Ok image ->
  http e "POST" upload_url image 0 = Http.Reply r ->
  Http.raise_for_status r = Ok tt ->
  Http.json r = Ok (VDict body) ->
  upload_entry e fs dh product details
  = (match get "data" body with
     | Some (VDict data) =>
         Ok (VDict (set "image"
                      (match get "url" data with
                       | Some u => u
                       | None => VStr ""
                       end) d), true)
     | Some _ => Ok (VDict d, false)
     | None => Ok (VDict (set "image" (VStr "") d), true)
     end,
     [HttpSend "POST" upload_url]).
Proof.
  intros K U A P R H S J. unfold upload_entry.
  rewrite K, U, A, P, (read_bytes_exists p fs image R). cbn [negb].
  unfold try_upload. rewrite R, (post_is_sent_once e image r H).
  cbn [bind]. rewrite S, J. cbn [bind get_or].
  destruct (get "data" body) as [data|]; [|reflexivity].
  destruct data; reflexivity.
Qed.

Lemma upload_entry_stores_the_link_witness :
  upload_entry Scenario.working Scenario.discovered_and_processed
    "Vitra" "Chair" (VInt 1956)
  = (Ok (VDict [("year", VInt 1956); ("image", VStr Scenario.hosted_url)],
         true),
     [HttpSend "POST" upload_url])
  /\ upload_entry Outage.no_link Scenario.discovered_and_processed
       "Vitra" "Chair" (VInt 1956)
     = (Ok (VDict [("year", VInt 1956); ("image", VStr "")], true),
        [HttpSend "POST" upload_url]).
Proof.
  split.
  - apply (upload_entry_stores_the_link Scenario.working
             Scenario.discovered_and_processed "Vitra" "Chair" (VInt 1956)
             [("year", VInt 1956)]
             ["data-store-processed"; "vitra"; "chair-1956.png"]
             "png-bytes"
             {| Http.status := 200; Http.content := "";
                Http.json :=
                  Ok (VDict [("data",
                              VDict [("url", VStr Scenario.hosted_url)])]) |}
             [("data", VDict [("url", VStr Scenario.hosted_url)])]);
      reflexivity.
  - apply (upload_entry_stores_the_link Outage.no_link
             Scenario.discovered_and_processed "Vitra" "Chair" (VInt 1956)
             [("year", VInt 1956)]
             ["data-store-processed"; "vitra"; "chair-1956.png"]
             "png-bytes"
             {| Http.status := 200; Http.content := "";
                Http.json := Ok (VDict [("success", VBool true)]) |}
             [("success", VBool true)]);
      reflexivity.
Defined.

(** *** A task that raises *)

Lemma upload_entry_marker_error (e : env) (fs : file_system)
    (h p : string) (details : value) (x : exn) :
  not_IBB_API_KEY e = false ->
  already_updated (unify_details details) = Raise x ->
  upload_entry e fs h p details = (Raise x, []).
Proof. intros K A. unfold upload_entry. now rewrite K, A. Qed.

Lemma pool_raise_sticks (e : env) (fs : file_system) (h : string)
    (ps : list (string * value)) :
  forall x evs,
    fst (fold_left (pool_step e fs h) ps (Raise x, evs)) = Raise x.
Proof.
  induction ps as [|pd ps IH]; intros x evs; cbn [fold_left];
    [reflexivity|].
  unfold pool_step at 2.
  destruct (upload_entry e fs h (fst pd) (snd pd)) as [r evs'].
  cbn [bind]. apply IH.
Qed.

Lemma run_pool_raises (e : env) (fs : file_system) (h : string)
    (ps : list (string * value)) (pd : string * value) (x : exn) :
  In pd ps ->
  fst (upload_entry e fs h (fst pd) (snd pd)) = Raise x ->
  exists x', fst (run_pool e fs h ps) = Raise x'.
Proof.
  intros I R. rewrite run_pool_fold.
  apply (as_completed_In e h ps pd) in I. revert I.
  generalize (as_completed e h ps).
  generalize (Ok (@nil (string * value)), @nil event).
  intros acc l. revert acc.
  induction l as [|q l IH]; intros acc I; [destruct I|].
  cbn [fold_left]. destruct I as [->|I]; [|now apply IH].
  unfold pool_step at 2. destruct acc as [[acc|y] evs].
  - destruct (upload_entry e fs h (fst pd) (snd pd)) as [r evs'].
    cbn [fst] in R. subst r. cbn [bind]. exists x. apply pool_raise_sticks.
  - destruct (upload_entry e fs h (fst pd) (snd pd)) as [r evs'].
    cbn [bind]. exists y. apply pool_raise_sticks.
Qed.

Lemma house_raise_sticks (e : env) (fs : file_system)
    (l : list (string * list (string * value))) :
  forall x evs,
    fst (fold_left (house_step e fs) l (Raise x, evs)) = Raise x.
Proof.
  induction l as [|hp l IH]; intros x evs; cbn [fold_left];
    [reflexivity | apply IH].
Qed.

Lemma upload_houses_raises (e : env) (fs : file_system)
    (content : list (string * list (string * value)))
    (hp : string * list (string * value)) (x : exn) :
  In hp content ->
  fst (run_pool e fs (fst hp) (snd hp)) = Raise x ->
  exists x', fst (upload_houses e fs content) = Raise x'.
Proof.
  rewrite upload_houses_fold.
  generalize (Ok content, @nil event). revert hp x.
  induction content as [|q l IH]; intros hp x acc I R; [destruct I|].
  cbn [fold_left]. destruct I as [->|I]; [|now apply (IH hp x)].
  unfold house_step at 2. destruct acc as [[c|y] evs].
  - destruct (run_pool e fs (fst hp) (snd hp)) as [r evs'].
    cbn [fst] in R. subst r. cbn [bind]. exists x.
    apply house_raise_sticks.
  - exists y. apply house_raise_sticks.
Qed.

Lemma process_yaml_file_raises (e : env) (fs : file_system) (name : string)
    (t : string * string * value) (x : exn) :
  In t (upload_tasks (read_yaml [DATA_DIR; name] fs)) ->
  fst (upload_entry e fs (fst (fst t)) (snd (fst t)) (snd t)) = Raise x ->
  exists x' evs, process_yaml_file e fs name = (Raise x', fs, evs).
Proof.
  unfold upload_tasks, content_of, process_yaml_file.
  destruct (read_yaml [DATA_DIR; name] fs) as [v|]; [|intros []].
  destruct (if truthy v then v else VDict []); try (intros []).
  intros I R. apply in_flat_map in I. destruct I as (hp & Ih & I).
  apply in_map_iff in I. destruct I as (pd & <- & Ip).
  cbn [fst snd] in R.
  destruct (run_pool_raises e fs (fst hp) (snd hp) pd x Ip R) as [x1 R1].
  destruct (upload_houses_raises e fs _ hp x1 Ih R1) as [x2 R2].
  destruct (upload_houses e fs (fix_yaml_structure d)) as [r evs].
  cbn [fst] in R2. subst r. now exists x2, evs.
Qed.

Lemma file_raise_sticks (e : env) (names : list string) :
  forall x s evs,
    fold_left (file_step e) names (Raise x, s, evs) = (Raise x, s, evs).
Proof.
  induction names as [|n names IH]; intros x s evs; cbn [fold_left];
    [reflexivity | apply IH].
Qed.

Lemma file_step_sources (e : env)
    (st : result unit * file_system * list event) (name : string) :
  forall n,
    read_yaml [DATA_DIR; n] (snd (fst (file_step e st name)))
    = read_yaml [DATA_DIR; n] (snd (fst st)).
Proof.
  intros n. destruct st as [[[u|x] s] evs]; cbn [file_step fst snd];
    [|reflexivity].
  pose proof (process_yaml_file_sources e s name n) as P.
  destruct (process_yaml_file e s name) as [[r s'] evs'].
  exact P.
Qed.

(** X14.  A record whose [image] is not a string, list or mapping (a
    null, a number, a boolean) stops the upload stage: with the key
    set, the membership test on it raises a type error outside the
    task's own handler, the task raises it to the pool, and the stage
    ends with an exception instead of going on to the datatable. *)
Theorem unsearchable_image_stops_the_stage (e : env) (fs : file_system)
    (name h p : string) (d : list (string * value)) (image : value) :
  not_IBB_API_KEY e = false ->
  In name (glob_yaml DATA_DIR fs) ->
  In (h, p, VDict d) (upload_tasks (read_yaml [DATA_DIR; name] fs)) ->
  get "image" d = Some image ->
  str_in "ibb.co" image = Raise TypeError ->
  upload_entry e fs h p (VDict d) = (Raise TypeError, [])
  /\ exists x, fst (fst (main e fs)) = Raise x.
Proof.
  intros K N T G S.
  assert (A : already_updated (unify_details (VDict d)) = Raise TypeError).
  { cbn [unify_details already_updated]. now rewrite G. }
  split; [now apply upload_entry_marker_error|].
  rewrite main_fold.
  assert (F : forall names st,
             In name names ->
             (forall n, read_yaml [DATA_DIR; n] (snd (fst st))
                        = read_yaml [DATA_DIR; n] fs) ->
             exists x,
               fst (fst (fold_left (file_step e) names st)) = Raise x).
  { induction names as [|n names IH]; intros st I R; [destruct I|].
    cbn [fold_left]. destruct I as [->|I].
    - destruct st as [[[u|y] s] evs]; cbn [file_step].
      + cbn [fst snd] in R.
        destruct (process_yaml_file_raises e s name (h, p, VDict d)
                    TypeError) as (x' & evs' & P).
        * now rewrite R.
        * cbn [fst snd].
          now rewrite (upload_entry_marker_error e s h p (VDict d)
                         TypeError K A).
        * rewrite P. exists x'. now rewrite file_raise_sticks.
      + exists y. now rewrite file_raise_sticks.
    - apply (IH _ I). intros m. rewrite file_step_sources. apply R. }
  destruct (F (glob_yaml DATA_DIR fs) (Ok tt, fs, []) N (fun n => eq_refl))
    as [x Fx].
  destruct (fold_left (file_step e) (glob_yaml DATA_DIR fs) (Ok tt, fs, []))
    as [[r s] evs].
  cbn [fst] in Fx. subst r. now exists x.
Qed.

Lemma unsearchable_image_stops_the_stage_witness :
  upload_entry Scenario.working
    [(["data-store"; "vitra.yaml"], Yaml (Parsed null_image))]
    "Vitra" "Chair" (VDict [("year", VInt 1956); ("image", VNone)])
  = (Raise TypeError, [])
  /\ exists x,
       fst (fst (main Scenario.working
                   [(["data-store"; "vitra.yaml"],
                     Yaml (Parsed null_image))]))
       = Raise x.
Proof.
  apply (unsearchable_image_stops_the_stage Scenario.working
           [(["data-store"; "vitra.yaml"], Yaml (Parsed null_image))]
           "vitra.yaml" "Vitra" "Chair"
           [("year", VInt 1956); ("image", VNone)] VNone).
  - reflexivity.
  - now left.
  - now left.
  - reflexivity.
  - reflexivity.
Defined.

(** *** Where the stage writes *)

Lemma process_yaml_file_elsewhere (e : env) (fs : file_system)
    (name : string) (q : path) :
  q <> [PROCESSED_DIR; name] ->
  World.lookup q (snd (fst (process_yaml_file e fs name)))
  = World.lookup q fs.
Proof.
  intros N. unfold process_yaml_file.
  destruct (read_yaml [DATA_DIR; name] fs) as [v|]; [|reflexivity].
  destruct (if truthy v then v else VDict []); try reflexivity.
  destruct (upload_houses e fs (fix_yaml_structure d)) as [[c|x] evs];
    cbn [fst snd]; [|reflexivity].
  rewrite lookup_write.
  destruct (path_eqb q [PROCESSED_DIR; name]) eqn:E; [|reflexivity].
  apply path_eqb_eq in E. contradiction.
Qed.

(** X15.  The upload stage writes the output fragments and the
    datatable and nothing else: a path that is neither the datatable's
    nor, below [data-store-processed], that of a source fragment's name
    holds after the stage what it held before; the source fragments and
    the images are among them. *)
Theorem upload_stage_writes_fragments_only (e : env) (fs : file_system)
    (q : path) :
  q <> datatable_path ->
  (forall name, In name (glob_yaml DATA_DIR fs) ->
                q <> [PROCESSED_DIR; name]) ->
  World.lookup q (snd (fst (main e fs))) = World.lookup q fs.
Proof.
  intros D N. rewrite main_fold.
  assert (F : forall names st,
             (forall n, In n names -> q <> [PROCESSED_DIR; n]) ->
             World.lookup q (snd (fst (fold_left (file_step e) names st)))
             = World.lookup q (snd (fst st))).
  { induction names as [|n names IH]; intros st M; cbn [fold_left];
      [reflexivity|].
    rewrite IH by (intros m I; apply M; now right).
    destruct st as [[[u|x] s] evs]; cbn [file_step fst snd];
      [|reflexivity].
    pose proof (process_yaml_file_elsewhere e s n q
                  (M n (or_introl eq_refl))) as P.
    destruct (process_yaml_file e s n) as [[r s'] evs']. exact P. }
  specialize (F (glob_yaml DATA_DIR fs) (Ok tt, fs, []) N).
  destruct (fold_left (file_step e) (glob_yaml DATA_DIR fs) (Ok tt, fs, []))
    as [[[u|x] s] evs]; cbn [fst snd] in *; [|exact F].
  rewrite create_datatable_eq.
  destruct (merge_fragments (processed_docs s)) as [dt|x]; cbn [fst snd];
    [|exact F].
  rewrite lookup_write.
  destruct (path_eqb q datatable_path) eqn:E; [|exact F].
  apply path_eqb_eq in E. contradiction.
Qed.

Lemma upload_stage_writes_fragments_only_witness :
  World.lookup ["data-store-processed"; "vitra"; "chair-1956.png"]
    (snd (fst (main Scenario.working Scenario.discovered_and_processed)))
  = World.lookup ["data-store-processed"; "vitra"; "chair-1956.png"]
      Scenario.discovered_and_processed.
Proof.
  apply (upload_stage_writes_fragments_only Scenario.working
           Scenario.discovered_and_processed
           ["data-store-processed"; "vitra"; "chair-1956.png"]).
  - discriminate.
  - intros name _. discriminate.
Defined.

End UploadStageProperties.

(** ** The datatable *)

Section DatatableProperties.
Import UploadToIbb RunFacts.

Lemma merge_rejects (doc : loaded) (docs : list loaded) :
  In doc docs -> mergeable doc = false ->
  forall acc,
    acc = Raise AttributeError \/ (exists c, acc = Ok c) ->
    fold_left merge_fragment docs acc = Raise AttributeError.
Proof.
  intros I M. induction docs as [|d docs IH]; intros acc A; [destruct I|].
  cbn [fold_left]. destruct I as [->|I].
  - destruct A as [->|[c ->]]; [apply merge_fragment_raise|].
    replace (merge_fragment (Ok c) doc) with (@Raise (list (string * list (string * value))) AttributeError);
      [apply merge_fragment_raise|].
    unfold mergeable, content_of in M. unfold merge_fragment. cbn [bind].
    destruct doc as [v|]; [|discriminate].
    now destruct (if truthy v then v else VDict []).
  - apply (IH I). destruct A as [->|[c ->]]; [now left|].
    unfold merge_fragment. cbn [bind].
    destruct d as [v|]; [|right; now exists c].
    destruct (if truthy v then v else VDict []); try now left.
    right. eexists. reflexivity.
Qed.

Lemma content_of_truthy (v : value) :
  isinstance_dict v = false -> truthy v = true -> content_of (Parsed v) = None.
Proof.
  intros D T. unfold content_of. rewrite T.
  destruct v; try reflexivity. discriminate D.
Qed.

(** X16.  A document that is not a mapping stops the upload stage when
    it is truthy (a list or a string that is not empty, a number other
    than zero, [true]), where the loader of the discovery stage skips
    it: as a source fragment it makes [process_yaml_file] raise an
    attribute error before anything is sent or written, and as a file
    of [data-store-processed] it makes [create_datatable] raise it and
    write no datatable.  A falsy one (null, an empty list or string,
    zero, [false]) is replaced by the empty mapping: as a source
    fragment it gives an empty output fragment, and the merge passes
    over it. *)
Theorem non_mapping_document_raises (e : env) (s : file_system)
    (name : string) (v : value) :
  isinstance_dict v = false ->
  (truthy v = true ->
   (read_yaml [DATA_DIR; name] s = Parsed v ->
    process_yaml_file e s name = (Raise AttributeError, s, []))
   /\ (In name (glob_yaml PROCESSED_DIR s) ->
       read_yaml [PROCESSED_DIR; name] s = Parsed v ->
       create_datatable s = (Raise AttributeError, s)))
  /\ (truthy v = false ->
      (read_yaml [DATA_DIR; name] s = Parsed v ->
       process_yaml_file e s name
       = (Ok tt,
          write [PROCESSED_DIR; name] (Yaml (Parsed (VDict []))) s, []))
      /\ forall datatable,
           merge_fragment (Ok datatable) (Parsed v) = Ok datatable).
Proof.
  intros D. split; intros T.
  - pose proof (content_of_truthy v D T) as C. split.
    + intros R. unfold process_yaml_file. rewrite R.
      unfold content_of in C.
      now destruct (if truthy v then v else VDict []).
    + intros I R. rewrite create_datatable_eq. unfold merge_fragments.
      rewrite (merge_rejects (Parsed v) (processed_docs s));
        [reflexivity| | |].
      * unfold processed_docs. apply in_map_iff. now exists name.
      * unfold mergeable. now rewrite C.
      * right. now exists [].
  - split.
    + intros R. unfold process_yaml_file. rewrite R, T. reflexivity.
    + intros datatable. unfold merge_fragment. cbn [bind].
      now rewrite T.
Qed.

Lemma non_mapping_document_raises_witness :
  process_yaml_file Scenario.working
    [(["data-store"; "list.yaml"], Yaml (Parsed (VList [VStr "Vitra"])))]
    "list.yaml"
  = (Raise AttributeError,
     [(["data-store"; "list.yaml"], Yaml (Parsed (VList [VStr "Vitra"])))],
     [])
  /\ create_datatable
       [(["data-store-processed"; "vitra.yaml"], Yaml (Parsed Scenario.vitra));
        (["data-store-processed"; "list.yaml"],
         Yaml (Parsed (VList [VStr "Vitra"])))]
     = (Raise AttributeError,
        [(["data-store-processed"; "vitra.yaml"],
          Yaml (Parsed Scenario.vitra));
         (["data-store-processed"; "list.yaml"],
          Yaml (Parsed (VList [VStr "Vitra"])))])
  /\ process_yaml_file Scenario.working
       [(["data-store"; "empty.yaml"], Yaml (Parsed (VList [])))]
       "empty.yaml"
     = (Ok tt,
        [(["data-store"; "empty.yaml"], Yaml (Parsed (VList [])));
         (["data-store-processed"; "empty.yaml"], Yaml (Parsed (VDict [])))],
        []).
Proof.
  split; [|split].
  - apply (proj1 (proj1 (non_mapping_document_raises Scenario.working
                           [(["data-store"; "list.yaml"],
                             Yaml (Parsed (VList [VStr "Vitra"])))]
                           "list.yaml" (VList [VStr "Vitra"]) eq_refl)
                    eq_refl)).
    reflexivity.
  - apply (proj2 (proj1 (non_mapping_document_raises Scenario.working
                           [(["data-store-processed"; "vitra.yaml"],
                             Yaml (Parsed Scenario.vitra));
                            (["data-store-processed"; "list.yaml"],
                             Yaml (Parsed (VList [VStr "Vitra"])))]
                           "list.yaml" (VList [VStr "Vitra"]) eq_refl)
                    eq_refl)).
    + right. now left.
    + reflexivity.
  - apply (proj1 (proj2 (non_mapping_document_raises Scenario.working
                           [(["data-store"; "empty.yaml"],
                             Yaml (Parsed (VList [])))]
                           "empty.yaml" (VList []) eq_refl)
                    eq_refl)).
    reflexivity.
Defined.

Lemma same_catalog_later (d1 d2 : list (string * list (string * value))) :
  catalog_wf d1 = true ->
  same_catalog d2 d1 ->
  same_catalog (merge_docs [Parsed (catalog_value d1)] d2) d1.
Proof.
  intros W [L C]. split.
  - intros h p. rewrite merge_docs_lookup. cbn [map fold_left].
    rewrite L, (doc_entry_catalog d1 h p W).
    now destruct (CatalogFacts.lookup d1 h p).
  - intros h. rewrite merge_docs_houses. cbn [existsb].
    rewrite C, doc_has_house_catalog, orb_false_r. apply orb_diag.
Qed.

(** X17.  Building the datatable again changes nothing in it: when
    [create_datatable] succeeds, running it once more on the store it
    leaves, where the datatable is now one of the files merged,
    succeeds too and writes a datatable with the same records under
    the same design houses and products. *)
Theorem create_datatable_again (s : file_system) :
  fst (create_datatable s) = Ok tt ->
  exists dt1 dt2,
    read_yaml datatable_path (snd (create_datatable s))
    = Parsed (catalog_value dt1)
    /\ create_datatable (snd (create_datatable s))
       = (Ok tt,
          write datatable_path (Yaml (Parsed (catalog_value dt2)))
            (snd (create_datatable s)))
    /\ same_catalog dt2 dt1.
Proof.
  rewrite create_datatable_eq.
  destruct (merge_fragments (processed_docs s)) as [dt1|x] eqn:M;
    cbn [fst snd]; [intros _ | discriminate].
  unfold merge_fragments in M.
  destruct (merge_fragments_docs (processed_docs s) []) as [M1 M2].
  pose proof (M2 dt1 M) as A. rewrite (M1 A) in M.
  injection M as M. 
  set (D1 := Parsed (catalog_value dt1)).
  set (s1 := write datatable_path (Yaml D1) s).
  assert (P : path_eqb datatable_path datatable_path = true)
    by now apply path_eqb_eq.
  assert (R1 : read_yaml datatable_path s1 = D1).
  { unfold read_yaml, s1. now rewrite lookup_write, P. }
  assert (R : forall n,
             read_yaml [PROCESSED_DIR; n] s1
             = read_yaml [PROCESSED_DIR; n] s
             \/ read_yaml [PROCESSED_DIR; n] s1 = D1).
  { intros n. unfold read_yaml, s1. rewrite lookup_write.
    destruct (path_eqb [PROCESSED_DIR; n] datatable_path);
      [now right | now left]. }
  set (l2 := map (fun name => read_yaml [PROCESSED_DIR; name] s1)
                 (glob_yaml PROCESSED_DIR s)).
  assert (F : Forall2 (fun a b => b = a \/ b = D1) (processed_docs s) l2).
  { unfold processed_docs, l2.
    apply (Forall2_map_same (fun a b => b = a \/ b = D1)). exact R. }
  assert (W : catalog_wf dt1 = true)
    by (rewrite <- M; apply merge_docs_wf; reflexivity).
  assert (S2 : same_catalog (merge_docs l2 []) dt1).
  { rewrite <- M. apply merge_docs_replaced. rewrite M. exact F. }
  assert (A2 : forallb mergeable l2 = true)
    by exact (mergeable_replaced dt1 _ _ F A).
  assert (G : processed_docs s1
              = l2 ++ (if is_file datatable_path s then [] else [D1])).
  { unfold processed_docs, s1. rewrite glob_write, map_app.
    fold s1. fold l2. f_equal.
    destruct (is_file datatable_path s); [reflexivity|].
    cbn [datatable_path map]. rewrite String.eqb_refl. cbn.
    f_equal. exact R1. }
  exists dt1, (merge_docs (processed_docs s1) []).
  split; [exact R1|]. split.
  - rewrite create_datatable_eq. unfold merge_fragments.
    destruct (merge_fragments_docs (processed_docs s1) []) as [N1 _].
    rewrite N1; [reflexivity|].
    rewrite G, forallb_app, A2.
    destruct (is_file datatable_path s); [reflexivity|].
    cbn [forallb andb]. unfold D1, mergeable.
    now rewrite content_of_catalog.
  - rewrite G.
    destruct (is_file datatable_path s).
    + now rewrite app_nil_r.
    + rewrite merge_docs_app. now apply same_catalog_later.
Qed.

Lemma create_datatable_again_witness :
  exists dt1 dt2,
    read_yaml datatable_path
      (snd (create_datatable
              [(["data-store-processed"; "b.yaml"],
                Yaml (Parsed (VDict CatalogFacts.fragment_B)));
               (["data-store-processed"; "a.yaml"],
                Yaml (Parsed (VDict CatalogFacts.fragment_A)))]))
    = Parsed (catalog_value dt1)
    /\ create_datatable
         (snd (create_datatable
                 [(["data-store-processed"; "b.yaml"],
                   Yaml (Parsed (VDict CatalogFacts.fragment_B)));
                  (["data-store-processed"; "a.yaml"],
                   Yaml (Parsed (VDict CatalogFacts.fragment_A)))]))
       = (Ok tt,
          write datatable_path (Yaml (Parsed (catalog_value dt2)))
            (snd (create_datatable
                    [(["data-store-processed"; "b.yaml"],
                      Yaml (Parsed (VDict CatalogFacts.fragment_B)));
                     (["data-store-processed"; "a.yaml"],
                      Yaml (Parsed (VDict CatalogFacts.fragment_A)))])))
    /\ same_catalog dt2 dt1.
Proof.
  apply (create_datatable_again
           [(["data-store-processed"; "b.yaml"],
             Yaml (Parsed (VDict CatalogFacts.fragment_B)));
            (["data-store-processed"; "a.yaml"],
             Yaml (Parsed (VDict CatalogFacts.fragment_A)))]).
  reflexivity.
Defined.

End DatatableProperties.

(** ** The repair and the output fragment *)

Section OutputProperties.
Import UploadToIbb RunFacts UploadFacts CatalogFacts RepairFacts.

Lemma contains_app {V : Type} (k : string) (a b : list (string * V)) :
  contains k (a ++ b) = (contains k a || contains k b)%bool.
Proof.
  unfold contains. induction a as [|[k' v'] a IH]; cbn [app get];
    [reflexivity|].
  destruct (String.eqb k k'); [reflexivity | exact IH].
Qed.

Lemma set_fresh {V : Type} (k : string) (v : V) (d : list (string * V)) :
  contains k d = false -> set k v d = d ++ [(k, v)].
Proof.
  unfold contains. induction d as [|[k' v'] d IH]; cbn [get set app];
    [reflexivity|].
  destruct (String.eqb k k'); [discriminate|].
  intros N. now rewrite (IH N).
Qed.

Lemma fix_plain (content : list (string * value)) :
  forall (acc : list (string * list (string * value)))
         (cur : option string),
    no_prefixed_key content = true ->
    unique_keys content = true ->
    (forall k, contains k content = true -> contains k acc = false) ->
    fst (fold_left fix_key content (acc, cur))
    = acc ++ map (fun kv : string * value => (fst kv, seed (snd kv)))
               content.
Proof.
  induction content as [|[h v] rest IH]; intros acc cur P U D;
    cbn [fold_left map fst snd].
  - now rewrite app_nil_r.
  - cbn [no_prefixed_key forallb fst] in P.
    apply andb_true_iff in P. destruct P as [Ph P].
    apply negb_true_iff in Ph.
    cbn [unique_keys] in U. apply andb_true_iff in U. destruct U as [N U].
    apply negb_true_iff in N.
    rewrite (fix_key_house acc cur h v Ph).
    assert (Dh : contains h acc = false).
    { apply D. unfold contains. cbn [get]. now rewrite String.eqb_refl. }
    rewrite (set_fresh h (seed v) acc Dh), (IH _ _ P U).
    + now rewrite <- app_assoc.
    + intros k C. rewrite contains_app.
      assert (Dk : contains k acc = false).
      { apply D. unfold contains in *. cbn [get].
        now destruct (String.eqb k h). }
      rewrite Dk. unfold contains at 1. cbn [get orb].
      destruct (String.eqb k h) eqn:E; [|reflexivity].
      apply String.eqb_eq in E. subst k. congruence.
Qed.

(** X18.  The repair leaves a fragment that needs none as it is: when
    no key starts with two underscores, the repaired catalog has the
    keys of the fragment in their order, each with its product map, an
    empty one where the value was not a map; so a fragment of product
    maps comes out of the repair unchanged. *)
Theorem fix_yaml_structure_well_formed (content : list (string * value)) :
  unique_keys content = true ->
  no_prefixed_key content = true ->
  fix_yaml_structure content
  = map (fun kv : string * value => (fst kv, seed (snd kv))) content
  /\ (forallb (fun kv : string * value => isinstance_dict (snd kv)) content
      = true ->
      catalog_value (fix_yaml_structure content) = VDict content).
Proof.
  intros U P.
  assert (E : fix_yaml_structure content
              = map (fun kv : string * value => (fst kv, seed (snd kv)))
                    content).
  { unfold fix_yaml_structure.
    now rewrite (fix_plain content [] None P U (fun k _ => eq_refl)). }
  split; [exact E|].
  intros A. rewrite E. unfold catalog_value. f_equal.
  clear E U P.
  induction content as [|[h v] rest IH]; cbn [map fst snd]; [reflexivity|].
  cbn [forallb snd] in A. apply andb_true_iff in A. destruct A as [Av A].
  rewrite (IH A). destruct v; try discriminate Av. reflexivity.
Qed.

Lemma fix_yaml_structure_well_formed_witness :
  fix_yaml_structure
    [("Vitra", VDict [("Chair", VInt 1956)]); ("Artek", VNone)]
  = map (fun kv : string * value => (fst kv, seed (snd kv)))
        [("Vitra", VDict [("Chair", VInt 1956)]); ("Artek", VNone)]
  /\ (forallb (fun kv : string * value => isinstance_dict (snd kv))
        [("Vitra", VDict [("Chair", VInt 1956)]); ("Artek", VNone)]
      = true ->
      catalog_value
        (fix_yaml_structure
           [("Vitra", VDict [("Chair", VInt 1956)]); ("Artek", VNone)])
      = VDict [("Vitra", VDict [("Chair", VInt 1956)]); ("Artek", VNone)]).
Proof.
  apply (fix_yaml_structure_well_formed
           [("Vitra", VDict [("Chair", VInt 1956)]); ("Artek", VNone)]);
    reflexivity.
Defined.

(** *** The repaired catalog holds each key once *)

Lemma fix_key_wf (st : list (string * list (string * value)) * option string)
    (entry : string * value) :
  catalog_wf (fst st) = true ->
  unique_keys (seed (snd entry)) = true ->
  catalog_wf (fst (fix_key st entry)) = true.
Proof.
  destruct st as [nc cur]. destruct entry as [k v]. cbn [fst snd].
  intros W U. unfold fix_key.
  destruct (negb (startswith "__" k)); cbn [fst].
  - now apply catalog_wf_set.
  - assert (G : forall (nc' : list (string * list (string * value)))
                       (house : string),
               catalog_wf nc' = true ->
               catalog_wf
                 (match get house nc' with
                  | Some products =>
                      set house
                        (set (replace_char "_" " " (lstrip "_" k)) v products)
                        nc'
                  | None => nc'
                  end) = true).
    { intros nc' house W'.
      destruct (get house nc') as [products|] eqn:G; [|exact W'].
      apply catalog_wf_set; [exact W'|].
      apply unique_keys_set. exact (catalog_wf_get house products nc' W' G). }
    destruct cur as [h|]; cbn [fst]; [now apply G|].
    apply G. unfold setdefault.
    destruct (contains "unknown" nc); [exact W|].
    now apply catalog_wf_set.
Qed.

Lemma fix_yaml_structure_wf (content : list (string * value)) :
  is_fragment content = true ->
  catalog_wf (fix_yaml_structure content) = true.
Proof.
  unfold is_fragment, fix_yaml_structure. intros F.
  apply andb_true_iff in F. destruct F as [_ F].
  assert (G : forall st,
             catalog_wf (fst st) = true ->
             catalog_wf (fst (fold_left fix_key content st)) = true).
  { induction content as [|[k v] rest IH]; intros st W; cbn [fold_left];
      [exact W|].
    cbn [forallb snd] in F. apply andb_true_iff in F. destruct F as [Fv F].
    apply (IH F). apply fix_key_wf; [exact W|].
    cbn [snd]. destruct v; try reflexivity. exact Fv. }
  now apply G.
Qed.

(** *** What the pools return *)

Lemma pool_records (e : env) (fs : file_system) (h : string)
    (ps : list (string * value)) :
  (forall pd, In pd ps ->
     exists res, fst (upload_entry e fs h (fst pd) (snd pd)) = Ok res) ->
  forall acc evs,
    fst (fold_left (pool_step e fs h) ps (Ok acc, evs))
    = Ok (update (records e fs h ps) acc).
Proof.
  induction ps as [|pd ps IH]; intros A acc evs; [reflexivity|].
  cbn [fold_left]. unfold records, update. cbn [map fold_left fst snd].
  fold (records e fs h ps).
  destruct (A pd (or_introl eq_refl)) as [res R].
  unfold pool_step at 2, task_record.
  destruct (upload_entry e fs h (fst pd) (snd pd)) as [r evs'].
  cbn [fst] in R. subst r. cbn [bind fst].
  apply (IH (fun q I => A q (or_intror I))).
Qed.

Lemma run_pool_records (e : env) (fs : file_system) (h : string)
    (ps : list (string * value)) :
  (forall pd, In pd ps ->
     exists res, fst (upload_entry e fs h (fst pd) (snd pd)) = Ok res) ->
  fst (run_pool e fs h ps)
  = Ok (update (records e fs h (as_completed e h ps)) []).
Proof.
  intros A. rewrite run_pool_fold. apply pool_records.
  intros pd I. apply A. exact (proj1 (as_completed_In e h ps pd) I).
Qed.

Lemma house_records (e : env) (fs : file_system)
    (l : list (string * list (string * value))) :
  (forall hp, In hp l ->
     forall pd, In pd (snd hp) ->
       exists res,
         fst (upload_entry e fs (fst hp) (fst pd) (snd pd)) = Ok res) ->
  forall c evs,
    fst (fold_left (house_step e fs) l (Ok c, evs))
    = Ok (update (map (fun hp : string * list (string * value) =>
                         (fst hp,
                          update (records e fs (fst hp)
                                    (as_completed e (fst hp) (snd hp))) []))
                      l) c).
Proof.
  induction l as [|hp l IH]; intros A c evs; [reflexivity|].
  cbn [fold_left]. unfold update at 1. cbn [map fold_left fst snd].
  unfold house_step at 2.
  pose proof (run_pool_records e fs (fst hp) (snd hp)
                (A hp (or_introl eq_refl))) as P.
  destruct (run_pool e fs (fst hp) (snd hp)) as [r evs'].
  cbn [fst] in P. subst r. cbn [bind].
  apply (IH (fun q I => A q (or_intror I))).
Qed.

Lemma get_map_keyed {V W : Type} (g : string -> V -> W) (k : string)
    (l : list (string * V)) :
  get k (map (fun kv : string * V => (fst kv, g (fst kv) (snd kv))) l)
  = match get k l with Some v => Some (g k v) | None => None end.
Proof.
  induction l as [|[k' v'] l IH]; cbn [map get fst snd]; [reflexivity|].
  destruct (String.eqb k k') eqn:E; [|exact IH].
  apply String.eqb_eq in E. now subst k'.
Qed.

Lemma unique_keys_map_keyed {V W : Type} (g : string -> V -> W)
    (l : list (string * V)) :
  unique_keys (map (fun kv : string * V => (fst kv, g (fst kv) (snd kv))) l)
  = unique_keys l.
Proof.
  induction l as [|[k v] l IH]; cbn [map unique_keys fst snd]; [reflexivity|].
  rewrite IH. f_equal. f_equal. unfold contains.
  rewrite (get_map_keyed g k l). now destruct (get k l).
Qed.

Lemma keys_update_present {V : Type} (items d : list (string * V)) :
  (forall kv, In kv items -> contains (fst kv) d = true) ->
  keys (update items d) = keys d.
Proof.
  unfold update. revert d.
  induction items as [|[k v] items IH]; intros d A; cbn [fold_left];
    [reflexivity|].
  rewrite IH.
  - rewrite keys_set. cbn [fst].
    pose proof (A (k, v) (or_introl eq_refl)) as Ak. cbn [fst] in Ak.
    now rewrite Ak.
  - intros kv I. rewrite contains_set, (A kv (or_intror I)).
    apply orb_true_r.
Qed.

Lemma contains_self {V : Type} (d : list (string * V)) (kv : string * V) :
  In kv d -> contains (fst kv) d = true.
Proof.
  intros I. apply get_In. unfold keys. apply in_map_iff. now exists kv.
Qed.

Lemma update_fresh {V : Type} (items : list (string * V)) :
  forall d : list (string * V),
    unique_keys items = true ->
    (forall kv, In kv items -> contains (fst kv) d = false) ->
    update items d = d ++ items.
Proof.
  unfold update.
  induction items as [|[k v] items IH]; intros d U N; cbn [fold_left].
  - now rewrite app_nil_r.
  - cbn [unique_keys] in U. apply andb_true_iff in U. destruct U as [Nk U].
    apply negb_true_iff in Nk. cbn [fst snd].
    rewrite (set_fresh k v d (N (k, v) (or_introl eq_refl))).
    rewrite (IH _ U); [now rewrite <- app_assoc|].
    intros kv I. rewrite contains_app, (N kv (or_intror I)).
    unfold contains at 1. cbn [get orb].
    destruct (String.eqb (fst kv) k) eqn:E; [|reflexivity].
    apply String.eqb_eq in E.
    pose proof (contains_self items kv I) as C. congruence.
Qed.

(** X26.  The products of an output fragment stand in the order in
    which their tasks finish: when no task of a design house raises,
    the pool returns, for the products taken as [as_completed] yields
    them, each product with the record its task returned; so the order
    can differ from that of the source fragment, and from one run to
    the next. *)
Theorem run_pool_lists_products_as_they_finish (e : env)
    (fs : file_system) (h : string) (ps : list (string * value)) :
  unique_keys ps = true ->
  (forall pd, In pd ps ->
     exists res, fst (upload_entry e fs h (fst pd) (snd pd)) = Ok res) ->
  fst (run_pool e fs h ps) = Ok (records e fs h (as_completed e h ps)).
Proof.
  intros U A. rewrite (run_pool_records e fs h ps A).
  rewrite update_fresh; [reflexivity | | reflexivity].
  unfold records.
  now rewrite (unique_keys_map_keyed
                 (fun p v => match task_record e fs h p v with
                             | Some v' => v'
                             | None => v
                             end)), as_completed_unique.
Qed.

Lemma run_pool_lists_products_as_they_finish_witness :
  fst (run_pool (Scenario.chair_last Scenario.working)
         Scenario.discovered_and_processed "Vitra"
         [("Chair", VInt 1956); ("Lamp", VInt 1960)])
  = Ok [("Lamp", VDict [("year", VInt 1960)]);
        ("Chair", VDict [("year", VInt 1956);
                         ("image", VStr Scenario.hosted_url)])].
Proof.
  apply (run_pool_lists_products_as_they_finish
           (Scenario.chair_last Scenario.working)
           Scenario.discovered_and_processed "Vitra"
           [("Chair", VInt 1956); ("Lamp", VInt 1960)] eq_refl).
  intros pd [<-|[<-|[]]]; now eexists.
Defined.

Lemma in_get {V : Type} (k : string) (v : V) (l : list (string * V)) :
  get k l = Some v -> In (k, v) l.
Proof.
  induction l as [|[k' w] l IH]; cbn [get]; [discriminate|].
  destruct (String.eqb k k') eqn:E.
  - apply String.eqb_eq in E. intros [= ->]. subst. now left.
  - intros G. right. now apply IH.
Qed.

(** The fragment written for a source fragment none of whose tasks
    raises: the design houses of the repaired fragment in their order,
    and for every product the record its task returned, whatever the
    order in which the tasks finish. *)
Lemma output_of_tasks (e : env) (fs : file_system) (name : string)
    (content : list (string * value)) :
  content_of (read_yaml [DATA_DIR; name] fs) = Some content ->
  is_fragment content = true ->
  (forall hp, In hp (fix_yaml_structure content) ->
     forall pd, In pd (snd hp) ->
       exists res,
         fst (upload_entry e fs (fst hp) (fst pd) (snd pd)) = Ok res) ->
  exists out,
    fst (process_yaml_file e fs name)
    = (Ok tt,
       write [PROCESSED_DIR; name] (Yaml (Parsed (catalog_value out))) fs)
    /\ keys out = keys (fix_yaml_structure content)
    /\ forall h p,
         lookup out h p
         = match lookup (fix_yaml_structure content) h p with
           | Some v => task_record e fs h p v
           | None => None
           end.
Proof.
  intros C F A.
  pose proof (fix_yaml_structure_wf content F) as W.
  pose proof (house_records e fs (fix_yaml_structure content) A
                (fix_yaml_structure content) []) as H.
  rewrite <- upload_houses_fold in H.
  unfold process_yaml_file. unfold content_of in C.
  destruct (read_yaml [DATA_DIR; name] fs) as [v|]; [|discriminate C].
  destruct (if truthy v then v else VDict []); try discriminate C.
  injection C as ->.
  destruct (upload_houses e fs (fix_yaml_structure content)) as [r evs].
  cbn [fst] in H. subst r. cbn [fst snd].
  eexists. split; [reflexivity|]. split.
  - apply keys_update_present. intros kv I.
    apply in_map_iff in I. destruct I as (hp & <- & I). cbn [fst].
    now apply contains_self.
  - intros h p. unfold lookup.
    unfold catalog_wf in W. apply andb_true_iff in W. destruct W as [W1 W2].
    rewrite get_update
      by (now rewrite (unique_keys_map_keyed
                         (fun h ps =>
                            update (records e fs h (as_completed e h ps))
                              []))).
    rewrite (get_map_keyed
               (fun h ps =>
                  update (records e fs h (as_completed e h ps)) [])).
    destruct (get h (fix_yaml_structure content)) as [ps|] eqn:G;
      [|reflexivity].
    assert (U : unique_keys ps = true).
    { apply (catalog_wf_get h ps (fix_yaml_structure content)); [|exact G].
      unfold catalog_wf. now rewrite W1, W2. }
    unfold records.
    rewrite get_update
      by (now rewrite (unique_keys_map_keyed
                         (fun p v => match task_record e fs h p v with
                                     | Some v' => v'
                                     | None => v
                                     end)), as_completed_unique).
    rewrite (get_map_keyed
               (fun p v => match task_record e fs h p v with
                           | Some v' => v'
                           | None => v
                           end)), (as_completed_get e h p ps U).
    destruct (get p ps) as [v0|] eqn:Gp; [|reflexivity].
    destruct (A (h, ps) (in_get h ps _ G) (p, v0) (in_get p v0 ps Gp))
      as [res R].
    cbn [fst snd] in R. unfold task_record. now rewrite R.
Qed.

(** X19.  The output fragment holds what the tasks returned and nothing
    else: when [process_yaml_file] ends normally on a source fragment
    that is a mapping, the file it writes under the same name has the
    design houses of the repaired fragment, in the same order, and for
    every design house and product the record its task returned; no
    product is lost and none is added. *)
Theorem process_yaml_file_output (e : env) (fs : file_system)
    (name : string) (content : list (string * value)) :
  content_of (read_yaml [DATA_DIR; name] fs) = Some content ->
  is_fragment content = true ->
  fst (fst (process_yaml_file e fs name)) = Ok tt ->
  exists out,
    snd (fst (process_yaml_file e fs name))
    = write [PROCESSED_DIR; name] (Yaml (Parsed (catalog_value out))) fs
    /\ keys out = keys (fix_yaml_structure content)
    /\ forall h p,
         lookup out h p
         = match lookup (fix_yaml_structure content) h p with
           | Some v => task_record e fs h p v
           | None => None
           end.
Proof.
  intros C F O.
  assert (A : forall hp, In hp (fix_yaml_structure content) ->
              forall pd, In pd (snd hp) ->
                exists res,
                  fst (upload_entry e fs (fst hp) (fst pd) (snd pd))
                  = Ok res).
  { intros hp Ih pd Ip.
    destruct (fst (upload_entry e fs (fst hp) (fst pd) (snd pd)))
      as [res|x] eqn:R; [now exists res|].
    destruct (process_yaml_file_raises e fs name (fst hp, fst pd, snd pd) x)
      as (x' & evs & P).
    - now apply (upload_tasks_In _ content hp pd).
    - exact R.
    - rewrite P in O. discriminate O. }
  destruct (output_of_tasks e fs name content C F A) as (out & P & K & L).
  exists out. rewrite P. now split.
Qed.

Lemma process_yaml_file_output_witness :
  exists out,
    snd (fst (process_yaml_file Scenario.working
                Scenario.discovered_and_processed "vitra.yaml"))
    = write [PROCESSED_DIR; "vitra.yaml"]
        (Yaml (Parsed (catalog_value out))) Scenario.discovered_and_processed
    /\ keys out = keys (fix_yaml_structure [("Vitra",
                                             VDict [("Chair", VInt 1956)])])
    /\ forall h p,
         lookup out h p
         = match lookup (fix_yaml_structure
                           [("Vitra", VDict [("Chair", VInt 1956)])]) h p with
           | Some v =>
               task_record Scenario.working
                 Scenario.discovered_and_processed h p v
           | None => None
           end.
Proof.
  apply (process_yaml_file_output Scenario.working
           Scenario.discovered_and_processed "vitra.yaml"
           [("Vitra", VDict [("Chair", VInt 1956)])]);
    reflexivity.
Defined.

End OutputProperties.

(** ** The generated modules *)

Section GenerateProperties.
Import GenerateAndDeploy GenerateFacts.

Lemma all_in_mapping (d : list (string * value)) :
  all_in required (VDict d) = Ok (complete d).
Proof.
  unfold complete, required. cbn [all_in str_in bind forallb andb].
  destruct (contains "id" d); [|reflexivity].
  destruct (contains "year" d); [|reflexivity].
  destruct (contains "imageUrl" d); [|reflexivity].
  destruct (contains "name" d); reflexivity.
Qed.

(** One item: its block, or a type error. *)
Lemma item_lines_block (e : env) (item : value) :
  item_lines e item
  = if breaks item then Raise TypeError else Ok (block e item).
Proof.
  unfold item_lines. destruct item as [| | | |s|l|d]; try reflexivity.
  - cbn [breaks block]. unfold required.
    cbn [all_in str_in bind forallb].
    destruct (str_contains "id" s); [|reflexivity].
    destruct (str_contains "year" s); [|reflexivity].
    destruct (str_contains "imageUrl" s); [|reflexivity].
    destruct (str_contains "name" s); reflexivity.
  - cbn [breaks block]. unfold required.
    cbn [all_in str_in bind forallb].
    repeat match goal with
           | |- context [existsb ?f l] => destruct (existsb f l)
           end; reflexivity.
  - rewrite all_in_mapping. cbn [bind breaks block].
    destruct (complete d) eqn:C; [|reflexivity].
    unfold complete, required, contains in C. cbn [forallb] in C.
    cbn [negb getitem]. unfold field.
    destruct (get "id" d); [|discriminate C].
    destruct (get "year" d); [|discriminate C].
    destruct (get "imageUrl" d); [|discriminate C].
    destruct (get "name" d); [|discriminate C].
    reflexivity.
Qed.

Lemma lines_raise_sticks (e : env) (data : list value) (x : exn) :
  fold_left
    (fun (acc : result (list string)) (item : value) =>
       ts_lines <- acc ;; more <- item_lines e item ;; Ok (ts_lines ++ more))
    data (Raise x)
  = Raise x.
Proof. induction data as [|item data IH]; cbn [fold_left bind]; auto. Qed.

(** The loop over the items, as a whole. *)
Lemma ts_lines_fold (e : env) (base_name : string) (data : list value) :
  ts_lines e base_name data
  = if existsb breaks data then Raise TypeError
    else Ok (header base_name ++ flat_map (block e) data ++ [footer]).
Proof.
  unfold ts_lines. generalize (header base_name).
  induction data as [|item data IH]; intros acc;
    cbn [fold_left existsb flat_map bind].
  - reflexivity.
  - rewrite item_lines_block.
    destruct (breaks item); cbn [orb bind].
    + now rewrite lines_raise_sticks.
    + rewrite IH. destruct (existsb breaks data); [reflexivity|].
      now rewrite <- !app_assoc.
Qed.

(** X20.  The text of a generated module: the two header lines, then,
    in the order of the list, a block of six lines for every item that
    is a mapping with the four keys [id], [year], [imageUrl] and
    [name], nothing for a mapping that lacks one and for a string or a
    list in which the names are not all found, then the closing line;
    unless an item is a value that cannot be searched (a number, a
    boolean, a null), or a string or list in which the four names are
    found, in which case a type error is raised and there is no text. *)
Theorem ts_lines_blocks (e : env) (base_name : string) (data : list value) :
  ts_lines e base_name data
  = if existsb breaks data then Raise TypeError
    else Ok (header base_name ++ flat_map (block e) data ++ [footer]).
Proof. apply ts_lines_fold. Qed.

Lemma file_raise_sticks4 (e : env) (fs : file_system) (names : list string) :
  forall x written,
    fold_left (GenerateAndDeploy.file_step e fs) names (Raise x, written)
    = (Raise x, written).
Proof.
  induction names as [|n names IH]; intros x written; cbn [fold_left];
    [reflexivity | apply IH].
Qed.

Lemma generate_module (e : env) (fs : file_system) (name : string) :
  readable (World.lookup [INPUT_DIR; name] fs) = true ->
  match list_document (World.lookup [INPUT_DIR; name] fs) with
  | Some data => existsb breaks data = false
  | None => True
  end ->
  forall written,
    GenerateAndDeploy.file_step e fs (Ok tt, written) name
    = (Ok tt, written ++ module_of e fs name).
Proof.
  unfold module_of, GenerateAndDeploy.file_step, generate.
  destruct (World.lookup [INPUT_DIR; name] fs) as [[b|[v|]|]|];
    cbn [readable list_document]; intros R B written;
    try discriminate R; try now rewrite app_nil_r.
  destruct v; try now rewrite app_nil_r.
  rewrite ts_lines_fold, B. reflexivity.
Qed.

(** X21.  When every file the script opens can be read and no item of
    a list document stops it, the script ends normally and writes, in
    the order of the directory listing, one module for each document
    that is a list, named after the file without its extension; a
    document that does not parse, or that is not a list, gives no
    module and does not keep the others from being written. *)
Theorem generate_and_deploy_modules (e : env) (fs : file_system) :
  (forall name, In name (glob_visible INPUT_DIR fs) ->
     readable (World.lookup [INPUT_DIR; name] fs) = true) ->
  (forall name data, In name (glob_visible INPUT_DIR fs) ->
     list_document (World.lookup [INPUT_DIR; name] fs) = Some data ->
     existsb breaks data = false) ->
  GenerateAndDeploy.main e fs
  = (Ok tt, flat_map (module_of e fs) (glob_visible INPUT_DIR fs)).
Proof.
  unfold GenerateAndDeploy.main. intros R B.
  assert (G : forall names written,
             (forall n, In n names -> In n (glob_visible INPUT_DIR fs)) ->
             fold_left (GenerateAndDeploy.file_step e fs) names
               (Ok tt, written)
             = (Ok tt, written ++ flat_map (module_of e fs) names)).
  { induction names as [|n names IH]; intros written S;
      cbn [fold_left flat_map].
    - now rewrite app_nil_r.
    - rewrite generate_module.
      + rewrite IH by (intros m I; apply S; now right).
        now rewrite app_assoc.
      + apply R, S. now left.
      + pose proof (B n) as Bn.
        destruct (list_document (World.lookup [INPUT_DIR; n] fs));
          [|exact I].
        apply Bn; [apply S; now left | reflexivity]. }
  apply (G _ [] (fun n I => I)).
Qed.

Lemma generate_and_deploy_modules_witness :
  GenerateAndDeploy.main Scenario.working
    [(["data-yaml"; "chairs.yaml"], Yaml (Parsed timeline));
     (["data-yaml"; "notes.yaml"], Yaml (Parsed (VStr "to do")));
     (["data-yaml"; "broken.yaml"], Yaml Unparsable)]
  = (Ok tt,
     flat_map
       (module_of Scenario.working
          [(["data-yaml"; "chairs.yaml"], Yaml (Parsed timeline));
           (["data-yaml"; "notes.yaml"], Yaml (Parsed (VStr "to do")));
           (["data-yaml"; "broken.yaml"], Yaml Unparsable)])
       (glob_visible INPUT_DIR
          [(["data-yaml"; "chairs.yaml"], Yaml (Parsed timeline));
           (["data-yaml"; "notes.yaml"], Yaml (Parsed (VStr "to do")));
           (["data-yaml"; "broken.yaml"], Yaml Unparsable)])).
Proof.
  apply (generate_and_deploy_modules Scenario.working
           [(["data-yaml"; "chairs.yaml"], Yaml (Parsed timeline));
            (["data-yaml"; "notes.yaml"], Yaml (Parsed (VStr "to do")));
            (["data-yaml"; "broken.yaml"], Yaml Unparsable)]).
  - intros name [<-|[<-|[<-|[]]]]; reflexivity.
  - intros name data [<-|[<-|[<-|[]]]] D; try discriminate D.
    injection D as <-. reflexivity.
Defined.

(** X22.  One item that cannot be searched stops the whole script: when
    a list document of the directory holds an item that raises,
    generating its module raises a type error, outside any handler,
    and the script ends with an exception whatever the other documents
    are. *)
Theorem unsearchable_item_stops_the_script (e : env) (fs : file_system)
    (name : string) (data : list value) :
  In name (glob_visible INPUT_DIR fs) ->
  list_document (World.lookup [INPUT_DIR; name] fs) = Some data ->
  existsb breaks data = true ->
  generate e name (World.lookup [INPUT_DIR; name] fs) = Raise TypeError
  /\ exists x, fst (GenerateAndDeploy.main e fs) = Raise x.
Proof.
  intros I D B.
  assert (G : generate e name (World.lookup [INPUT_DIR; name] fs)
              = Raise TypeError).
  { unfold list_document in D. unfold generate.
    destruct (World.lookup [INPUT_DIR; name] fs) as [[b|[v|]|]|];
      try discriminate D.
    destruct v; try discriminate D. injection D as ->.
    now rewrite ts_lines_fold, B. }
  split; [exact G|].
  unfold GenerateAndDeploy.main.
  generalize (Ok tt, @nil (path * string)).
  induction (glob_visible INPUT_DIR fs) as [|n names IH]; intros acc;
    [destruct I|].
  cbn [fold_left]. destruct I as [->|I]; [|now apply IH].
  destruct acc as [[u|y] written]; cbn [GenerateAndDeploy.file_step].
  - rewrite G. exists TypeError. now rewrite file_raise_sticks4.
  - exists y. now rewrite file_raise_sticks4.
Qed.

Lemma unsearchable_item_stops_the_script_witness :
  generate Scenario.working "years.yaml"
    (World.lookup [INPUT_DIR; "years.yaml"]
       [(["data-yaml"; "years.yaml"],
         Yaml (Parsed (VList [VInt 1956; VInt 1960])));
        (["data-yaml"; "chairs.yaml"], Yaml (Parsed timeline))])
  = Raise TypeError
  /\ exists x,
       fst (GenerateAndDeploy.main Scenario.working
              [(["data-yaml"; "years.yaml"],
                Yaml (Parsed (VList [VInt 1956; VInt 1960])));
               (["data-yaml"; "chairs.yaml"], Yaml (Parsed timeline))])
       = Raise x.
Proof.
  apply (unsearchable_item_stops_the_script Scenario.working
           [(["data-yaml"; "years.yaml"],
             Yaml (Parsed (VList [VInt 1956; VInt 1960])));
            (["data-yaml"; "chairs.yaml"], Yaml (Parsed timeline))]
           "years.yaml" [VInt 1956; VInt 1960]).
  - now left.
  - reflexivity.
  - reflexivity.
Defined.

End GenerateProperties.

(** ** The generation stage and the rest of the pipeline *)

Section PipelineProperties.
Import GenerateAndDeploy DirectoryFacts.

Lemma glob_yaml_ends (dir name : string) (fs : file_system) :
  In name (glob_yaml dir fs) -> ends_with ".yaml" name = true.
Proof.
  unfold glob_yaml. intros I. apply in_flat_map in I.
  destruct I as ([p f] & _ & I). cbn [fst] in I.
  destruct p as [|d [|n [|x rest]]]; try destruct I.
  destruct (String.eqb d dir && ends_with ".yaml" n)%bool eqn:E;
    [|destruct I].
  destruct I as [<-|[]]. apply andb_true_iff in E. apply E.
Qed.

(** X23.  A module is named after its file: for every file the script
    opens, the base name it computes is the file name without its
    [.yaml] extension, so that [chairs.yaml] gives [chairs.ts] and the
    constant [chairsData]; a hidden file such as [.yaml], whose name
    [splitext] would leave whole, is not among the files the pattern
    finds. *)
Theorem module_is_named_after_the_file (fs : file_system) (name : string) :
  In name (glob_visible INPUT_DIR fs) ->
  (ProcessPngs.splitext_root false name ++ ".yaml")%string = name.
Proof.
  unfold glob_visible. intros I. apply filter_In in I.
  destruct I as [I V]. apply negb_true_iff in V.
  destruct (ends_with_stem ".yaml" name (glob_yaml_ends _ _ _ I))
    as [stem ->].
  rewrite (splitext_root_stem stem "yaml" eq_refl false); [reflexivity|].
  right. destruct stem as [|c s]; [vm_compute in V; discriminate V|].
  cbn [SlugFacts.any_char]. unfold startswith in V. cbn in V.
  destruct (ascii_dec "." c) as [<-|N];
    [destruct (s ++ ".yaml")%string; discriminate V|].
  destruct (Ascii.eqb c ".") eqn:E; [|reflexivity].
  apply Ascii.eqb_eq in E. now subst c.
Qed.

Lemma module_is_named_after_the_file_witness :
  (ProcessPngs.splitext_root false "chairs.v2.yaml" ++ ".yaml")%string
  = "chairs.v2.yaml".
Proof.
  apply (module_is_named_after_the_file
           [(["data-yaml"; ".yaml"], Yaml (Parsed GenerateFacts.timeline));
            (["data-yaml"; "chairs.v2.yaml"],
             Yaml (Parsed GenerateFacts.timeline))]
           "chairs.v2.yaml").
  now left.
Defined.

Lemma same_directory_refl (dir : string) (fs : file_system) :
  same_directory dir fs fs.
Proof. now split. Qed.

Lemma same_directory_trans (dir : string) (a b c : file_system) :
  same_directory dir a b -> same_directory dir b c -> same_directory dir a c.
Proof.
  intros [G1 L1] [G2 L2]. split; [congruence|].
  intros n. now rewrite L2, L1.
Qed.

Lemma write_elsewhere (dir : string) (p : path) (f : file)
    (s : file_system) :
  elsewhere dir p = true -> same_directory dir s (write p f s).
Proof.
  intros E. split.
  - rewrite glob_write. destruct (is_file p s); [apply app_nil_r|].
    destruct p as [|d [|n [|x rest]]]; try apply app_nil_r.
    cbn [elsewhere] in E. apply negb_true_iff in E. rewrite E.
    apply app_nil_r.
  - intros n. rewrite lookup_write.
    destruct (path_eqb [dir; n] p) eqn:Q; [|reflexivity].
    apply path_eqb_eq in Q. subst p. cbn [elsewhere] in E.
    now rewrite String.eqb_refl in E.
Qed.

Lemma fold_elsewhere {A S : Type} (step : S -> A -> S)
    (files : S -> file_system) (dir : string) :
  (forall s a,
      files (step s a) = files s
      \/ exists p f, elsewhere dir p = true
                     /\ files (step s a) = write p f (files s)) ->
  forall l s, same_directory dir (files s) (files (fold_left step l s)).
Proof.
  intros H. induction l as [|a l IH]; intros s; cbn [fold_left].
  - apply same_directory_refl.
  - apply (same_directory_trans dir _ (files (step s a))); [|apply IH].
    destruct (H s a) as [->|(p & f & E & ->)];
      [apply same_directory_refl | now apply write_elsewhere].
Qed.

Lemma find_images_elsewhere (e : env) (fs : file_system) :
  same_directory INPUT_DIR fs (fst (FindImages.main e fs)).
Proof.
  unfold FindImages.main.
  apply (fold_elsewhere (FindImages.run_task e) fst INPUT_DIR).
  intros s a. destruct (run_task_cases e s a) as [C|(_ & _ & f & C)];
    [now left | right].
  eexists. exists f. split; [|exact C]. reflexivity.
Qed.

Lemma process_pngs_elsewhere (e : env) (fs : file_system) :
  same_directory INPUT_DIR fs (snd (fst (ProcessPngs.main e fs))).
Proof.
  unfold ProcessPngs.main.
  destruct (getenv e "REPLICATE_API_TOKEN"); cbn [fst snd];
    [|apply same_directory_refl].
  assert (H : forall (s : file_system * list event) (a : path),
             fst (ProcessPngs.process_file e s a) = fst s
             \/ exists p f,
                  elsewhere INPUT_DIR p = true
                  /\ fst (ProcessPngs.process_file e s a)
                     = write p f (fst s)).
  { intros st a.
    destruct (process_file_cases e st a) as [C|(_ & _ & f & C)];
      [now left | right].
    eexists. exists f. split; [|exact C]. reflexivity. }
  pose proof (fold_elsewhere (ProcessPngs.process_file e) fst INPUT_DIR H
                (ProcessPngs.walk fs) (fs, [])) as F.
  destruct (fold_left (ProcessPngs.process_file e) (ProcessPngs.walk fs)
              (fs, [])) as [fs' evs].
  exact F.
Qed.

Lemma upload_step_elsewhere (e : env)
    (st : result unit * file_system * list event) (name : string) :
  snd (fst (UploadFacts.file_step e st name)) = snd (fst st)
  \/ exists p f,
       elsewhere INPUT_DIR p = true
       /\ snd (fst (UploadFacts.file_step e st name))
          = write p f (snd (fst st)).
Proof.
  destruct st as [[[u|x] s] evs]; cbn [UploadFacts.file_step fst snd];
    [|now left].
  unfold UploadToIbb.process_yaml_file.
  destruct (read_yaml [UploadToIbb.DATA_DIR; name] s) as [v|];
    [|now left].
  destruct (if truthy v then v else VDict []); try now left.
  destruct (UploadToIbb.upload_houses e s (UploadToIbb.fix_yaml_structure d))
    as [[c|x] evs']; cbn [fst snd]; [right | now left].
  eexists. eexists. split; [|reflexivity]. reflexivity.
Qed.

Lemma upload_elsewhere (e : env) (fs : file_system) :
  same_directory INPUT_DIR fs (snd (fst (UploadToIbb.main e fs))).
Proof.
  rewrite main_fold.
  pose proof (fold_elsewhere (UploadFacts.file_step e)
                (fun st => snd (fst st)) INPUT_DIR
                (upload_step_elsewhere e)
                (glob_yaml UploadToIbb.DATA_DIR fs) (Ok tt, fs, [])) as F.
  cbn [fst snd] in F.
  destruct (fold_left (UploadFacts.file_step e)
              (glob_yaml UploadToIbb.DATA_DIR fs) (Ok tt, fs, []))
    as [[[u|x] s] evs]; cbn [fst snd] in *; [|exact F].
  rewrite create_datatable_eq.
  destruct (UploadToIbb.merge_fragments (RunFacts.processed_docs s));
    cbn [fst snd]; [|exact F].
  apply (same_directory_trans INPUT_DIR _ s); [exact F|].
  now apply write_elsewhere.
Qed.

Lemma generate_same_directory (e : env) (fs fs' : file_system) :
  same_directory INPUT_DIR fs fs' ->
  GenerateAndDeploy.main e fs' = GenerateAndDeploy.main e fs.
Proof.
  intros [G L]. unfold GenerateAndDeploy.main, glob_visible. rewrite G.
  generalize (Ok tt, @nil (path * string)).
  induction (filter (fun name => negb (startswith "." name))
               (glob_yaml INPUT_DIR fs)) as [|n names IH]; intros acc;
    cbn [fold_left]; [reflexivity|].
  rewrite IH. f_equal. unfold GenerateAndDeploy.file_step.
  now rewrite L.
Qed.

(** X24.  The generation stage takes nothing from the stages before
    it: no file of [data-yaml], the only directory it reads, is
    written, replaced or added by the discovery, background-removal and
    upload stages, so the modules it generates after them are those it
    would generate from the store as it was before the run; the
    datatable in particular is not among what it reads. *)
Theorem generation_ignores_the_earlier_stages (e : env) (fs : file_system) :
  same_directory INPUT_DIR fs (snd (fst (RunAll.run e fs)))
  /\ GenerateAndDeploy.main e (snd (fst (RunAll.run e fs)))
     = GenerateAndDeploy.main e fs.
Proof.
  assert (S : same_directory INPUT_DIR fs (snd (fst (RunAll.run e fs)))).
  { unfold RunAll.run.
    pose proof (find_images_elsewhere e fs) as S1.
    destruct (FindImages.main e fs) as [fs1 evs1]. cbn [fst] in S1.
    pose proof (process_pngs_elsewhere e fs1) as S2.
    destruct (ProcessPngs.main e fs1) as [[r2 fs2] evs2].
    cbn [fst snd] in S2.
    pose proof (same_directory_trans _ _ _ _ S1 S2) as S12.
    destruct r2 as [u|x]; [|exact S12].
    pose proof (upload_elsewhere e fs2) as S3.
    destruct (UploadToIbb.main e fs2) as [[r3 fs3] evs3].
    cbn [fst snd] in *.
    exact (same_directory_trans _ _ _ _ S12 S3). }
  split; [exact S|]. now apply generate_same_directory.
Qed.

End PipelineProperties.

(** ** Missing credentials *)

Section CredentialProperties.
Import RunFacts.




End CredentialProperties.
